(** * Conversational-memory retrieval engine (mcp-ts): a shallow embedding

    The development follows the TypeScript sources:

    - [services/conversationSummary.service.ts]  (semanticSearch,
      searchByText, updateEmbedding, textSearch),
    - [services/conversation.service.ts]         (findAll, searchByTopic,
      findByConversationIds, create),
    - [services/session.service.ts]              (findBySessionId,
      sessionIdExists, create),
    - [tools/conversationSummary.ts]             (the MCP search tools,
      generateRecommendation, getRelevanceLevel),
    - [tools/conversations.ts]                   (get-conversations-list),
    - [routes/conversationSummary.routes.ts]     (POST /semantic-search,
      POST /text-search, PUT /:id/embedding),
    - [routes/session.routes.ts]                 (POST /, GET
      /by-session-id/:sessionId),
    - [routes/chat.routes.ts]                    (POST /message),
    - [models/*.model.ts]                        (column types and
      constraints).

    Conventions of the embedding.

    - A JavaScript [number], like a [double precision] value of
      PostgreSQL, is an IEEE 754 binary64 value: NaN, an infinity, or a
      finite value given exactly as a rational.  The results of arithmetic
      are rounded to the nearest double, ties to even ([double]).  The
      sign of zero is not represented: no operation of the code observes
      it.
    - A string is held in UTF-8, as the server receives and stores it.
    - An [async] function is a program of type [Prog A]: a tree whose
      nodes are the awaited store statements.  [run] executes a program
      alone; [run_concurrent] interleaves two programs at their awaits.
    - The record store (PostgreSQL with pgvector, reached through
      sequelize) is a [World]: the tables as lists of rows in scan order,
      the sequences, a clock, the faults the store is about to suffer and
      a journal of the statements it has received.
    - Three operators of the store are not code of the repository and are
      parameters of the development (Section variables): pgvector's
      cosine distance [<=>], the reading of one vector element from the
      text the code builds (a single-precision value, or a refusal), and
      PostgreSQL's [ILIKE]. *)

From Stdlib Require Import List String Ascii ZArith QArith Qround Qabs Qpower.
From Stdlib Require Import Bool Lia Lqa Sorted Permutation DecimalString.
Import ListNotations.

Local Open Scope string_scope.
Local Open Scope list_scope.

(* ================================================================== *)
(** ** Numbers                                                         *)
(* ================================================================== *)

Inductive number : Type :=
| NaN
| Infinity (negative : bool)
| Finite (value : Q).

Definition of_Z (z : Z) : number := Finite (inject_Z z).

(** [array.length] as a number. *)
Definition of_nat (n : nat) : number := of_Z (Z.of_nat n).

Definition pow2 (e : Z) : Q := 2 ^ e.

(** The integer [e] with [2^e <= a < 2^(e+1)], for [a > 0]. *)
Definition Qlog2 (a : Q) : Z :=
  let e := (Z.log2 (Qnum a) - Z.log2 (Zpos (Qden a)))%Z in
  if Qle_bool (pow2 e) a then e else (e - 1)%Z.

(** The nearest integer, a half going to the even neighbour. *)
Definition round_half_even (q : Q) : Z :=
  let f := Qfloor q in
  match Qcompare (q - inject_Z f) (1 # 2) with
  | Lt => f
  | Gt => (f + 1)%Z
  | Eq => if Z.even f then f else (f + 1)%Z
  end.

(** The multiple of [2^p] nearest to [a > 0], ties to even, where [2^p]
    is the spacing of the values of precision [prec] around [a] (the
    spacing [2^emin] of the subnormal values at least). *)
Definition nearest (prec emin : Z) (a : Q) : Q :=
  let p := Z.max (Qlog2 a - (prec - 1)) emin in
  inject_Z (round_half_even (a / pow2 p)) * pow2 p.

(** Rounding to the nearest value of a binary format; what reaches
    [2^emax] overflows to an infinity. *)
Definition binary_round (prec emin emax : Z) (q : Q) : number :=
  match Qcompare q 0 with
  | Eq => Finite 0
  | Gt => let r := nearest prec emin q in
          if Qle_bool (pow2 emax) r then Infinity false else Finite (Qred r)
  | Lt => let r := nearest prec emin (- q) in
          if Qle_bool (pow2 emax) r then Infinity true else Finite (Qred (- r))
  end.

(** binary64, and a decimal literal such as [0.7]: [double (7 # 10)]. *)
Definition double : Q -> number := binary_round 53 (-1074) 1024.

(** The comparison of two numbers; NaN compares with nothing. *)
Definition compare (a b : number) : option comparison :=
  match a, b with
  | NaN, _ | _, NaN => None
  | Infinity s, Infinity t =>
      Some (if s then (if t then Eq else Lt) else (if t then Gt else Eq))
  | Infinity s, Finite _ => Some (if s then Lt else Gt)
  | Finite _, Infinity t => Some (if t then Gt else Lt)
  | Finite p, Finite q => Some (Qcompare p q)
  end.

(** [a >= b], [a > b], [a <= b] and [a < b]. *)
Definition ge (a b : number) : bool :=
  match compare a b with Some Gt | Some Eq => true | _ => false end.
Definition gt (a b : number) : bool :=
  match compare a b with Some Gt => true | _ => false end.
Definition le (a b : number) : bool :=
  match compare a b with Some Lt | Some Eq => true | _ => false end.
Definition lt (a b : number) : bool :=
  match compare a b with Some Lt => true | _ => false end.

Definition is_nan (a : number) : bool :=
  match a with NaN => true | _ => false end.

(** [Math.max] and [Math.min]: NaN if either argument is. *)
Definition Math_max (a b : number) : number :=
  match compare a b with
  | None => NaN
  | Some Gt => a
  | Some _ => b
  end.

Definition Math_min (a b : number) : number :=
  match compare a b with
  | None => NaN
  | Some Gt => b
  | Some _ => a
  end.

(** [a + b], [a - b] and [a / b]. *)
Definition add (a b : number) : number :=
  match a, b with
  | NaN, _ | _, NaN => NaN
  | Infinity s, Infinity t => if Bool.eqb s t then a else NaN
  | Infinity _, Finite _ => a
  | Finite _, Infinity _ => b
  | Finite p, Finite q => double (p + q)
  end.

Definition sub (a b : number) : number :=
  match a, b with
  | NaN, _ | _, NaN => NaN
  | Infinity s, Infinity t => if Bool.eqb s t then NaN else a
  | Infinity _, Finite _ => a
  | Finite _, Infinity t => Infinity (negb t)
  | Finite p, Finite q => double (p - q)
  end.

Definition is_negative (q : Q) : bool := negb (Qle_bool 0 q).

(** A zero divisor is taken as [+0]: the one division of the code divides
    by the length of an array. *)
Definition div (a b : number) : number :=
  match a, b with
  | NaN, _ | _, NaN => NaN
  | Infinity _, Infinity _ => NaN
  | Infinity s, Finite q => Infinity (xorb s (is_negative q))
  | Finite _, Infinity _ => Finite 0
  | Finite p, Finite q =>
      if Qeq_bool q 0 then
        if Qeq_bool p 0 then NaN else Infinity (is_negative p)
      else double (p / q)
  end.

(** [n.toString()] for an array length. *)
Definition nat_to_string (n : nat) : string :=
  NilEmpty.string_of_uint (Nat.to_uint n).

(** The nearest integer, a half going away from zero. *)
Definition round_half_away (q : Q) : Z :=
  if Qle_bool 0 q then Qfloor (q + (1 # 2)) else (- Qfloor ((- q) + (1 # 2)))%Z.

(** [parseFloat(x.toFixed(4))]: [toFixed] takes the multiple of 1/10000
    nearest to the exact value of [x] (the larger one of two) and prints
    it; from 1e21 on it prints [x] itself, as it does NaN and the
    infinities.  [parseFloat] reads the digits back as a double. *)
Definition toFixed4 (x : number) : number :=
  match x with
  | Finite q =>
      if Qle_bool (inject_Z (10 ^ 21)) (Qabs q) then x
      else double (Qmake (round_half_away (q * 10000)) 10000)
  | _ => x
  end.

(* ================================================================== *)
(** ** Strings                                                         *)
(* ================================================================== *)

Definition byte (c : ascii) : nat := nat_of_ascii c.

(** The white space and the line terminators that
    [String.prototype.trim] removes, in UTF-8: TAB, LF, VT, FF, CR and
    SPACE in one byte; U+00A0 in two bytes; U+1680, U+2000 to U+200A,
    U+2028, U+2029, U+202F, U+205F, U+3000 and U+FEFF in three bytes. *)
Definition space1 (c : ascii) : bool :=
  (((9 <=? byte c) && (byte c <=? 13)) || (byte c =? 32))%nat.

Definition space2 (c1 c2 : ascii) : bool :=
  ((byte c1 =? 194) && (byte c2 =? 160))%nat.

Definition space3 (c1 c2 c3 : ascii) : bool :=
  (((byte c1 =? 225) && (byte c2 =? 154) && (byte c3 =? 128))
   || ((byte c1 =? 226) && (byte c2 =? 128)
       && (((128 <=? byte c3) && (byte c3 <=? 138))
           || (byte c3 =? 168) || (byte c3 =? 169) || (byte c3 =? 175)))
   || ((byte c1 =? 226) && (byte c2 =? 129) && (byte c3 =? 159))
   || ((byte c1 =? 227) && (byte c2 =? 128) && (byte c3 =? 128))
   || ((byte c1 =? 239) && (byte c2 =? 187) && (byte c3 =? 191)))%nat.

Fixpoint trimStart (s : string) : string :=
  match s with
  | EmptyString => EmptyString
  | String c1 s1 =>
      if space1 c1 then trimStart s1
      else
        match s1 with
        | EmptyString => s
        | String c2 s2 =>
            if space2 c1 c2 then trimStart s2
            else
              match s2 with
              | EmptyString => s
              | String c3 s3 => if space3 c1 c2 c3 then trimStart s3 else s
              end
        end
  end.

(** A string that does not begin with white space. *)
Definition starts_clean (s : string) : bool :=
  match s with
  | EmptyString => true
  | String c1 s1 =>
      negb (space1 c1) &&
      match s1 with
      | EmptyString => true
      | String c2 s2 =>
          negb (space2 c1 c2) &&
          match s2 with
          | EmptyString => true
          | String c3 s3 => negb (space3 c1 c2 c3)
          end
      end
  end.

(** A string made of white space only. *)
Definition blank (s : string) : bool :=
  match trimStart s with EmptyString => true | _ => false end.

(** In well-formed UTF-8 no white-space character begins inside another
    character, so the white space at the end is the longest blank
    suffix. *)
Fixpoint trimEnd (s : string) : string :=
  match s with
  | EmptyString => EmptyString
  | String c s' => if blank s then EmptyString else String c (trimEnd s')
  end.

Definition trim (s : string) : string := trimEnd (trimStart s).

(** The number of characters of a UTF-8 string: its bytes other than
    continuation bytes (0x80 to 0xBF). *)
Fixpoint char_length (s : string) : nat :=
  match s with
  | EmptyString => 0
  | String c s' =>
      if ((128 <=? byte c) && (byte c <=? 191))%nat then char_length s'
      else S (char_length s')
  end.

Fixpoint has_nul (s : string) : bool :=
  match s with
  | EmptyString => false
  | String c s' => (byte c =? 0)%nat || has_nul s'
  end.

(** The double quote. *)
Definition quote : string :=
  String (Ascii false true false false false true false false) EmptyString.

Definition quoted (s : string) : string := quote ++ s ++ quote.

(** A string is falsy exactly when it is empty. *)
Definition truthy_string (s : string) : bool :=
  match s with EmptyString => false | _ => true end.

(** The values handed to [JSON.stringify] and [res.json]. *)
#[local] Set Warnings "-register-all".
Inductive JsValue : Type :=
| JsNull
| JsBool (b : bool)
| JsNumber (n : number)
| JsString (s : string)
| JsDate (t : Z)
| JsArray (items : list JsValue)
| JsObject (fields : list (string * JsValue)).

Fixpoint assoc (k : string) (fields : list (string * JsValue)) : option JsValue :=
  match fields with
  | [] => None
  | (k', v) :: rest => if String.eqb k k' then Some v else assoc k rest
  end.

(** [o[k]] and [Object.keys(o)]. *)
Definition field (k : string) (o : JsValue) : option JsValue :=
  match o with
  | JsObject fields => assoc k fields
  | _ => None
  end.

Definition keys (o : JsValue) : list string :=
  match o with
  | JsObject fields => map fst fields
  | _ => []
  end.

Definition js_strings (l : list string) : JsValue := JsArray (map JsString l).

(** [types.ts]: a tool result.  [text] holds the object that
    [TextResponseBuilder] hands to [JSON.stringify]; the serialisation
    itself is left to the runtime. *)
Record ToolContent := { type : string; text : JsValue }.
Record ToolResult := { content : list ToolContent }.

(** [utils.ts] *)
Definition TextResponseBuilder (data : JsValue) : ToolResult :=
  {| content := [ {| type := "text"; text := data |} ] |}.

(** The object a tool result carries. *)
Definition payload (r : ToolResult) : JsValue :=
  match content r with
  | c :: _ => text c
  | [] => JsNull
  end.

(** An express response: [res.status(s).json(body)]. *)
Record Response := { status : nat; body : JsValue }.

(* ================================================================== *)
(** ** The models ([models/*.model.ts])                                *)
(* ================================================================== *)

Module User.
Record t := { id : Z; email : string; password : string; fullname : string }.
End User.

Module Session.
Record t := {
  id : Z;
  title : option string;
  user_id : Z;
  session_id : string;
  created_at : Z;
  updated_at : Z
}.
End Session.

Module Conversation.
Record t := {
  id : Z;
  content : string;
  user_id : Z;
  session_id : string;
  conversation_id : string;
  role : string;
  created_at : Z;
  updated_at : Z
}.
End Conversation.

Module ConversationSummary.
(** The column [summary_embedding] is declared [VECTOR(1536)], nullable. *)
Definition DIMENSION : nat := 1536.

Record t := {
  id : Z;
  summary_text : string;
  conversation_ids : list string;
  summary_embedding : option (list number);
  created_at : Z;
  updated_at : Z
}.
End ConversationSummary.

Module SemanticSearchResult.
Record t := {
  id : Z;
  summary_text : string;
  conversation_ids : list string;
  similarity_score : number;
  created_at : Z
}.
End SemanticSearchResult.

Record CreateSessionDTO := {
  cs_title : option string;
  cs_user_id : Z;
  cs_session_id : string
}.

Record CreateConversationDTO := {
  cc_content : string;
  cc_user_id : Z;
  cc_session_id : string;
  cc_conversation_id : string;
  cc_role : string
}.

(** [role] is an ENUM("user", "assistant", "system"). *)
Definition is_role (r : string) : bool :=
  String.eqb r "user" || String.eqb r "assistant" || String.eqb r "system".

(* ================================================================== *)
(** ** Failures                                                        *)
(* ================================================================== *)

(** What PostgreSQL and pgvector reject a statement with. *)
Inductive PgError :=
| VectorEmpty
| VectorTooLong
| VectorElement (msg : string)
| VectorDimension (expected got : nat)
| VectorDifferentDimensions (a b : nat)
| UndefinedColumn (name : string)
| BigintOutOfRange
| NegativeLimit
| NegativeOffset
| InvalidByteSequence
| StringTooLong (n : nat)
| InvalidEnumValue (enum v : string).

(** The errors sequelize throws. *)
Inductive JsError :=
| ConnectionError (msg : string)
| DatabaseError (e : PgError)
| UniqueConstraintError (table column : string)
| ForeignKeyConstraintError (table column : string).

Definition pg_message (e : PgError) : string :=
  match e with
  | VectorEmpty => "vector must have at least 1 dimension"
  | VectorTooLong => "vector cannot have more than 16000 dimensions"
  | VectorElement msg => msg
  | VectorDimension expected got =>
      "expected " ++ nat_to_string expected ++ " dimensions, not " ++ nat_to_string got
  | VectorDifferentDimensions a b =>
      "different vector dimensions " ++ nat_to_string a ++ " and " ++ nat_to_string b
  | UndefinedColumn name => "column " ++ quoted name ++ " does not exist"
  | BigintOutOfRange => "bigint out of range"
  | NegativeLimit => "LIMIT must not be negative"
  | NegativeOffset => "OFFSET must not be negative"
  | InvalidByteSequence =>
      "invalid byte sequence for encoding " ++ quoted "UTF8" ++ ": 0x00"
  | StringTooLong n =>
      "value too long for type character varying(" ++ nat_to_string n ++ ")"
  | InvalidEnumValue enum v =>
      "invalid input value for enum " ++ enum ++ ": " ++ quoted v
  end.

(** [error.message]: sequelize keeps the message of the store, except
    for a violated unique constraint. *)
Definition message (e : JsError) : string :=
  match e with
  | ConnectionError msg => msg
  | DatabaseError e => pg_message e
  | UniqueConstraintError _ _ => "Validation error"
  | ForeignKeyConstraintError table column =>
      "insert or update on table " ++ quoted table
      ++ " violates foreign key constraint "
      ++ quoted (table ++ "_" ++ column ++ "_fkey")
  end.

(** A settled promise. *)
Inductive Outcome (A : Type) : Type :=
| Resolved (a : A)
| Rejected (e : JsError).
Arguments Resolved {A} a.
Arguments Rejected {A} e.

(* ================================================================== *)
(** ** Statements sent to the store                                    *)
(* ================================================================== *)

Inductive ConversationWhere :=
| WhereAll
| WhereContentILike (pattern : string)
| WhereConversationIdIn (ids : list string).

Inductive Order := ASC | DESC.

Inductive Statement :=
(* SELECT ... 1 - (summary_embedding <=> :embedding) AS similarity_score ...
   WHERE summary_embedding IS NOT NULL AND 1 - (...) >= :threshold
   ORDER BY summary_embedding <=> :embedding LIMIT :limit *)
| SummarySemanticSelect (embedding : list number) (threshold limit : number)
(* UPDATE conversations_summary SET summary_embedding = :embedding::vector,
   updated_at = NOW() WHERE id = :id *)
| SummaryUpdateEmbedding (id : Z) (embedding : list number)
(* ConversationSummary.findAll({ where: { summary_text: { [Op.iLike]: p } },
   order: [["created_at", "DESC"]], limit }) *)
| SummaryFindAllILike (pattern : string) (limit : number)
(* Conversation.findAll({ where, limit, offset, order: [["created_at", o]] }) *)
| ConversationFindAll (where_ : ConversationWhere) (order : Order)
                      (limit offset : option number)
(* Conversation.create(dto) *)
| ConversationCreate (dto : CreateConversationDTO)
(* Session.findOne({ where: { session_id } }) *)
| SessionFindOne (session_id : string)
(* Session.create(dto) *)
| SessionCreate (dto : CreateSessionDTO).

(** What each statement resolves with. *)
Definition reply (s : Statement) : Type :=
  match s with
  | SummarySemanticSelect _ _ _ => list SemanticSearchResult.t
  | SummaryUpdateEmbedding _ _ => nat
  | SummaryFindAllILike _ _ => list ConversationSummary.t
  | ConversationFindAll _ _ _ _ => list Conversation.t
  | ConversationCreate _ => Conversation.t
  | SessionFindOne _ => option Session.t
  | SessionCreate _ => Session.t
  end.

(* ================================================================== *)
(** ** Asynchronous programs                                           *)
(* ================================================================== *)

(** An [async] function body: it returns, throws, awaits a statement of
    the store (and goes on with the settled promise), or draws a
    [uuidv4()]. *)
Inductive Prog (A : Type) : Type :=
| Ret (a : A)
| Throw (e : JsError)
| Await (s : Statement) (k : Outcome (reply s) -> Prog A)
| Uuidv4 (k : string -> Prog A).
Arguments Ret {A} a.
Arguments Throw {A} e.
Arguments Await {A} s k.
Arguments Uuidv4 {A} k.

Fixpoint bind {A B : Type} (p : Prog A) (f : A -> Prog B) : Prog B :=
  match p with
  | Ret a => f a
  | Throw e => Throw e
  | Await s k => Await s (fun o => bind (k o) f)
  | Uuidv4 k => Uuidv4 (fun u => bind (k u) f)
  end.

(** [try { p } catch (error) { h error }] *)
Fixpoint try_catch {A : Type} (p : Prog A) (h : JsError -> Prog A) : Prog A :=
  match p with
  | Ret a => Ret a
  | Throw e => h e
  | Await s k => Await s (fun o => try_catch (k o) h)
  | Uuidv4 k => Uuidv4 (fun u => try_catch (k u) h)
  end.

(** [await sequelize.query(...)]: a rejected promise is rethrown. *)
Definition await (s : Statement) : Prog (reply s) :=
  Await s (fun o => match o with Resolved r => Ret r | Rejected e => Throw e end).

Definition uuidv4 : Prog string := Uuidv4 Ret.

Declare Scope prog_scope.
Delimit Scope prog_scope with prog.
Notation "x <- p ;; q" := (bind p (fun x => q))
  (at level 61, p at next level, right associativity) : prog_scope.
Local Open Scope prog_scope.

(** [for (const x of l) { ... await f(x) ... }], collecting the results. *)
Fixpoint for_each {A B : Type} (f : A -> Prog B) (l : list A) : Prog (list B) :=
  match l with
  | [] => Ret []
  | x :: rest => y <- f x ;; ys <- for_each f rest ;; Ret (y :: ys)
  end.

(* ================================================================== *)
(** ** Services                                                        *)
(* ================================================================== *)

Module ConversationSummaryService.

(** [semanticSearch(queryEmbedding, limit = 5, similarityThreshold = 0.7)] *)
Definition semanticSearch (queryEmbedding : list number)
    (limit similarityThreshold : number) : Prog (list SemanticSearchResult.t) :=
  await (SummarySemanticSelect queryEmbedding similarityThreshold limit).

(** [updateEmbedding(id, embedding)]: [affected > 0]. *)
Definition updateEmbedding (id : Z) (embedding : list number) : Prog bool :=
  affected <- await (SummaryUpdateEmbedding id embedding) ;;
  Ret (0 <? affected)%nat.

(** [textSearch(searchQuery, limit = 5)] *)
Definition textSearch (searchQuery : string) (limit : number)
    : Prog (list ConversationSummary.t) :=
  await (SummaryFindAllILike ("%" ++ searchQuery ++ "%") limit).

(** What [searchByText] resolves with. *)
Record TextSearchOutcome := {
  query : string;
  results : list SemanticSearchResult.t;
  totalMatches : nat
}.

(** [searchByText(queryText, queryEmbedding, limit = 5, similarityThreshold = 0.7)] *)
Definition searchByText (queryText : string) (queryEmbedding : list number)
    (limit similarityThreshold : number) : Prog TextSearchOutcome :=
  results <- semanticSearch queryEmbedding limit similarityThreshold ;;
  Ret {| query := queryText; results := results;
         totalMatches := List.length results |}.

End ConversationSummaryService.

Module ConversationService.

Definition create (data : CreateConversationDTO) : Prog Conversation.t :=
  await (ConversationCreate data).

(** [findAll(limit = 100, offset = 0)] *)
Definition findAll (limit offset : number) : Prog (list Conversation.t) :=
  await (ConversationFindAll WhereAll DESC (Some limit) (Some offset)).

Definition findByConversationIds (conversationIds : list string)
    : Prog (list Conversation.t) :=
  if (List.length conversationIds =? 0)%nat then Ret []
  else await (ConversationFindAll (WhereConversationIdIn conversationIds) ASC None None).

(** [searchByTopic(searchTerm, limit = 50, offset = 0)] *)
Definition searchByTopic (searchTerm : string) (limit offset : number)
    : Prog (list Conversation.t) :=
  if negb (truthy_string searchTerm) || negb (truthy_string (trim searchTerm))
  then findAll limit offset
  else await (ConversationFindAll
                (WhereContentILike ("%" ++ trim searchTerm ++ "%"))
                DESC (Some limit) (Some offset)).

End ConversationService.

Module SessionService.

Definition create (data : CreateSessionDTO) : Prog Session.t :=
  await (SessionCreate data).

Definition findBySessionId (sessionId : string) : Prog (option Session.t) :=
  await (SessionFindOne sessionId).

(** [sessionIdExists(sessionId)]: [session !== null]. *)
Definition sessionIdExists (sessionId : string) : Prog bool :=
  session <- await (SessionFindOne sessionId) ;;
  Ret (match session with Some _ => true | None => false end).

End SessionService.

(* ================================================================== *)
(** ** MCP tools ([tools/conversationSummary.ts])                      *)
(* ================================================================== *)

Definition getRelevanceLevel (score : number) : string :=
  if ge score (double (9 # 10)) then "very_high"
  else if ge score (double (8 # 10)) then "high"
  else if ge score (double (7 # 10)) then "good"
  else if ge score (double (6 # 10)) then "moderate"
  else "low".

Definition NO_CONTEXT : string :=
  "No historical context found. Treat as new topic.".
Definition STRONG_CONTEXT : string :=
  "Strong historical context found. Reference past discussions in response.".
Definition RELEVANT_CONTEXT : string :=
  "Relevant historical context available. Consider incorporating insights.".
Definition LOOSE_CONTEXT : string :=
  "Some related context found but may not be directly relevant.".

(** [results.reduce((sum, r) => sum + r.similarity_score, 0)] *)
Definition sum_scores (results : list SemanticSearchResult.t) : number :=
  fold_left (fun sum r => add sum (SemanticSearchResult.similarity_score r))
            results (Finite 0).

Definition generateRecommendation (results : list SemanticSearchResult.t) : string :=
  if (List.length results =? 0)%nat then NO_CONTEXT
  else
    let avgScore := div (sum_scores results) (of_nat (List.length results)) in
    if ge avgScore (double (85 # 100)) then STRONG_CONTEXT
    else if ge avgScore (double (7 # 10)) then RELEVANT_CONTEXT
    else LOOSE_CONTEXT.


(** The exact value of a finite number, and the mean similarity score of
    a result list as the policy is described: the sum of the scores over
    their number. *)
Definition value (x : number) : Q :=
  match x with Finite q => q | _ => 0 end.


Definition failure (error : string) : ToolResult :=
  TextResponseBuilder (JsObject [("success", JsBool false); ("error", JsString error)]).

Module searchConversationSummaries.

Record Params := {
  patientMessage : string;
  queryEmbedding : list number;
  limit : option number;
  similarityThreshold : option number;
  includeConversations : option bool
}.

(** An element of [enrichedResults]. *)
Record Enriched := {
  id : Z;
  summaryText : string;
  conversationIds : list string;
  similarityScore : number;
  relevanceLevel : string;
  createdAt : Z;
  conversations : list JsValue
}.

Definition enrich (result : SemanticSearchResult.t) : Enriched :=
  {| id := SemanticSearchResult.id result;
     summaryText := SemanticSearchResult.summary_text result;
     conversationIds := SemanticSearchResult.conversation_ids result;
     similarityScore := toFixed4 (SemanticSearchResult.similarity_score result);
     relevanceLevel := getRelevanceLevel (SemanticSearchResult.similarity_score result);
     createdAt := SemanticSearchResult.created_at result;
     conversations := [] |}.

Definition conversation_view (c : Conversation.t) : JsValue :=
  JsObject [("id", JsNumber (of_Z (Conversation.id c)));
            ("conversationId", JsString (Conversation.conversation_id c));
            ("role", JsString (Conversation.role c));
            ("content", JsString (Conversation.content c));
            ("createdAt", JsDate (Conversation.created_at c))].

(** The body of the loop that fetches the conversations of one summary. *)
Definition attach (result : Enriched) : Prog Enriched :=
  if (0 <? List.length (conversationIds result))%nat then
    convs <- ConversationService.findByConversationIds (conversationIds result) ;;
    Ret {| id := id result;
           summaryText := summaryText result;
           conversationIds := conversationIds result;
           similarityScore := similarityScore result;
           relevanceLevel := relevanceLevel result;
           createdAt := createdAt result;
           conversations := map conversation_view convs |}
  else Ret result.

Definition enriched_view (r : Enriched) : JsValue :=
  JsObject [("id", JsNumber (of_Z (id r)));
            ("summaryText", JsString (summaryText r));
            ("conversationIds", js_strings (conversationIds r));
            ("similarityScore", JsNumber (similarityScore r));
            ("relevanceLevel", JsString (relevanceLevel r));
            ("createdAt", JsDate (createdAt r));
            ("conversations", JsArray (conversations r))].

Definition effectiveLimit (limit : number) : number :=
  Math_min (Math_max (Finite 1) limit) (Finite 20).

Definition effectiveThreshold (similarityThreshold : number) : number :=
  Math_min (Math_max (Finite 0) similarityThreshold) (Finite 1).

(** The response when [searchResults.length === 0]. *)
Definition no_results (patientMessage : string) (similarityThreshold : number)
    : JsValue :=
  JsObject [("success", JsBool true);
            ("query", JsString patientMessage);
            ("message", JsString "No sufficiently similar conversation summaries found");
            ("results", JsArray []);
            ("totalMatches", JsNumber (Finite 0));
            ("suggestion",
             JsString (if gt similarityThreshold (double (5 # 10))
                       then "Try lowering the similarity threshold for broader results"
                       else "This may be a new topic with no historical context"))].

(** The block guarded by [try]. *)
Definition search (patientMessage : string) (queryEmbedding : list number)
    (limit similarityThreshold : number) (includeConversations : bool)
    : Prog ToolResult :=
  searchResults <- ConversationSummaryService.semanticSearch queryEmbedding
                     (effectiveLimit limit) (effectiveThreshold similarityThreshold) ;;
  if (List.length searchResults =? 0)%nat then
    Ret (TextResponseBuilder (no_results patientMessage similarityThreshold))
  else
    enrichedResults <-
      (if includeConversations then for_each attach (map enrich searchResults)
       else Ret (map enrich searchResults)) ;;
    Ret (TextResponseBuilder (JsObject
      [("success", JsBool true);
       ("query", JsString patientMessage);
       ("results", JsArray (map enriched_view enrichedResults));
       ("totalMatches", JsNumber (of_nat (List.length searchResults)));
       ("searchParams", JsObject
          [("limit", JsNumber (effectiveLimit limit));
           ("similarityThreshold", JsNumber (effectiveThreshold similarityThreshold));
           ("includeConversations", JsBool includeConversations)]);
       ("recommendation", JsString (generateRecommendation searchResults))])).

(** The destructuring defaults: [limit = 5], [similarityThreshold = 0.7],
    [includeConversations = false]. *)
Definition limit_of (params : Params) : number :=
  match limit params with Some l => l | None => Finite 5 end.
Definition threshold_of (params : Params) : number :=
  match similarityThreshold params with Some t => t | None => double (7 # 10) end.
Definition include_of (params : Params) : bool :=
  match includeConversations params with Some b => b | None => false end.

(** The inputs that pass the validation of the handler. *)
Definition accepted (params : Params) : bool :=
  truthy_string (trim (patientMessage params))
  && (List.length (queryEmbedding params) =? 1536)%nat.

Definition handler (params : Params) : Prog ToolResult :=
  let limit := limit_of params in
  let similarityThreshold := threshold_of params in
  let includeConversations := include_of params in
  if negb (truthy_string (trim (patientMessage params))) then
    Ret (failure "Patient message is required")
  else if (List.length (queryEmbedding params) =? 0)%nat then
    Ret (failure "Query embedding (array of numbers) is required")
  else if negb (List.length (queryEmbedding params) =? 1536)%nat then
    Ret (failure ("Invalid embedding dimension: expected 1536, got "
                  ++ nat_to_string (List.length (queryEmbedding params))))
  else
    try_catch
      (search (patientMessage params) (queryEmbedding params)
              limit similarityThreshold includeConversations)
      (fun error => Ret (failure ("Search failed: " ++ message error))).

End searchConversationSummaries.

Module textSearchConversationSummaries.

Record Params := { searchQuery : string; limit : option number }.

Definition summary_view (r : ConversationSummary.t) : JsValue :=
  JsObject [("id", JsNumber (of_Z (ConversationSummary.id r)));
            ("summaryText", JsString (ConversationSummary.summary_text r));
            ("conversationIds", js_strings (ConversationSummary.conversation_ids r));
            ("createdAt", JsDate (ConversationSummary.created_at r))].

Definition search (searchQuery : string) (limit : number) : Prog ToolResult :=
  results <- ConversationSummaryService.textSearch searchQuery limit ;;
  Ret (TextResponseBuilder (JsObject
    [("success", JsBool true);
     ("query", JsString searchQuery);
     ("results", JsArray (map summary_view results));
     ("totalMatches", JsNumber (of_nat (List.length results)));
     ("note", JsString "Results are from text matching, not semantic similarity")])).

Definition limit_of (params : Params) : number :=
  match limit params with Some l => l | None => Finite 5 end.

Definition handler (params : Params) : Prog ToolResult :=
  let limit := limit_of params in
  if negb (truthy_string (trim (searchQuery params))) then
    Ret (failure "Search query is required")
  else
    try_catch (search (searchQuery params) limit)
      (fun error => Ret (failure ("Search failed: " ++ message error))).

End textSearchConversationSummaries.

(** [tools/conversations.ts] *)
Module getConversationsList.

Record Params := {
  searchTerm : option string;
  limit : option number;
  offset : option number
}.

Definition conversation_view (c : Conversation.t) : JsValue :=
  JsObject [("id", JsNumber (of_Z (Conversation.id c)));
            ("content", JsString (Conversation.content c));
            ("role", JsString (Conversation.role c));
            ("session_id", JsString (Conversation.session_id c));
            ("user_id", JsNumber (of_Z (Conversation.user_id c)));
            ("conversation_id", JsString (Conversation.conversation_id c));
            ("created_at", JsDate (Conversation.created_at c))].

(** [data] holds the array handed to the TOON encoder. *)
Definition handler (params : Params) : Prog ToolResult :=
  let searchTerm := match searchTerm params with Some s => s | None => "" end in
  let limit := match limit params with Some l => l | None => Finite 50 end in
  let offset := match offset params with Some o => o | None => Finite 0 end in
  try_catch
    (conversations <- ConversationService.searchByTopic searchTerm limit offset ;;
     Ret (TextResponseBuilder (JsObject
       [("success", JsBool true);
        ("searchTerm", JsString (if truthy_string searchTerm then searchTerm else "(all)"));
        ("count", JsNumber (of_nat (List.length conversations)));
        ("data", JsArray (map conversation_view conversations))])))
    (fun error => Ret (failure (message error))).

End getConversationsList.

(* ================================================================== *)
(** ** REST routes                                                     *)
(* ================================================================== *)

Definition error_body (error : string) : JsValue :=
  JsObject [("success", JsBool false); ("error", JsString error)].

(** [routes/conversationSummary.routes.ts] *)
Module SummaryRoutes.

(** [PUT /:id/embedding].  [id] is [parseInt(req.params.id)] ([None] for
    NaN) and [embedding] is [req.body.embedding] ([None] when it is
    missing or not an array). *)
Definition put_embedding (id : option Z) (embedding : option (list number))
    : Prog Response :=
  try_catch
    (match id with
     | None => Ret {| status := 400; body := error_body "Invalid summary ID" |}
     | Some id =>
         match embedding with
         | None =>
             Ret {| status := 400;
                    body := error_body "embedding (array of numbers) is required" |}
         | Some embedding =>
             updated <- ConversationSummaryService.updateEmbedding id embedding ;;
             if negb updated then
               Ret {| status := 404; body := error_body "Summary not found" |}
             else
               Ret {| status := 200;
                      body := JsObject
                        [("success", JsBool true);
                         ("message", JsString "Embedding updated successfully")] |}
         end
     end)
    (fun error => Ret {| status := 500; body := error_body (message error) |}).

(** [req.body] of [POST /semantic-search]: [query_embedding] is [None]
    when it is missing or not an array; the other fields are [None] when
    they are absent. *)
Record SemanticSearchBody := {
  query_embedding : option (list number);
  query_text : option string;
  limit : option number;
  similarity_threshold : option number
}.

Definition result_json (r : SemanticSearchResult.t) : JsValue :=
  JsObject [("id", JsNumber (of_Z (SemanticSearchResult.id r)));
            ("summary_text", JsString (SemanticSearchResult.summary_text r));
            ("conversation_ids", js_strings (SemanticSearchResult.conversation_ids r));
            ("similarity_score", JsNumber (SemanticSearchResult.similarity_score r));
            ("created_at", JsDate (SemanticSearchResult.created_at r))].

(** The destructuring defaults: [limit = 5], [similarity_threshold = 0.7];
    and [query_text || ""]. *)
Definition limit_of (req : SemanticSearchBody) : number :=
  match limit req with Some l => l | None => Finite 5 end.
Definition threshold_of (req : SemanticSearchBody) : number :=
  match similarity_threshold req with Some t => t | None => double (7 # 10) end.
Definition text_of (req : SemanticSearchBody) : string :=
  match query_text req with
  | Some t => if truthy_string t then t else ""
  | None => ""
  end.

(** [POST /semantic-search] *)
Definition semantic_search (req : SemanticSearchBody) : Prog Response :=
  let limit := limit_of req in
  let similarity_threshold := threshold_of req in
  try_catch
    (match query_embedding req with
     | None =>
         Ret {| status := 400;
                body := error_body "query_embedding (array of numbers) is required" |}
     | Some query_embedding =>
         found <- ConversationSummaryService.searchByText
                    (text_of req) query_embedding limit similarity_threshold ;;
         Ret {| status := 200;
                body := JsObject
                  [("success", JsBool true);
                   ("data", JsObject
                      [("query", JsString (ConversationSummaryService.query found));
                       ("results",
                        JsArray (map result_json
                                   (ConversationSummaryService.results found)));
                       ("totalMatches",
                        JsNumber (of_nat (
                          (ConversationSummaryService.totalMatches found))))])] |}
     end)
    (fun error => Ret {| status := 500; body := error_body (message error) |}).

(** The rows [textSearch] selects: id, summary_text, conversation_ids,
    created_at, updated_at. *)
Definition summary_json (r : ConversationSummary.t) : JsValue :=
  JsObject [("id", JsNumber (of_Z (ConversationSummary.id r)));
            ("summary_text", JsString (ConversationSummary.summary_text r));
            ("conversation_ids", js_strings (ConversationSummary.conversation_ids r));
            ("created_at", JsDate (ConversationSummary.created_at r));
            ("updated_at", JsDate (ConversationSummary.updated_at r))].

(** [POST /text-search]; [query] is the empty string when it is absent. *)
Definition text_search (query : string) (limit : option number) : Prog Response :=
  let limit := match limit with Some l => l | None => Finite 5 end in
  try_catch
    (if negb (truthy_string query) then
       Ret {| status := 400; body := error_body "query string is required" |}
     else
       found <- ConversationSummaryService.textSearch query limit ;;
       Ret {| status := 200;
              body := JsObject
                [("success", JsBool true);
                 ("data", JsArray (map summary_json found));
                 ("count", JsNumber (of_nat (List.length found)))] |})
    (fun error => Ret {| status := 500; body := error_body (message error) |}).

End SummaryRoutes.

(** [routes/session.routes.ts] *)
Module SessionRoutes.

(** [req.body] of [POST /]; an absent [user_id] or [session_id] reads as
    [0] or the empty string. *)
Record SessionBody := {
  title : option string;
  user_id : Z;
  session_id : string
}.

Definition session_json (s : Session.t) : JsValue :=
  JsObject [("id", JsNumber (of_Z (Session.id s)));
            ("title", match Session.title s with
                      | Some t => JsString t
                      | None => JsNull
                      end);
            ("user_id", JsNumber (of_Z (Session.user_id s)));
            ("session_id", JsString (Session.session_id s));
            ("created_at", JsDate (Session.created_at s));
            ("updated_at", JsDate (Session.updated_at s))].

Definition found (s : Session.t) (status_ : nat) : Response :=
  {| status := status_;
     body := JsObject [("success", JsBool true); ("data", session_json s)] |}.

(** [POST /api/sessions] *)
Definition post_session (req : SessionBody) : Prog Response :=
  try_catch
    (if negb (negb (user_id req =? 0)%Z && truthy_string (session_id req)) then
       Ret {| status := 400; body := error_body "user_id and session_id are required" |}
     else
       (* Check if session_id already exists *)
       taken <- SessionService.sessionIdExists (session_id req) ;;
       if taken then
         Ret {| status := 409; body := error_body "Session ID already exists" |}
       else
         session <- SessionService.create
                      {| cs_title := title req;
                         cs_user_id := user_id req;
                         cs_session_id := session_id req |} ;;
         Ret (found session 201))
    (fun error => Ret {| status := 500; body := error_body (message error) |}).

(** [GET /api/sessions/by-session-id/:sessionId] *)
Definition get_by_session_id (sessionId : string) : Prog Response :=
  try_catch
    (session <- SessionService.findBySessionId sessionId ;;
     match session with
     | None => Ret {| status := 404; body := error_body "Session not found" |}
     | Some session => Ret (found session 200)
     end)
    (fun error => Ret {| status := 500; body := error_body (message error) |}).

End SessionRoutes.

(** [routes/chat.routes.ts] *)
Module ChatRoutes.

(** [req.body] of [POST /message]; an absent field reads as [0] or the
    empty string, which are falsy like [undefined]. *)
Record MessageBody := {
  user_id : Z;
  session_id : string;
  content : string;
  role : string
}.

Definition conversation_json (c : Conversation.t) : JsValue :=
  JsObject [("id", JsNumber (of_Z (Conversation.id c)));
            ("content", JsString (Conversation.content c));
            ("user_id", JsNumber (of_Z (Conversation.user_id c)));
            ("session_id", JsString (Conversation.session_id c));
            ("conversation_id", JsString (Conversation.conversation_id c));
            ("role", JsString (Conversation.role c));
            ("created_at", JsDate (Conversation.created_at c));
            ("updated_at", JsDate (Conversation.updated_at c))].

Definition on_error (error : JsError) : Prog Response :=
  Ret {| status := 500; body := error_body (message error) |}.

(** "Check if session exists, create if not": what follows the lookup. *)
Definition ensure_session (req : MessageBody) (found : option Session.t)
    : Prog Session.t :=
  match found with
  | Some session => Ret session
  | None =>
      SessionService.create
        {| cs_title := None;
           cs_user_id := user_id req;
           cs_session_id := session_id req |}
  end.

(** "Create conversation entry" and the 201 response. *)
Definition append_turn (req : MessageBody) : Prog Response :=
  fresh <- uuidv4 ;;
  conversation <- ConversationService.create
                    {| cc_content := content req;
                       cc_user_id := user_id req;
                       cc_session_id := session_id req;
                       cc_conversation_id := fresh;
                       cc_role := role req |} ;;
  Ret {| status := 201;
         body := JsObject [("success", JsBool true);
                           ("data", conversation_json conversation)] |}.

(** The requests that pass the validation of [POST /message]. *)
Definition valid_message (req : MessageBody) : bool :=
  negb (user_id req =? 0)%Z && truthy_string (session_id req)
  && truthy_string (content req) && truthy_string (role req)
  && is_role (role req).

(** [POST /message] *)
Definition post_message (req : MessageBody) : Prog Response :=
  try_catch
    (if negb (negb (user_id req =? 0)%Z && truthy_string (session_id req)
              && truthy_string (content req) && truthy_string (role req)) then
       Ret {| status := 400;
              body := error_body "user_id, session_id, content, and role are required" |}
     else if negb (is_role (role req)) then
       Ret {| status := 400;
              body := error_body "role must be one of: user, assistant, system" |}
     else
       found <- SessionService.findBySessionId (session_id req) ;;
       _ <- ensure_session req found ;;
       append_turn req)
    on_error.

(** The call after its lookup found no session, and after the session is
    known to exist. *)
Definition create_then_append (req : MessageBody) : Prog Response :=
  try_catch (_ <- ensure_session req None ;; append_turn req) on_error.

Definition append_only (req : MessageBody) : Prog Response :=
  try_catch (append_turn req) on_error.

End ChatRoutes.

(* ================================================================== *)
(** ** The record store                                                *)
(* ================================================================== *)

Record Database := {
  users : list User.t;
  sessions : list Session.t;
  conversations : list Conversation.t;
  conversations_summary : list ConversationSummary.t;
  sessions_id_seq : Z;
  conversations_id_seq : Z
}.

Record World := {
  db : Database;
  clock : Z;                       (* NOW() *)
  uuid_seq : nat;                  (* what uuidv4() draws from *)
  faults : list (option string);   (* per coming statement: the connection error it meets *)
  journal : list Statement         (* statements received, the latest first *)
}.

(** [ORDER BY]: a stable insertion sort; rows with equal keys keep the
    order of the scan. *)
Fixpoint insert_by {A : Type} (le : A -> A -> bool) (x : A) (l : list A) : list A :=
  match l with
  | [] => [x]
  | y :: l' => if le x y then x :: l else y :: insert_by le x l'
  end.

Definition order_by {A : Type} (le : A -> A -> bool) (l : list A) : list A :=
  fold_right (insert_by le) [] l.

(** The first error of a list of checks, in the order the store makes
    them. *)
Fixpoint first_error (checks : list (option PgError)) : option PgError :=
  match checks with
  | [] => None
  | Some e :: _ => Some e
  | None :: rest => first_error rest
  end.

(** A number written into the text of a statement ([val.toString()]).
    NaN and the infinities read as column names, which no table has. *)
Definition undefined_column (n : number) : option PgError :=
  match n with
  | NaN => Some (UndefinedColumn "nan")
  | Infinity _ => Some (UndefinedColumn "infinity")
  | Finite _ => None
  end.

(** The row count of [LIMIT n] / [OFFSET n]: the literal coerced to
    bigint, that is rounded to the nearest integer, which must lie below
    2^63 in absolute value (for a double at or above 2^53 the digits
    [toString] prints may denote another integer than the double; both
    exceed the number of rows of any table). *)
Definition bigint (n : number) : Z :=
  match n with Finite q => round_half_away q | _ => 0%Z end.

Definition out_of_range (n : number) : option PgError :=
  if ((bigint n <? - 2 ^ 63) || (2 ^ 63 <=? bigint n))%Z
  then Some BigintOutOfRange else None.

Definition negative (e : PgError) (n : number) : option PgError :=
  if (bigint n <? 0)%Z then Some e else None.

Definition rows_of (n : number) : nat := Z.to_nat (bigint n).

(** The three checks of a [LIMIT]: when the statement is analysed, when
    it is planned, and when it is executed. *)
Definition sql_limit (n : number) : Outcome nat :=
  match first_error [undefined_column n; out_of_range n; negative NegativeLimit n] with
  | Some e => Rejected (DatabaseError e)
  | None => Resolved (rows_of n)
  end.

Definition sql_offset (n : number) : Outcome nat :=
  match first_error [undefined_column n; out_of_range n; negative NegativeOffset n] with
  | Some e => Rejected (DatabaseError e)
  | None => Resolved (rows_of n)
  end.

(** [LIMIT] and [OFFSET] of a [findAll]: absent, or a number.  The
    offset is looked at before the limit at each of the three stages. *)
Definition window_checks (limit offset : option number) : list (option PgError) :=
  let on (check : number -> option PgError) (n : option number) :=
    match n with Some n => check n | None => None end in
  [on undefined_column offset; on undefined_column limit;
   on out_of_range offset; on out_of_range limit;
   on (negative NegativeOffset) offset; on (negative NegativeLimit) limit].

Definition window {A : Type} (limit offset : option number) (rows : list A)
    : Outcome (list A) :=
  match first_error (window_checks limit offset) with
  | Some e => Rejected (DatabaseError e)
  | None =>
      let rest := match offset with Some o => skipn (rows_of o) rows | None => rows end in
      Resolved (match limit with Some l => firstn (rows_of l) rest | None => rest end)
  end.

Definition by_created_at (o : Order) (a b : Conversation.t) : bool :=
  match o with
  | ASC => (Conversation.created_at a <=? Conversation.created_at b)%Z
  | DESC => (Conversation.created_at b <=? Conversation.created_at a)%Z
  end.

(** PostgreSQL orders [double precision] values with NaN equal to itself
    and above every other value. *)
Definition float8_le (a b : number) : bool :=
  match compare a b with
  | Some Gt => false
  | Some _ => true
  | None => is_nan b
  end.

Definition float8_ge (a b : number) : bool := float8_le b a.

(** A row of the semantic select: [1 - (summary_embedding <=> :embedding)
    AS similarity_score] (the difference of 1 and a double does not
    overflow). *)
Definition to_result (scored : ConversationSummary.t * number)
    : SemanticSearchResult.t :=
  {| SemanticSearchResult.id := ConversationSummary.id (fst scored);
     SemanticSearchResult.summary_text := ConversationSummary.summary_text (fst scored);
     SemanticSearchResult.conversation_ids :=
       ConversationSummary.conversation_ids (fst scored);
     SemanticSearchResult.similarity_score := sub (Finite 1) (snd scored);
     SemanticSearchResult.created_at := ConversationSummary.created_at (fst scored) |}.

Definition session_exists (key : string) (d : Database) : bool :=
  existsb (fun s => String.eqb (Session.session_id s) key) (sessions d).

Definition user_exists (uid : Z) (d : Database) : bool :=
  existsb (fun u => (User.id u =? uid)%Z) (users d).

(** A text value the store takes: it holds no NUL; and one that fits a
    column [character varying(n)]. *)
Definition is_text (s : string) : bool := negb (has_nul s).

Definition fits (n : nat) (s : string) : bool := (char_length s <=? n)%nat.

Definition optional (check : string -> bool) (s : option string) : bool :=
  match s with Some s => check s | None => true end.

(** [INSERT INTO sessions]: [title] and [session_id] are
    [character varying(255)], [session_id] is unique, [user_id]
    references [users].  A value that is no text is refused when the
    statement is bound; from then on the sequence has advanced, whether
    the row is kept or not. *)
Definition session_create (now : Z) (dto : CreateSessionDTO) (d : Database)
    : Outcome Session.t * Database :=
  let row := {| Session.id := sessions_id_seq d;
                Session.title := cs_title dto;
                Session.user_id := cs_user_id dto;
                Session.session_id := cs_session_id dto;
                Session.created_at := now;
                Session.updated_at := now |} in
  let drawn rows := {| users := users d; sessions := rows;
                       conversations := conversations d;
                       conversations_summary := conversations_summary d;
                       sessions_id_seq := (sessions_id_seq d + 1)%Z;
                       conversations_id_seq := conversations_id_seq d |} in
  if negb (optional is_text (cs_title dto) && is_text (cs_session_id dto)) then
    (Rejected (DatabaseError InvalidByteSequence), d)
  else if negb (optional (fits 255) (cs_title dto) && fits 255 (cs_session_id dto)) then
    (Rejected (DatabaseError (StringTooLong 255)), drawn (sessions d))
  else if session_exists (cs_session_id dto) d then
    (Rejected (UniqueConstraintError "sessions" "session_id"), drawn (sessions d))
  else if negb (user_exists (cs_user_id dto) d) then
    (Rejected (ForeignKeyConstraintError "sessions" "user_id"), drawn (sessions d))
  else (Resolved row, drawn (sessions d ++ [row])).

(** [INSERT INTO conversations]: [role] is an enum, [content] is text,
    [session_id] and [conversation_id] are [character varying(255)],
    [user_id] references [users] and [session_id] references
    [sessions]. *)
Definition conversation_create (now : Z) (dto : CreateConversationDTO) (d : Database)
    : Outcome Conversation.t * Database :=
  let row := {| Conversation.id := conversations_id_seq d;
                Conversation.content := cc_content dto;
                Conversation.user_id := cc_user_id dto;
                Conversation.session_id := cc_session_id dto;
                Conversation.conversation_id := cc_conversation_id dto;
                Conversation.role := cc_role dto;
                Conversation.created_at := now;
                Conversation.updated_at := now |} in
  let drawn rows := {| users := users d; sessions := sessions d;
                       conversations := rows;
                       conversations_summary := conversations_summary d;
                       sessions_id_seq := sessions_id_seq d;
                       conversations_id_seq := (conversations_id_seq d + 1)%Z |} in
  if negb (is_text (cc_content dto) && is_text (cc_session_id dto)
           && is_text (cc_conversation_id dto)) then
    (Rejected (DatabaseError InvalidByteSequence), d)
  else if negb (is_role (cc_role dto)) then
    (Rejected (DatabaseError
       (InvalidEnumValue "enum_conversations_role" (cc_role dto))), d)
  else if negb (fits 255 (cc_session_id dto) && fits 255 (cc_conversation_id dto)) then
    (Rejected (DatabaseError (StringTooLong 255)), drawn (conversations d))
  else if negb (user_exists (cc_user_id dto) d) then
    (Rejected (ForeignKeyConstraintError "conversations" "user_id"),
     drawn (conversations d))
  else if negb (session_exists (cc_session_id dto) d) then
    (Rejected (ForeignKeyConstraintError "conversations" "session_id"),
     drawn (conversations d))
  else (Resolved row, drawn (conversations d ++ [row])).

(** [UPDATE conversations_summary SET summary_embedding = ..., updated_at =
    NOW() WHERE id = :id], once the vector is read. *)
Definition set_embedding (now : Z) (id : Z) (embedding : list number)
    (r : ConversationSummary.t) : ConversationSummary.t :=
  if (ConversationSummary.id r =? id)%Z then
    {| ConversationSummary.id := ConversationSummary.id r;
       ConversationSummary.summary_text := ConversationSummary.summary_text r;
       ConversationSummary.conversation_ids := ConversationSummary.conversation_ids r;
       ConversationSummary.summary_embedding := Some embedding;
       ConversationSummary.created_at := ConversationSummary.created_at r;
       ConversationSummary.updated_at := now |}
  else r.

(** The attributes selected by [textSearch] leave the embedding out. *)
Definition without_embedding (r : ConversationSummary.t) : ConversationSummary.t :=
  {| ConversationSummary.id := ConversationSummary.id r;
     ConversationSummary.summary_text := ConversationSummary.summary_text r;
     ConversationSummary.conversation_ids := ConversationSummary.conversation_ids r;
     ConversationSummary.summary_embedding := None;
     ConversationSummary.created_at := ConversationSummary.created_at r;
     ConversationSummary.updated_at := ConversationSummary.updated_at r |}.

(** [uuidv4()]: 36 characters, 32 of them hexadecimal digits.  The
    digits that are drawn at random are taken from a counter. *)
Definition hex_digit (n : N) : ascii :=
  nth (N.to_nat n)
      ["0"; "1"; "2"; "3"; "4"; "5"; "6"; "7";
       "8"; "9"; "a"; "b"; "c"; "d"; "e"; "f"]%char "0"%char.

Fixpoint hex (width : nat) (n : N) : string :=
  match width with
  | O => EmptyString
  | S k => hex k (n / 16) ++ String (hex_digit (n mod 16)) EmptyString
  end.

Definition uuid_of (n : nat) : string :=
  hex 8 (N.of_nat n / 2 ^ 16) ++ "-" ++ hex 4 (N.of_nat n) ++ "-4000-8000-000000000000".

Definition fresh_uuid (w : World) : string * World :=
  (uuid_of (uuid_seq w),
   {| db := db w; clock := clock w; uuid_seq := S (uuid_seq w);
      faults := faults w; journal := journal w |}).

(* ================================================================== *)
(** ** Predicates on replies, statements and programs                  *)
(* ================================================================== *)

(** A tool result that reports its outcome: [success: true], or
    [success: false] with an [error] message. *)
Definition reports (r : ToolResult) : bool :=
  match field "success" (payload r) with
  | Some (JsBool true) => true
  | Some (JsBool false) =>
      match field "error" (payload r) with
      | Some (JsString _) => true
      | _ => false
      end
  | _ => false
  end.


(** A value clamped into [[lo, hi]], as the design has it. *)
Definition clamp (lo hi x : number) : number :=
  if lt x lo then lo else if gt x hi then hi else x.

(** [lo <= x <= hi] *)
Definition within (lo hi x : number) : bool := le lo x && le x hi.


(** Where a [POST /message] call stands: before its lookup; before its
    session insert; before its conversation insert; answered 201;
    answered 500 for the uniqueness of the session key.  The flag tells
    whether the call has inserted the session itself ([true]) or has
    found it ([false]). *)
Inductive Stage :=
| Lookup
| Create
| Append (inserted : bool)
| Appended (inserted : bool)
| Refused.

(** The session rows that carry the key. *)
Definition sessions_with (key : string) (d : Database) : list Session.t :=
  filter (fun s => String.eqb (Session.session_id s) key) (sessions d).

(** The session inserts for the key among statements, and whether one of
    the statements (the latest first) is a lookup of the key that was
    sent after an insert for it. *)
Definition inserts_key (key : string) (s : Statement) : bool :=
  match s with
  | SessionCreate dto => String.eqb (cs_session_id dto) key
  | _ => false
  end.

Definition session_inserts (key : string) (sent : list Statement) : nat :=
  List.length (filter (inserts_key key) sent).

Fixpoint lookup_after_insert (key : string) (sent : list Statement) : bool :=
  match sent with
  | [] => false
  | s :: earlier =>
      match s with
      | SessionFindOne k => String.eqb k key && existsb (inserts_key key) earlier
      | _ => false
      end
      || lookup_after_insert key earlier
  end.

(** The world once a reachable store has taken the statement [s] and
    left the database [d]. *)
Definition ticked (s : Statement) (d : Database) (w : World) : World :=
  {| db := d; clock := (clock w + 1)%Z; uuid_seq := uuid_seq w;
     faults := []; journal := s :: journal w |}.

(** The rows [POST /message] inserts, its 201 response, and its 500
    response to a failure. *)
Definition session_dto (req : ChatRoutes.MessageBody) : CreateSessionDTO :=
  {| cs_title := None;
     cs_user_id := ChatRoutes.user_id req;
     cs_session_id := ChatRoutes.session_id req |}.

Definition conversation_dto (req : ChatRoutes.MessageBody) (fresh : string)
    : CreateConversationDTO :=
  {| cc_content := ChatRoutes.content req;
     cc_user_id := ChatRoutes.user_id req;
     cc_session_id := ChatRoutes.session_id req;
     cc_conversation_id := fresh;
     cc_role := ChatRoutes.role req |}.

Definition created (conversation : Conversation.t) : Response :=
  {| status := 201;
     body := JsObject [("success", JsBool true);
                       ("data", ChatRoutes.conversation_json conversation)] |}.

Definition refused (error : string) : Response :=
  {| status := 500; body := error_body error |}.

(** The texts of a request that the store takes: a content without NUL,
    a session key without NUL and of at most 255 characters. *)
Definition storable (req : ChatRoutes.MessageBody) : bool :=
  is_text (ChatRoutes.content req) && is_text (ChatRoutes.session_id req)
  && fits 255 (ChatRoutes.session_id req).

Definition at_stage (req : ChatRoutes.MessageBody) (st : Stage)
    (p : Prog Response) : Prop :=
  match st with
  | Lookup => p = ChatRoutes.post_message req
  | Create => p = ChatRoutes.create_then_append req
  | Append _ => p = ChatRoutes.append_only req
  | Appended _ => exists row, p = Ret (created row)
  | Refused => p = Ret (refused "Validation error")
  end.

Definition past_lookup (st : Stage) : bool :=
  match st with Append _ | Appended _ | Refused => true | _ => false end.

Definition will_append (st : Stage) : bool :=
  match st with Append _ | Appended _ => true | _ => false end.

Definition turns (st : Stage) : nat :=
  match st with Appended _ => 1 | _ => 0 end.

Definition remaining (st : Stage) : nat :=
  match st with Lookup => 3 | Create => 2 | Append _ => 1 | _ => 0 end.

(** Whether the call has sent its session insert, whether that insert
    was kept, and whether its lookup found the session. *)
Definition has_sent (st : Stage) : nat :=
  match st with Append true | Appended true | Refused => 1 | _ => 0 end.

Definition has_inserted (st : Stage) : nat :=
  match st with Append true | Appended true => 1 | _ => 0 end.

Definition has_found (st : Stage) : bool :=
  match st with Append false | Appended false => true | _ => false end.

(** What holds of the store while two calls for the key [key], by the
    users [ua] and [ub], stand at the stages [sa] and [sb]; [base] is the
    number of conversations before the calls, [before] is the journal
    before the calls, and [sent] are the statements the two calls have
    sent so far, the latest first. *)
Definition race_invariant (key : string) (ua ub : Z) (base : nat)
    (before : list Statement) (sa sb : Stage) (w : World) : Prop :=
  faults w = [] /\
  user_exists ua (db w) = true /\
  user_exists ub (db w) = true /\
  (past_lookup sa || past_lookup sb = true -> session_exists key (db w) = true) /\
  (session_exists key (db w) = true -> will_append sa || will_append sb = true) /\
  List.length (conversations (db w)) = (base + turns sa + turns sb)%nat /\
  List.length (sessions_with key (db w)) = (has_inserted sa + has_inserted sb)%nat /\
  (List.length (sessions_with key (db w)) <= 1)%nat /\
  exists sent,
    journal w = sent ++ before /\
    session_exists key (db w) = existsb (inserts_key key) sent /\
    session_inserts key sent = (has_sent sa + has_sent sb)%nat /\
    lookup_after_insert key sent = has_found sa || has_found sb.

(** The two answers of [POST /message] to a valid request on a reachable
    store: 201 with the conversation it appended, or 500 for the
    uniqueness of the session key. *)
Definition answered (r : Response) : Prop :=
  (exists row, r = created row) \/ r = refused "Validation error".

(** The rank of a number that is not NaN among the rationals and the two
    infinities. *)
Definition below (a b : number) : Prop :=
  match a, b with
  | NaN, _ | _, NaN => False
  | Infinity true, _ => True
  | _, Infinity false => True
  | Finite p, Finite q => p <= q
  | _, _ => False
  end.

(** The order of the scores in a ranked result: [a] comes before [b] when
    [a >= b], or when [b] is NaN. *)
Definition ranked (a b : number) : Prop := ge a b = true \/ is_nan b = true.

(** The statements that only read. *)
Definition read_only (s : Statement) : Prop :=
  match s with
  | SummarySemanticSelect _ _ _ => True
  | SummaryFindAllILike _ _ => True
  | ConversationFindAll _ _ _ _ => True
  | SessionFindOne _ => True
  | _ => False
  end.

(** The journal of [w'] is the journal of [w] with at most [n] statements
    put before it. *)
Definition grows (n : nat) (w w' : World) : Prop :=
  exists sent, journal w' = sent ++ journal w /\ (List.length sent <= n)%nat.

(** Every stored embedding has the dimension of the column. *)
Definition embeddings_fit (d : Database) : Prop :=
  forall r e,
    In r (conversations_summary d) ->
    ConversationSummary.summary_embedding r = Some e ->
    List.length e = ConversationSummary.DIMENSION.

(** The relevance levels, from the weakest to the strongest. *)
Definition level_rank (level : string) : nat :=
  if String.eqb level "very_high" then 4
  else if String.eqb level "high" then 3
  else if String.eqb level "good" then 2
  else if String.eqb level "moderate" then 1
  else 0.

(** Every statement the program may await satisfies [P]. *)
Inductive issues_only (P : Statement -> Prop) {A : Type} : Prog A -> Prop :=
| io_ret (a : A) : issues_only P (Ret a)
| io_throw (e : JsError) : issues_only P (Throw e)
| io_await (s : Statement) (k : Outcome (reply s) -> Prog A) :
    P s -> (forall o, issues_only P (k o)) -> issues_only P (Await s k)
| io_uuid (k : string -> Prog A) :
    (forall u, issues_only P (k u)) -> issues_only P (Uuidv4 k).

(* ================================================================== *)
(** ** Sample operators, vectors and worlds                            *)
(* ================================================================== *)

(** A cosine distance for vectors that have at most one non-zero
    coordinate each: on such a vector the Euclidean norm is the sum of
    the absolute values.  The distance from or to a zero vector is NaN
    (0 / 0), as with pgvector. *)
Definition dot (a b : list number) : Q :=
  fold_right Qplus 0 (map (fun p => value (fst p) * value (snd p)) (combine a b)).

Definition norm1 (a : list number) : Q :=
  fold_right Qplus 0 (map (fun x => Qabs (value x)) a).

Definition axis_cosine_distance (a b : list number) : number :=
  sub (Finite 1) (div (Finite (dot a b)) (Finite (norm1 a * norm1 b))).

(** Reading a vector element as pgvector does: NaN and the infinities are
    not allowed, a finite number is rounded to single precision and must
    not overflow.  (The store rounds the decimal digits the code prints;
    the two agree unless the number lies exactly halfway between two
    single-precision values.  Its message for an element out of range
    starts with the digits.) *)
Definition single : Q -> number := binary_round 24 (-149) 128.

Definition single_precision (x : number) : string + number :=
  match x with
  | NaN => inl "NaN not allowed in vector"
  | Infinity _ => inl "infinite value not allowed in vector"
  | Finite q =>
      match single q with
      | Finite r => inr (Finite r)
      | _ => inl "out of range for type vector"
      end
  end.

Definition lower (c : ascii) : ascii :=
  let n := nat_of_ascii c in
  if ((65 <=? n) && (n <=? 90))%nat then ascii_of_nat (n + 32) else c.

Fixpoint lowercase (s : string) : string :=
  match s with
  | EmptyString => EmptyString
  | String c s' => String (lower c) (lowercase s')
  end.

Fixpoint contains (needle text : string) : bool :=
  prefix needle text ||
  match text with
  | EmptyString => false
  | String _ rest => contains needle rest
  end.

(** [text ILIKE pattern] for a pattern ['%' ++ literal ++ '%'] whose
    literal holds no wildcard. *)
Definition ilike_contains (text pattern : string) : bool :=
  contains (lowercase (substring 1 (String.length pattern - 2) pattern))
           (lowercase text).

(** The 1536-dimensional vector whose [i]-th coordinate is [x]. *)
Definition axis (i : nat) (x : Q) : list number :=
  repeat (Finite 0) i ++ [Finite x] ++ repeat (Finite 0) (1535 - i).

Definition world_of (d : Database) : World :=
  {| db := d; clock := 1000; uuid_seq := 0; faults := []; journal := [] |}.

Definition summary (id : Z) (text : string) (ids : list string)
    (embedding : option (list number)) (created : Z) : ConversationSummary.t :=
  {| ConversationSummary.id := id;
     ConversationSummary.summary_text := text;
     ConversationSummary.conversation_ids := ids;
     ConversationSummary.summary_embedding := embedding;
     ConversationSummary.created_at := created;
     ConversationSummary.updated_at := created |}.

Definition summaries_only (rows : list ConversationSummary.t) : Database :=
  {| users := []; sessions := []; conversations := [];
     conversations_summary := rows;
     sessions_id_seq := 1; conversations_id_seq := 1 |}.

(** Two summaries with the same embedding, the older one first in the
    table. *)
Definition tie_world : World :=
  world_of (summaries_only
    [summary 1 "older" ["c1"] (Some (axis 0 1)) 100;
     summary 2 "newer" ["c2"] (Some (axis 0 1)) 200]).

(** A summary along the query, one orthogonal to it, one without
    embedding. *)
Definition mixed_world : World :=
  world_of (summaries_only
    [summary 1 "along" ["c1"] (Some (axis 0 1)) 100;
     summary 2 "across" [] (Some (axis 1 1)) 200;
     summary 3 "bare" [] None 300]).

Definition empty_world : World := world_of (summaries_only []).

(** A store whose next statement meets a connection error. *)
Definition down_world : World :=
  {| db := summaries_only []; clock := 1000; uuid_seq := 0;
     faults := [Some "connect ECONNREFUSED"]; journal := [] |}.

Definition search_params (message : string) (embedding : list number)
    (limit threshold : option number) : searchConversationSummaries.Params :=
  {| searchConversationSummaries.patientMessage := message;
     searchConversationSummaries.queryEmbedding := embedding;
     searchConversationSummaries.limit := limit;
     searchConversationSummaries.similarityThreshold := threshold;
     searchConversationSummaries.includeConversations := None |}.

(** What the search returns for the first two summaries of
    [mixed_world] when the query is [axis 0 1]. *)
Definition along_result : SemanticSearchResult.t :=
  {| SemanticSearchResult.id := 1;
     SemanticSearchResult.summary_text := "along";
     SemanticSearchResult.conversation_ids := ["c1"];
     SemanticSearchResult.similarity_score := Finite 1;
     SemanticSearchResult.created_at := 100 |}.

Definition across_result : SemanticSearchResult.t :=
  {| SemanticSearchResult.id := 2;
     SemanticSearchResult.summary_text := "across";
     SemanticSearchResult.conversation_ids := [];
     SemanticSearchResult.similarity_score := Finite 0;
     SemanticSearchResult.created_at := 200 |}.


Definition turn (id : Z) (text : string) (created : Z) : Conversation.t :=
  {| Conversation.id := id;
     Conversation.content := text;
     Conversation.user_id := 7;
     Conversation.session_id := "abc";
     Conversation.conversation_id := text;
     Conversation.role := "user";
     Conversation.created_at := created;
     Conversation.updated_at := created |}.

(** User 7 and no session. *)
Definition chat_world : World :=
  world_of {| users := [ {| User.id := 7; User.email := "a@b.c";
                            User.password := "x"; User.fullname := "A" |} ];
              sessions := []; conversations := []; conversations_summary := [];
              sessions_id_seq := 1; conversations_id_seq := 1 |}.

(** The same user with a session "abc" that holds two turns. *)
Definition history_world : World :=
  world_of {| users := users (db chat_world);
              sessions := [ {| Session.id := 1; Session.title := None;
                               Session.user_id := 7; Session.session_id := "abc";
                               Session.created_at := 10; Session.updated_at := 10 |} ];
              conversations := [turn 1 "first" 100; turn 2 "second" 200];
              conversations_summary := [];
              sessions_id_seq := 2; conversations_id_seq := 3 |}.

Definition hi : ChatRoutes.MessageBody :=
  {| ChatRoutes.user_id := 7; ChatRoutes.session_id := "abc";
     ChatRoutes.content := "hi"; ChatRoutes.role := "user" |}.

Definition new_session : SessionRoutes.SessionBody :=
  {| SessionRoutes.title := Some "Monday";
     SessionRoutes.user_id := 7;
     SessionRoutes.session_id := "abc" |}.






(** The object a tool call resolved with ([JsNull] if it rejected). *)
Definition reply_of (o : Outcome ToolResult * World) : JsValue :=
  match fst o with
  | Resolved r => payload r
  | Rejected _ => JsNull
  end.

Definition response_of (o : Outcome Response) : option Response :=
  match o with
  | Resolved r => Some r
  | Rejected _ => None
  end.

(* ================================================================== *)
(** ** Executing statements and programs                               *)
(* ================================================================== *)

Section Store.

(** pgvector's [a <=> b] (cosine distance); PostgreSQL's
    [text ILIKE pattern]; and pgvector's reading of one element of
    ['[x1,...,xn]'::vector], given as the number [xi] whose digits the
    code has written: its single-precision value, or the message of the
    error it raises. *)
Variable cosine_distance : list number -> list number -> number.
Variable ilike : string -> string -> bool.
Variable float4_in : number -> string + number.

(** ['[x1,...,xn]'::vector]: the elements are read one after the other,
    16000 at most, and there must be one at least. *)
Fixpoint elements_in (room : N) (xs : list number) : Outcome (list number) :=
  match xs with
  | [] => Resolved []
  | x :: rest =>
      if (room =? 0)%N then Rejected (DatabaseError VectorTooLong)
      else
        match float4_in x with
        | inl msg => Rejected (DatabaseError (VectorElement msg))
        | inr y =>
            match elements_in (room - 1) rest with
            | Resolved ys => Resolved (y :: ys)
            | Rejected err => Rejected err
            end
        end
  end.

Definition vector_in (xs : list number) : Outcome (list number) :=
  match elements_in 16000 xs with
  | Rejected err => Rejected err
  | Resolved v =>
      if (List.length v =? 0)%nat then Rejected (DatabaseError VectorEmpty)
      else Resolved v
  end.

(** An element that the vector type takes. *)
Definition readable (x : number) : bool :=
  match float4_in x with inr _ => true | inl _ => false end.

(** The rows whose embedding is not null, each with its distance to the
    query; [<=>] fails on vectors of different dimensions. *)
Fixpoint distances (query : list number) (rows : list ConversationSummary.t)
    : Outcome (list (ConversationSummary.t * number)) :=
  match rows with
  | [] => Resolved []
  | r :: rest =>
      match ConversationSummary.summary_embedding r with
      | None => distances query rest
      | Some e =>
          if (List.length e =? List.length query)%nat then
            match distances query rest with
            | Resolved scored => Resolved ((r, cosine_distance e query) :: scored)
            | Rejected err => Rejected err
            end
          else Rejected (DatabaseError
                 (VectorDifferentDimensions (List.length e) (List.length query)))
      end
  end.

(** [WHERE 1 - (summary_embedding <=> :embedding) >= :threshold] *)
Definition above (threshold : number) (scored : ConversationSummary.t * number) : bool :=
  float8_ge (sub (Finite 1) (snd scored)) threshold.

(** [ORDER BY summary_embedding <=> :embedding] *)
Definition nearer (a b : ConversationSummary.t * number) : bool :=
  float8_le (snd a) (snd b).

(** The semantic select.  The vector literal is read when the statement
    is analysed, before the threshold and the limit are looked at; with
    [LIMIT 0] no row is visited. *)
Definition semantic_select (rows : list ConversationSummary.t)
    (embedding : list number) (threshold limit : number)
    : Outcome (list SemanticSearchResult.t) :=
  match vector_in embedding with
  | Rejected err => Rejected err
  | Resolved query =>
      match undefined_column threshold with
      | Some e => Rejected (DatabaseError e)
      | None =>
          match sql_limit limit with
          | Rejected err => Rejected err
          | Resolved n =>
              if (n =? 0)%nat then Resolved []
              else
                match distances query rows with
                | Rejected err => Rejected err
                | Resolved scored =>
                    Resolved (map to_result
                                (firstn n (order_by nearer
                                             (filter (above threshold) scored))))
                end
          end
      end
  end.

(** The update of an embedding.  The literal is read as a vector and
    coerced to the column type VECTOR(1536) before any row is visited. *)
Definition update_embedding (now : Z) (id : Z) (embedding : list number)
    (d : Database) : Outcome nat * Database :=
  match vector_in embedding with
  | Rejected err => (Rejected err, d)
  | Resolved v =>
      if negb (List.length v =? ConversationSummary.DIMENSION)%nat then
        (Rejected (DatabaseError
           (VectorDimension ConversationSummary.DIMENSION (List.length v))), d)
      else
        (Resolved (List.length
           (filter (fun r => (ConversationSummary.id r =? id)%Z)
                   (conversations_summary d))),
         {| users := users d; sessions := sessions d;
            conversations := conversations d;
            conversations_summary :=
              map (set_embedding now id v) (conversations_summary d);
            sessions_id_seq := sessions_id_seq d;
            conversations_id_seq := conversations_id_seq d |})
  end.

Definition summary_find_all_ilike (rows : list ConversationSummary.t)
    (pattern : string) (limit : number) : Outcome (list ConversationSummary.t) :=
  window (Some limit) None
    (map without_embedding
       (order_by (fun a b => (ConversationSummary.created_at b
                              <=? ConversationSummary.created_at a)%Z)
          (filter (fun r => ilike (ConversationSummary.summary_text r) pattern) rows))).

Definition conversation_matches (where_ : ConversationWhere) (c : Conversation.t) : bool :=
  match where_ with
  | WhereAll => true
  | WhereContentILike pattern => ilike (Conversation.content c) pattern
  | WhereConversationIdIn ids =>
      existsb (String.eqb (Conversation.conversation_id c)) ids
  end.

Definition conversation_find_all (rows : list Conversation.t)
    (where_ : ConversationWhere) (order : Order) (limit offset : option number)
    : Outcome (list Conversation.t) :=
  window limit offset
    (order_by (by_created_at order) (filter (conversation_matches where_) rows)).

(** What a reachable store does with a statement at time [now]. *)
Definition execute (s : Statement) (now : Z) (d : Database)
    : Outcome (reply s) * Database :=
  match s return Outcome (reply s) * Database with
  | SummarySemanticSelect embedding threshold limit =>
      (semantic_select (conversations_summary d) embedding threshold limit, d)
  | SummaryUpdateEmbedding id embedding => update_embedding now id embedding d
  | SummaryFindAllILike pattern limit =>
      (summary_find_all_ilike (conversations_summary d) pattern limit, d)
  | ConversationFindAll where_ order limit offset =>
      (conversation_find_all (conversations d) where_ order limit offset, d)
  | ConversationCreate dto => conversation_create now dto d
  | SessionFindOne key =>
      (Resolved (find (fun s => String.eqb (Session.session_id s) key) (sessions d)), d)
  | SessionCreate dto => session_create now dto d
  end.

(** One statement against the world: it is journalled, the clock ticks,
    and either the pending fault rejects it or the store executes it. *)
Definition exec (s : Statement) (w : World) : Outcome (reply s) * World :=
  match faults w with
  | Some msg :: _ =>
      (Rejected (ConnectionError msg),
       {| db := db w; clock := (clock w + 1)%Z; uuid_seq := uuid_seq w;
          faults := tl (faults w); journal := s :: journal w |})
  | _ =>
      let (o, d) := execute s (clock w) (db w) in
      (o, {| db := d; clock := (clock w + 1)%Z; uuid_seq := uuid_seq w;
             faults := tl (faults w); journal := s :: journal w |})
  end.

(** A program run to its end, alone. *)
Fixpoint run {A : Type} (p : Prog A) (w : World) : Outcome A * World :=
  match p with
  | Ret a => (Resolved a, w)
  | Throw e => (Rejected e, w)
  | Await s k => let (o, w') := exec s w in run (k o) w'
  | Uuidv4 k => let (u, w') := fresh_uuid w in run (k u) w'
  end.

(** One turn of a program: its synchronous code up to and including the
    next awaited statement. *)
Fixpoint step {A : Type} (p : Prog A) (w : World) : Prog A * World :=
  match p with
  | Await s k => let (o, w') := exec s w in (k o, w')
  | Uuidv4 k => let (u, w') := fresh_uuid w in step (k u) w'
  | _ => (p, w)
  end.

(** Two programs interleaved at their awaits: [true] gives the turn to the
    first program, [false] to the second. *)
Fixpoint interleave {A B : Type} (schedule : list bool) (p : Prog A) (q : Prog B)
    (w : World) : Prog A * Prog B * World :=
  match schedule with
  | [] => (p, q, w)
  | true :: rest => let (p', w') := step p w in interleave rest p' q w'
  | false :: rest => let (q', w') := step q w in interleave rest p q' w'
  end.

(** Two concurrent calls: the schedule first, then whatever is left of
    either program. *)
Definition run_concurrent {A B : Type} (schedule : list bool) (p : Prog A)
    (q : Prog B) (w : World) : Outcome A * Outcome B * World :=
  let '(p', q', w1) := interleave schedule p q w in
  let (a, w2) := run p' w1 in
  let (b, w3) := run q' w2 in
  (a, b, w3).

(* ================================================================== *)
(** ** Numbers: rounding is monotone                                   *)
(* ================================================================== *)

Lemma pow2_pos (e : Z) : 0 < pow2 e.
Proof. apply Qpower_0_lt. reflexivity. Qed.

Lemma pow2_plus (a b : Z) : pow2 (a + b) == pow2 a * pow2 b.
Proof. apply Qpower_plus. discriminate. Qed.

Lemma pow2_le (a b : Z) : (a <= b)%Z -> pow2 a <= pow2 b.
Proof. intros H. apply Qpower_le_compat_l; [exact H | discriminate]. Qed.

Lemma pow2_inject (k : Z) : (0 <= k)%Z -> pow2 k == inject_Z (2 ^ k).
Proof. intros H. unfold pow2. rewrite Zpower_Qpower by exact H. reflexivity. Qed.

Lemma pow2_minus (a b : Z) : pow2 (a - b) == pow2 a / pow2 b.
Proof. apply Qpower_minus. discriminate. Qed.

Lemma Qlog2_spec (a : Q) :
  0 < a -> pow2 (Qlog2 a) <= a /\ a < pow2 (Qlog2 a + 1).
Proof.
  intros Ha. destruct a as [n d]. unfold Qlog2. cbn [Qnum Qden].
  assert (Hn : (0 < n)%Z) by (unfold Qlt in Ha; simpl in Ha; lia).
  set (ln := Z.log2 n). set (ld := Z.log2 (Z.pos d)).
  assert (Hln : (0 <= ln)%Z) by apply Z.log2_nonneg.
  assert (Hld : (0 <= ld)%Z) by apply Z.log2_nonneg.
  destruct (Z.log2_spec n Hn) as [Hn1 Hn2]. fold ln in Hn1, Hn2.
  destruct (Z.log2_spec (Z.pos d) eq_refl) as [Hd1 Hd2]. fold ld in Hd1, Hd2.
  assert (Hp1 : (0 < 2 ^ ln)%Z) by (apply Z.pow_pos_nonneg; lia).
  assert (Hp2 : (0 < 2 ^ ld)%Z) by (apply Z.pow_pos_nonneg; lia).
  assert (Hup : n # d < pow2 (ln - ld + 1)).
  { replace (ln - ld + 1)%Z with ((ln + 1) - ld)%Z by lia.
    rewrite pow2_minus, !pow2_inject by lia.
    apply Qlt_shift_div_l; [change 0 with (inject_Z 0); rewrite <- Zlt_Qlt; lia |].
    replace (Z.succ ln) with (ln + 1)%Z in Hn2 by lia.
    set (A := (2 ^ ld)%Z) in *. set (B := (2 ^ (ln + 1))%Z) in *.
    clearbody A B. unfold Qlt, Qmult, inject_Z. cbn [Qnum Qden].
    rewrite Pos.mul_1_r, !Z.mul_1_r.
    assert (n * A < B * A)%Z by nia. assert (B * A <= B * Z.pos d)%Z by nia. lia. }
  assert (Hlow : pow2 (ln - ld - 1) < n # d).
  { replace (ln - ld - 1)%Z with (ln - (ld + 1))%Z by lia.
    rewrite pow2_minus, !pow2_inject by lia.
    apply Qlt_shift_div_r; [change 0 with (inject_Z 0); rewrite <- Zlt_Qlt; lia |].
    replace (Z.succ ld) with (ld + 1)%Z in Hd2 by lia.
    set (A := (2 ^ ln)%Z) in *. set (B := (2 ^ (ld + 1))%Z) in *.
    clearbody A B. unfold Qlt, Qmult, inject_Z. cbn [Qnum Qden].
    rewrite Pos.mul_1_r, !Z.mul_1_r.
    assert (A * Z.pos d < A * B)%Z by nia. assert (A * B <= n * B)%Z by nia. lia. }
  destruct (Qle_bool (pow2 (ln - ld)) (n # d)) eqn:E.
  - apply Qle_bool_iff in E. split; assumption.
  - split.
    + apply Qlt_le_weak. exact Hlow.
    + replace (ln - ld - 1 + 1)%Z with (ln - ld)%Z by lia.
      apply Qnot_le_lt. intros H. apply Qle_bool_iff in H. congruence.
Qed.

Lemma pow2_lt_inv (a b : Z) : pow2 a < pow2 b -> (a < b)%Z.
Proof. intros H. apply (Qpower_lt_compat_l_inv 2); [exact H | reflexivity]. Qed.

Lemma Qlog2_le (a b : Q) : 0 < a -> a <= b -> (Qlog2 a <= Qlog2 b)%Z.
Proof.
  intros Ha Hab.
  assert (Hb : 0 < b) by (eapply Qlt_le_trans; eassumption).
  destruct (Qlog2_spec a Ha) as [H1 _]. destruct (Qlog2_spec b Hb) as [_ H2].
  assert (H : pow2 (Qlog2 a) < pow2 (Qlog2 b + 1)).
  { eapply Qle_lt_trans; [exact H1 |]. eapply Qle_lt_trans; eassumption. }
  apply pow2_lt_inv in H. lia.
Qed.

Lemma round_half_even_floor (q : Q) :
  (Qfloor q <= round_half_even q <= Qfloor q + 1)%Z.
Proof.
  unfold round_half_even.
  destruct (Qcompare _ _); [destruct (Z.even _) |..]; lia.
Qed.

Lemma round_half_even_le (q1 q2 : Q) :
  q1 <= q2 -> (round_half_even q1 <= round_half_even q2)%Z.
Proof.
  intros H. pose proof (Qfloor_resp_le _ _ H) as Hf.
  pose proof (round_half_even_floor q1) as B1.
  pose proof (round_half_even_floor q2) as B2.
  destruct (Z.eq_dec (Qfloor q1) (Qfloor q2)) as [E | NE]; [| lia].
  clear B1 B2 Hf. unfold round_half_even. rewrite E.
  set (f := Qfloor q2).
  destruct (Qcompare (q1 - inject_Z f) (1 # 2)) eqn:C1;
    destruct (Qcompare (q2 - inject_Z f) (1 # 2)) eqn:C2;
    try (destruct (Z.even f)); try lia; exfalso;
    first [apply Qeq_alt in C1 | apply Qlt_alt in C1 | apply Qgt_alt in C1];
    first [apply Qeq_alt in C2 | apply Qlt_alt in C2 | apply Qgt_alt in C2];
    lra.
Qed.

Lemma round_half_even_upper (q : Q) (z : Z) :
  q <= inject_Z z -> (round_half_even q <= z)%Z.
Proof.
  intros H. pose proof (round_half_even_le _ _ H) as Hle.
  assert (E : round_half_even (inject_Z z) = z).
  { unfold round_half_even. rewrite Qfloor_Z.
    assert (Hc : Qcompare (inject_Z z - inject_Z z) (1 # 2) = Lt).
    { apply Qlt_alt. setoid_replace (inject_Z z - inject_Z z) with 0 by ring.
      reflexivity. }
    now rewrite Hc. }
  lia.
Qed.

Lemma round_half_even_lower (q : Q) (z : Z) :
  inject_Z z <= q -> (z <= round_half_even q)%Z.
Proof.
  intros H. pose proof (Qfloor_resp_le _ _ H) as Hf. rewrite Qfloor_Z in Hf.
  pose proof (round_half_even_floor q). lia.
Qed.

Lemma nearest_nonneg (prec emin : Z) (a : Q) : 0 <= a -> 0 <= nearest prec emin a.
Proof.
  intros Ha. unfold nearest.
  set (p := Z.max _ _).
  apply Qmult_le_0_compat; [| apply Qlt_le_weak, pow2_pos].
  change 0 with (inject_Z 0). rewrite <- Zle_Qle.
  apply round_half_even_lower. simpl.
  apply Qle_shift_div_l; [apply pow2_pos |]. now rewrite Qmult_0_l.
Qed.

Lemma scaled_upper (a : Q) (p k : Z) :
  (0 <= k)%Z -> a <= pow2 (p + k) ->
  inject_Z (round_half_even (a / pow2 p)) * pow2 p <= pow2 (p + k).
Proof.
  intros Hk Ha.
  rewrite pow2_plus, (pow2_inject k Hk), (Qmult_comm (pow2 p)).
  apply Qmult_le_compat_r; [| apply Qlt_le_weak, pow2_pos].
  rewrite <- Zle_Qle. apply round_half_even_upper.
  apply Qle_shift_div_r; [apply pow2_pos |].
  rewrite <- (pow2_inject k Hk), Qmult_comm, <- pow2_plus. exact Ha.
Qed.

Lemma scaled_lower (b : Q) (p k : Z) :
  (0 <= k)%Z -> pow2 (p + k) <= b ->
  pow2 (p + k) <= inject_Z (round_half_even (b / pow2 p)) * pow2 p.
Proof.
  intros Hk Hb.
  rewrite pow2_plus, (pow2_inject k Hk), (Qmult_comm (pow2 p)).
  apply Qmult_le_compat_r; [| apply Qlt_le_weak, pow2_pos].
  rewrite <- Zle_Qle. apply round_half_even_lower.
  apply Qle_shift_div_l; [apply pow2_pos |].
  rewrite <- (pow2_inject k Hk), Qmult_comm, <- pow2_plus. exact Hb.
Qed.

Lemma nearest_le (prec emin : Z) (a b : Q) :
  (1 <= prec)%Z -> 0 < a -> a <= b -> nearest prec emin a <= nearest prec emin b.
Proof.
  intros Hprec Ha Hab.
  assert (Hb : 0 < b) by (eapply Qlt_le_trans; eassumption).
  pose proof (Qlog2_le a b Ha Hab) as Hlog.
  destruct (Qlog2_spec a Ha) as [_ Ha2]. destruct (Qlog2_spec b Hb) as [Hb1 _].
  unfold nearest.
  set (pa := Z.max (Qlog2 a - (prec - 1)) emin).
  set (pb := Z.max (Qlog2 b - (prec - 1)) emin).
  destruct (Z.eq_dec pa pb) as [E | NE].
  - rewrite E. apply Qmult_le_compat_r; [| apply Qlt_le_weak, pow2_pos].
    rewrite <- Zle_Qle. apply round_half_even_le.
    apply Qmult_le_compat_r; [exact Hab |].
    apply Qlt_le_weak, Qinv_lt_0_compat, pow2_pos.
  - assert (Hlt : (pa < pb)%Z) by lia.
    apply Qle_trans with (pow2 (pa + prec)).
    + apply scaled_upper; [lia |].
      apply Qlt_le_weak. eapply Qlt_le_trans; [exact Ha2 |]. apply pow2_le. lia.
    + apply Qle_trans with (pow2 (pb + (prec - 1))).
      * apply pow2_le. lia.
      * apply scaled_lower; [lia |].
        eapply Qle_trans; [| exact Hb1]. apply pow2_le. lia.
Qed.

Lemma le_Finite (x y : Q) : le (Finite x) (Finite y) = true <-> x <= y.
Proof.
  unfold le, compare. rewrite Qle_alt.
  destruct (Qcompare x y); split; intros H; try reflexivity; try discriminate.
  now contradiction H.
Qed.

Lemma binary_round_le (prec emin emax : Z) (p q : Q) :
  (1 <= prec)%Z -> p <= q ->
  le (binary_round prec emin emax p) (binary_round prec emin emax q) = true.
Proof.
  intros Hprec Hpq. unfold binary_round.
  destruct (Qcompare p 0) eqn:Cp; destruct (Qcompare q 0) eqn:Cq;
    first [apply Qeq_alt in Cp | apply Qlt_alt in Cp | apply Qgt_alt in Cp];
    first [apply Qeq_alt in Cq | apply Qlt_alt in Cq | apply Qgt_alt in Cq];
    try (exfalso; lra); try reflexivity.
  - (* 0, positive *)
    pose proof (nearest_nonneg prec emin q (Qlt_le_weak _ _ Cq)) as Hq.
    cbv zeta. destruct (Qle_bool _ _); [reflexivity |].
    apply le_Finite. now rewrite Qred_correct.
  - (* negative, 0 *)
    assert (Hp0 : 0 <= - p) by lra.
    pose proof (nearest_nonneg prec emin (- p) Hp0) as Hp.
    cbv zeta. destruct (Qle_bool _ _); [reflexivity |].
    apply le_Finite. rewrite Qred_correct. lra.
  - (* negative, negative *)
    assert (Hq0 : 0 < - q) by lra. assert (Hqp : - q <= - p) by lra.
    pose proof (nearest_le prec emin (- q) (- p) Hprec Hq0 Hqp) as Hle.
    cbv zeta.
    destruct (Qle_bool (pow2 emax) (nearest prec emin (- p))) eqn:Ep.
    + destruct (Qle_bool (pow2 emax) (nearest prec emin (- q))); reflexivity.
    + destruct (Qle_bool (pow2 emax) (nearest prec emin (- q))) eqn:Eq.
      * exfalso. apply Qle_bool_iff in Eq.
        assert (H : pow2 emax <= nearest prec emin (- p)) by (eapply Qle_trans; eassumption).
        apply Qle_bool_iff in H. congruence.
      * apply le_Finite. rewrite !Qred_correct. lra.
  - (* negative, positive *)
    assert (Hp0 : 0 <= - p) by lra.
    pose proof (nearest_nonneg prec emin (- p) Hp0) as Hp.
    pose proof (nearest_nonneg prec emin q (Qlt_le_weak _ _ Cq)) as Hq.
    cbv zeta. destruct (Qle_bool _ _); destruct (Qle_bool _ _); try reflexivity.
    apply le_Finite. rewrite !Qred_correct. lra.
  - (* positive, positive *)
    pose proof (nearest_le prec emin p q Hprec Cp Hpq) as Hle.
    cbv zeta.
    destruct (Qle_bool (pow2 emax) (nearest prec emin q)) eqn:Eq.
    + destruct (Qle_bool (pow2 emax) (nearest prec emin p)); reflexivity.
    + destruct (Qle_bool (pow2 emax) (nearest prec emin p)) eqn:Ep.
      * exfalso. apply Qle_bool_iff in Ep.
        assert (H : pow2 emax <= nearest prec emin q) by (eapply Qle_trans; eassumption).
        apply Qle_bool_iff in H. congruence.
      * apply le_Finite. now rewrite !Qred_correct.
Qed.

Lemma double_le (p q : Q) : p <= q -> le (double p) (double q) = true.
Proof. apply binary_round_le. lia. Qed.

(* ================================================================== *)
(** ** Numbers: the two orders                                         *)
(* ================================================================== *)

Lemma compare_opp (a b : number) :
  compare b a = option_map CompOpp (compare a b).
Proof.
  destruct a as [| s | p], b as [| t | q]; simpl; try reflexivity.
  - destruct s, t; reflexivity.
  - destruct s; reflexivity.
  - destruct t; reflexivity.
  - now rewrite Qcompare_antisym.
Qed.

Lemma ge_le (a b : number) : ge a b = le b a.
Proof.
  unfold ge, le. rewrite (compare_opp a b).
  destruct (compare a b) as [[| |] |]; reflexivity.
Qed.

Lemma gt_lt (a b : number) : gt a b = lt b a.
Proof.
  unfold gt, lt. rewrite (compare_opp a b).
  destruct (compare a b) as [[| |] |]; reflexivity.
Qed.

Lemma le_refl (q : Q) : le (Finite q) (Finite q) = true.
Proof. apply le_Finite. apply Qle_refl. Qed.

Lemma lt_Finite (x y : Q) : lt (Finite x) (Finite y) = true <-> x < y.
Proof.
  unfold lt, compare. rewrite Qlt_alt.
  destruct (Qcompare x y); split; intros H; try reflexivity; discriminate.
Qed.

Lemma le_below (a b : number) : le a b = true <-> below a b.
Proof.
  destruct a as [| [|] | p], b as [| [|] | q];
    try (unfold le; simpl; split; auto; try discriminate; contradiction).
  apply le_Finite.
Qed.

Lemma below_trans (a b c : number) : below a b -> below b c -> below a c.
Proof.
  destruct a as [| [|] | p], b as [| [|] | q], c as [| [|] | r]; simpl;
    try tauto. apply Qle_trans.
Qed.

Lemma le_trans (a b c : number) : le a b = true -> le b c = true -> le a c = true.
Proof. rewrite !le_below. apply below_trans. Qed.

Lemma lt_le (a b : number) : lt a b = true -> le a b = true.
Proof. unfold lt, le. destruct (compare a b) as [[| |] |]; auto. Qed.

Lemma le_lt_false (a b : number) : le a b = true -> lt b a = false.
Proof.
  unfold lt, le. rewrite (compare_opp a b).
  destruct (compare a b) as [[| |] |]; simpl; auto; discriminate.
Qed.

(** Where neither number is NaN, one of [a <= b] and [b < a] holds. *)
Lemma le_or_lt (a b : number) :
  is_nan a = false -> is_nan b = false -> le a b = true \/ lt b a = true.
Proof.
  intros Ha Hb. unfold le, lt. rewrite (compare_opp a b).
  destruct a as [| s | p], b as [| t | q]; try discriminate; simpl.
  - destruct s, t; simpl; auto.
  - destruct s; simpl; auto.
  - destruct t; simpl; auto.
  - destruct (Qcompare p q); simpl; auto.
Qed.

Lemma le_not_nan (a b : number) : le a b = true -> is_nan a = false /\ is_nan b = false.
Proof. destruct a, b; simpl; auto; discriminate. Qed.

Lemma float8_le_cases (a b : number) :
  float8_le a b = true <-> is_nan b = true \/ le a b = true.
Proof.
  unfold float8_le, le.
  destruct a as [| s | p], b as [| t | q]; simpl; try tauto;
    try (split; [discriminate | intros [H | H]; discriminate]).
  - destruct s, t; simpl; intuition discriminate.
  - destruct s; simpl; intuition discriminate.
  - destruct t; simpl; intuition discriminate.
  - destruct (Qcompare p q); simpl; intuition discriminate.
Qed.

Lemma float8_le_total (a b : number) : float8_le a b = false -> float8_le b a = true.
Proof.
  unfold float8_le. rewrite (compare_opp a b).
  destruct a as [| s | p], b as [| t | q]; simpl; try discriminate; auto.
  - destruct s, t; simpl; auto.
  - destruct s; simpl; auto.
  - destruct t; simpl; auto.
  - destruct (Qcompare p q); simpl; auto.
Qed.

Lemma float8_le_trans (a b c : number) :
  float8_le a b = true -> float8_le b c = true -> float8_le a c = true.
Proof.
  rewrite !float8_le_cases. intros [Hb | Hab] [Hc | Hbc]; auto.
  - destruct (le_not_nan _ _ Hbc) as [Hb' _]. congruence.
  - right. eapply le_trans; eassumption.
Qed.

Lemma binary_round_not_nan (prec emin emax : Z) (q : Q) :
  is_nan (binary_round prec emin emax q) = false.
Proof.
  unfold binary_round.
  destruct (Qcompare q 0); cbv zeta; try destruct (Qle_bool _ _); reflexivity.
Qed.

Lemma le_lowest (x : number) : is_nan x = false -> le (Infinity true) x = true.
Proof. destruct x as [| [|] |]; simpl; auto. Qed.

Lemma le_highest (x : number) : is_nan x = false -> le x (Infinity false) = true.
Proof. destruct x as [| [|] |]; simpl; auto. Qed.

(** [1 - d] falls as [d] grows, the rounding notwithstanding. *)
Lemma sub_antitone (a b : number) :
  le a b = true -> le (sub (Finite 1) b) (sub (Finite 1) a) = true.
Proof.
  destruct a as [| [|] | p], b as [| [|] | q]; try discriminate;
    try reflexivity; cbn [sub]; intros H.
  - apply le_highest, binary_round_not_nan.
  - apply le_lowest, binary_round_not_nan.
  - apply double_le. apply le_Finite in H. lra.
Qed.

Lemma float8_le_ranked (a b : number) :
  float8_le a b = true -> ranked (sub (Finite 1) a) (sub (Finite 1) b).
Proof.
  intros H. apply float8_le_cases in H. destruct H as [Hb | Hab].
  - right. destruct b; try discriminate. destruct a; reflexivity.
  - left. rewrite ge_le. now apply sub_antitone.
Qed.

(* ================================================================== *)
(** ** Running programs: basic equations                               *)
(* ================================================================== *)

Lemma run_bind {A B : Type} (p : Prog A) (f : A -> Prog B) (w : World) :
  run (bind p f) w =
  match run p w with
  | (Resolved a, w') => run (f a) w'
  | (Rejected e, w') => (Rejected e, w')
  end.
Proof.
  revert w.
  induction p as [a | e | s k IH | k IH]; intros w; simpl; try reflexivity.
  - destruct (exec s w) as [o w']. apply IH.
  - destruct (fresh_uuid w) as [u w']. apply IH.
Qed.

Lemma run_try_catch {A : Type} (p : Prog A) (h : JsError -> Prog A) (w : World) :
  run (try_catch p h) w =
  match run p w with
  | (Resolved a, w') => (Resolved a, w')
  | (Rejected e, w') => run (h e) w'
  end.
Proof.
  revert w.
  induction p as [a | e | s k IH | k IH]; intros w; simpl; try reflexivity.
  - destruct (exec s w) as [o w']. apply IH.
  - destruct (fresh_uuid w) as [u w']. apply IH.
Qed.

Lemma run_await (s : Statement) (w : World) : run (await s) w = exec s w.
Proof.
  unfold await. simpl. destruct (exec s w) as [[r | e] w']; reflexivity.
Qed.

(** [rewrite run_await] at the statement [s], whether the goal shows its
    reply type reduced or not. *)
Ltac run_await_at s w :=
  first
    [ rewrite (run_await s w)
    | let E := fresh "E" in
      pose proof (run_await s w) as E;
      cbv beta iota delta [reply] in E;
      rewrite E; clear E ].

(** A program handed to a handler that only returns never rejects. *)
Lemma run_try_catch_total {A : Type} (p : Prog A) (h : JsError -> A) (w : World) :
  exists a w', run (try_catch p (fun e => Ret (h e))) w = (Resolved a, w').
Proof.
  rewrite run_try_catch.
  destruct (run p w) as [[a | e] w']; simpl; eauto.
Qed.

Lemma exec_journal (s : Statement) (w : World) :
  journal (snd (exec s w)) = s :: journal w.
Proof.
  unfold exec.
  destruct (faults w) as [| [msg |] rest]; simpl;
    try destruct (execute s (clock w) (db w)); reflexivity.
Qed.

Lemma exec_fault (s : Statement) (w : World) (msg : string) (rest : list (option string)) :
  faults w = Some msg :: rest ->
  fst (exec s w) = Rejected (ConnectionError msg).
Proof. intros H. unfold exec. rewrite H. reflexivity. Qed.

Lemma exec_healthy (s : Statement) (w : World) :
  hd None (faults w) = None ->
  exec s w =
  (fst (execute s (clock w) (db w)),
   {| db := snd (execute s (clock w) (db w)); clock := (clock w + 1)%Z;
      uuid_seq := uuid_seq w; faults := tl (faults w); journal := s :: journal w |}).
Proof.
  intros H. unfold exec.
  destruct (faults w) as [| [msg |] rest]; simpl in H; try discriminate;
    destruct (execute s (clock w) (db w)); reflexivity.
Qed.

(* ================================================================== *)
(** ** Sorting and row counts                                          *)
(* ================================================================== *)

Lemma insert_by_length {A : Type} (le : A -> A -> bool) (x : A) (l : list A) :
  List.length (insert_by le x l) = S (List.length l).
Proof.
  induction l as [| y l IH]; simpl; [reflexivity |].
  destruct (le x y); simpl; [reflexivity | now rewrite IH].
Qed.

Lemma order_by_length {A : Type} (le : A -> A -> bool) (l : list A) :
  List.length (order_by le l) = List.length l.
Proof.
  induction l as [| x l IH]; simpl; [reflexivity |].
  now rewrite insert_by_length, IH.
Qed.

Lemma insert_by_perm {A : Type} (le : A -> A -> bool) (x : A) (l : list A) :
  Permutation (x :: l) (insert_by le x l).
Proof.
  induction l as [| y l IH]; simpl; [apply Permutation_refl |].
  destruct (le x y); [apply Permutation_refl |].
  eapply Permutation_trans; [apply perm_swap | apply perm_skip, IH].
Qed.

Lemma order_by_perm {A : Type} (le : A -> A -> bool) (l : list A) :
  Permutation l (order_by le l).
Proof.
  induction l as [| x l IH]; simpl; [apply Permutation_refl |].
  eapply Permutation_trans; [apply perm_skip, IH | apply insert_by_perm].
Qed.

Section Ordered.
Context {A : Type} (le : A -> A -> bool).
Hypothesis le_total : forall a b, le a b = false -> le b a = true.
Hypothesis le_trans : forall a b c, le a b = true -> le b c = true -> le a c = true.

Lemma insert_by_sorted (x : A) (l : list A) :
  StronglySorted (fun a b => le a b = true) l ->
  StronglySorted (fun a b => le a b = true) (insert_by le x l).
Proof.
  induction 1 as [| y l Hs IH Hy]; simpl.
  - constructor; constructor.
  - destruct (le x y) eqn:E.
    + constructor; [constructor; assumption |].
      constructor; [assumption |].
      eapply Forall_impl; [| exact Hy]. intros b Hb. eapply le_trans; eassumption.
    + constructor; [assumption |].
      eapply Permutation_Forall; [apply insert_by_perm |].
      constructor; [now apply le_total | assumption].
Qed.

Lemma order_by_sorted (l : list A) :
  StronglySorted (fun a b => le a b = true) (order_by le l).
Proof.
  induction l as [| x l IH]; simpl; [constructor | now apply insert_by_sorted].
Qed.

End Ordered.

Lemma firstn_In {A : Type} (n : nat) (l : list A) (x : A) :
  In x (firstn n l) -> In x l.
Proof.
  intros H. rewrite <- (firstn_skipn n l). apply in_or_app. now left.
Qed.

Lemma StronglySorted_firstn {A : Type} (R : A -> A -> Prop) (n : nat) (l : list A) :
  StronglySorted R l -> StronglySorted R (firstn n l).
Proof.
  intros H. revert n.
  induction H as [| x l Hs IH Hx]; intros [| n]; simpl; try constructor.
  - apply IH.
  - rewrite Forall_forall in *. intros y Hy. apply Hx.
    eapply firstn_In. exact Hy.
Qed.

Lemma StronglySorted_map {A B : Type} (R : A -> A -> Prop) (S : B -> B -> Prop)
    (f : A -> B) (l : list A) :
  (forall a b, R a b -> S (f a) (f b)) ->
  StronglySorted R l -> StronglySorted S (map f l).
Proof.
  intros Hf. induction 1 as [| x l Hs IH Hx]; simpl; constructor; [assumption |].
  rewrite Forall_forall in *. intros y Hy.
  apply in_map_iff in Hy. destruct Hy as [a [<- Ha]]. auto.
Qed.

(* ================================================================== *)
(** ** The ranked semantic search                                      *)
(* ================================================================== *)

(** What a successful [semanticSearch] returns. *)
Lemma semanticSearch_resolved (w w' : World) (query : list number)
    (limit threshold : number) (results : list SemanticSearchResult.t) :
  run (ConversationSummaryService.semanticSearch query limit threshold) w
    = (Resolved results, w') ->
  exists v n,
    vector_in query = Resolved v /\
    undefined_column threshold = None /\
    sql_limit limit = Resolved n /\
    ((n = 0%nat /\ results = []) \/
     (n <> 0%nat /\
      exists scored,
        distances v (conversations_summary (db w)) = Resolved scored /\
        results = map to_result
                    (firstn n (order_by nearer (filter (above threshold) scored))))).
Proof.
  unfold ConversationSummaryService.semanticSearch.
  run_await_at (SummarySemanticSelect query threshold limit) w. unfold exec.
  destruct (faults w) as [| [msg |] rest]; simpl; try discriminate;
    unfold semantic_select;
    destruct (vector_in query) as [v | err]; try discriminate;
    destruct (undefined_column threshold); try discriminate;
    destruct (sql_limit limit) as [n | err]; try discriminate;
    (destruct (n =? 0)%nat eqn:En;
     [ apply Nat.eqb_eq in En; intros H; injection H as <- _;
       exists v, n; auto 10
     | apply Nat.eqb_neq in En;
       destruct (distances v (conversations_summary (db w))) as [scored | err] eqn:Hd;
       try discriminate;
       intros H; injection H as <- _; exists v, n;
       repeat (split; [reflexivity |]); right; split; [exact En |];
       exists scored; split; [exact Hd | reflexivity] ]).
Qed.

Lemma nearer_total (a b : ConversationSummary.t * number) :
  nearer a b = false -> nearer b a = true.
Proof. apply float8_le_total. Qed.

Lemma nearer_trans (a b c : ConversationSummary.t * number) :
  nearer a b = true -> nearer b c = true -> nearer a c = true.
Proof. apply float8_le_trans. Qed.

Lemma to_result_ranked (a b : ConversationSummary.t * number) :
  nearer a b = true ->
  ranked (SemanticSearchResult.similarity_score (to_result a))
         (SemanticSearchResult.similarity_score (to_result b)).
Proof. apply float8_le_ranked. Qed.

(** C1 (as amended): whatever the candidate set, the result of a
    successful semantic search is sorted by non-increasing similarity
    score, the results whose score is NaN coming last: of two results,
    the earlier one has a score at least as high as the later one, unless
    the score of the later one is NaN.  The statement orders by the
    distance alone; it has no second key. *)
Theorem semanticSearch_sorted_by_score (w w' : World) (query : list number)
    (limit threshold : number) (results : list SemanticSearchResult.t) :
  run (ConversationSummaryService.semanticSearch query limit threshold) w
    = (Resolved results, w') ->
  StronglySorted
    (fun a b => ranked (SemanticSearchResult.similarity_score a)
                       (SemanticSearchResult.similarity_score b))
    results.
Proof.
  intros H. apply semanticSearch_resolved in H.
  destruct H as (v & n & _ & _ & _ & [[_ ->] | (_ & scored & _ & ->)]).
  - constructor.
  - apply StronglySorted_map with (R := fun a b => nearer a b = true).
    + exact to_result_ranked.
    + apply StronglySorted_firstn.
      apply order_by_sorted; [exact nearer_total | exact nearer_trans].
Qed.

Lemma filter_length_le {A : Type} (f g : A -> bool) (l : list A) :
  (forall x, f x = true -> g x = true) ->
  (List.length (filter f l) <= List.length (filter g l))%nat.
Proof.
  intros Himp. induction l as [| x l IH]; simpl; [lia |].
  destruct (f x) eqn:Ef.
  - rewrite (Himp x Ef). simpl. lia.
  - destruct (g x); simpl; lia.
Qed.

Lemma above_antitone (t1 t2 : number) (scored : ConversationSummary.t * number) :
  le t1 t2 = true -> above t2 scored = true -> above t1 scored = true.
Proof.
  unfold above, float8_ge. rewrite !float8_le_cases.
  intros H12 [Hnan | H]; [now left | right].
  eapply le_trans; eassumption.
Qed.

(** A row that passes the filter is at or above the threshold, or its
    score is NaN. *)
Lemma above_spec (threshold : number) (scored : ConversationSummary.t * number) :
  above threshold scored = true ->
  ge (SemanticSearchResult.similarity_score (to_result scored)) threshold = true \/
  is_nan (SemanticSearchResult.similarity_score (to_result scored)) = true.
Proof.
  unfold above, float8_ge. rewrite float8_le_cases, ge_le. simpl. tauto.
Qed.

Lemma float8_le_refl (a : number) : float8_le a a = true.
Proof.
  unfold float8_le. destruct a as [| [|] | q]; simpl; try reflexivity.
  assert (H : Qcompare q q = Eq) by (apply Qeq_alt; reflexivity).
  now rewrite H.
Qed.

Lemma distances_In (query : list number) (rows : list ConversationSummary.t)
    (scored : list (ConversationSummary.t * number))
    (row : ConversationSummary.t) (e : list number) :
  distances query rows = Resolved scored ->
  In row rows -> ConversationSummary.summary_embedding row = Some e ->
  In (row, cosine_distance e query) scored.
Proof.
  revert scored.
  induction rows as [| r rows IH]; intros scored Hd Hin He; [contradiction |].
  simpl in Hd.
  destruct Hin as [-> | Hin].
  - rewrite He in Hd.
    destruct (List.length e =? List.length query)%nat; [| discriminate].
    destruct (distances query rows); [| discriminate].
    injection Hd as <-. now left.
  - destruct (ConversationSummary.summary_embedding r) as [e' |].
    + destruct (List.length e' =? List.length query)%nat; [| discriminate].
      destruct (distances query rows) as [rest |]; [| discriminate].
      injection Hd as <-. right. now apply IH.
    + now apply IH.
Qed.

(** C4: with the query, the candidates and the limit fixed, no result is
    below the threshold (each score is at or above it, or is NaN, which
    the store does not count as below), a candidate exactly at the
    threshold is returned (unless the limit cuts the list), and a higher
    threshold never returns more results. *)
Theorem semanticSearch_threshold_monotone (w w1 w2 : World) (query : list number)
    (limit t1 t2 : number) (r1 r2 : list SemanticSearchResult.t) :
  le t1 t2 = true ->
  run (ConversationSummaryService.semanticSearch query limit t1) w = (Resolved r1, w1) ->
  run (ConversationSummaryService.semanticSearch query limit t2) w = (Resolved r2, w2) ->
  (List.length r2 <= List.length r1)%nat /\
  Forall (fun r => ge (SemanticSearchResult.similarity_score r) t2 = true \/
                   is_nan (SemanticSearchResult.similarity_score r) = true) r2 /\
  Forall (fun r => lt (SemanticSearchResult.similarity_score r) t2 = false) r2 /\
  (forall row e v n,
      In row (conversations_summary (db w)) ->
      ConversationSummary.summary_embedding row = Some e ->
      vector_in query = Resolved v ->
      sub (Finite 1) (cosine_distance e v) = t2 ->
      sql_limit limit = Resolved n -> (List.length r2 < n)%nat ->
      In (to_result (row, cosine_distance e v)) r2).
Proof.
  intros H12 H1 H2.
  apply semanticSearch_resolved in H1.
  destruct H1 as (v1 & n1 & Hv1 & _ & Hn1 & H1).
  apply semanticSearch_resolved in H2.
  destruct H2 as (v2 & n2 & Hv2 & _ & Hn2 & H2).
  rewrite Hn1 in Hn2. injection Hn2 as <-.
  rewrite Hv1 in Hv2. injection Hv2 as <-.
  destruct H2 as [[Hzero ->] | (Hpos & s2 & Hs2 & ->)].
  - split; [simpl; lia |]. split; [constructor |]. split; [constructor |].
    intros row e v n _ _ _ _ Hn Hlen. rewrite Hn1 in Hn. injection Hn as <-.
    simpl in Hlen. lia.
  - destruct H1 as [[Hzero _] | (_ & s1 & Hs1 & ->)]; [contradiction |].
    rewrite Hs1 in Hs2. injection Hs2 as <-.
    assert (Hall : Forall (fun r => ge (SemanticSearchResult.similarity_score r) t2 = true \/
                                    is_nan (SemanticSearchResult.similarity_score r) = true)
                     (map to_result
                        (firstn n1 (order_by nearer (filter (above t2) s1))))).
    { rewrite Forall_forall. intros r Hr.
      apply in_map_iff in Hr. destruct Hr as (sc & <- & Hsc).
      apply firstn_In in Hsc.
      apply (Permutation_in _ (Permutation_sym (order_by_perm nearer _))) in Hsc.
      apply filter_In in Hsc. destruct Hsc as [_ Habove].
      now apply above_spec. }
    split; [| split; [exact Hall | split]].
    + rewrite !length_map, !length_firstn, !order_by_length.
      pose proof (filter_length_le (above t2) (above t1) s1
                    (fun x => above_antitone t1 t2 x H12)).
      lia.
    + eapply Forall_impl; [| exact Hall]. intros r [Hge | Hnan].
      * apply le_lt_false. now rewrite <- ge_le.
      * destruct (SemanticSearchResult.similarity_score r); try discriminate.
        reflexivity.
    + intros row e v n Hin He Hv Heq Hn Hlen.
      rewrite Hn1 in Hn. injection Hn as <-.
      rewrite Hv1 in Hv. injection Hv as <-.
      rewrite length_map, length_firstn in Hlen.
      apply in_map. rewrite firstn_all2 by lia.
      apply (Permutation_in _ (order_by_perm nearer _)).
      apply filter_In. split.
      * eapply distances_In; eassumption.
      * unfold above, float8_ge. cbn [snd]. rewrite Heq. apply float8_le_refl.
Qed.

(* ================================================================== *)
(** ** The recommendation policy                                       *)
(* ================================================================== *)







(* ================================================================== *)
(** ** The semantic search tool                                        *)
(* ================================================================== *)

Lemma handler_accepted (params : searchConversationSummaries.Params) :
  searchConversationSummaries.accepted params = true ->
  searchConversationSummaries.handler params =
  try_catch
    (searchConversationSummaries.search
       (searchConversationSummaries.patientMessage params)
       (searchConversationSummaries.queryEmbedding params)
       (searchConversationSummaries.limit_of params)
       (searchConversationSummaries.threshold_of params)
       (searchConversationSummaries.include_of params))
    (fun error => Ret (failure ("Search failed: " ++ message error))).
Proof.
  unfold searchConversationSummaries.accepted, searchConversationSummaries.handler.
  intros H. apply andb_prop in H. destruct H as [Hm Hd].
  rewrite Hm, Hd. simpl.
  apply Nat.eqb_eq in Hd. rewrite Hd. reflexivity.
Qed.

Lemma handler_not_accepted (params : searchConversationSummaries.Params) :
  searchConversationSummaries.accepted params = false ->
  exists error, searchConversationSummaries.handler params = Ret (failure error).
Proof.
  unfold searchConversationSummaries.accepted, searchConversationSummaries.handler.
  intros H.
  destruct (truthy_string (trim (searchConversationSummaries.patientMessage params)));
    simpl in *; [| eauto].
  destruct (List.length (searchConversationSummaries.queryEmbedding params) =? 0)%nat;
    [eauto |].
  rewrite H. simpl. eauto.
Qed.

(** C6: a query vector that is empty, or whose dimension is not 1536, is
    rejected by the semantic search tool with a failure reply, and the
    store is not accessed: the world, journal included, is left as it
    was. *)
Theorem semantic_search_validates_before_store
    (params : searchConversationSummaries.Params) (w : World) :
  searchConversationSummaries.queryEmbedding params = [] \/
  List.length (searchConversationSummaries.queryEmbedding params) <> 1536%nat ->
  exists error,
    run (searchConversationSummaries.handler params) w = (Resolved (failure error), w) /\
    journal (snd (run (searchConversationSummaries.handler params) w)) = journal w.
Proof.
  intros H.
  assert (Hna : searchConversationSummaries.accepted params = false).
  { unfold searchConversationSummaries.accepted.
    apply andb_false_intro2. apply Nat.eqb_neq.
    destruct H as [H | H]; [rewrite H; discriminate | exact H]. }
  destruct (handler_not_accepted params Hna) as [error ->].
  exists error. split; reflexivity.
Qed.

(** C3 (as amended): when the search finds nothing, the tool replies with
    [no_results]: success, an empty result list, zero matches, a message
    and a suggestion (chosen by the requested threshold), and no
    recommendation.  The reply depends on the message and the requested
    threshold alone, not on why nothing was found. *)
Theorem empty_search_reply (params : searchConversationSummaries.Params)
    (w w' : World) :
  searchConversationSummaries.accepted params = true ->
  run (ConversationSummaryService.semanticSearch
         (searchConversationSummaries.queryEmbedding params)
         (searchConversationSummaries.effectiveLimit
            (searchConversationSummaries.limit_of params))
         (searchConversationSummaries.effectiveThreshold
            (searchConversationSummaries.threshold_of params))) w
    = (Resolved [], w') ->
  let reply_ := searchConversationSummaries.no_results
                  (searchConversationSummaries.patientMessage params)
                  (searchConversationSummaries.threshold_of params) in
  run (searchConversationSummaries.handler params) w
    = (Resolved (TextResponseBuilder reply_), w') /\
  keys reply_ = ["success"; "query"; "message"; "results"; "totalMatches"; "suggestion"] /\
  field "success" reply_ = Some (JsBool true) /\
  field "results" reply_ = Some (JsArray []) /\
  field "suggestion" reply_
    = Some (JsString
              (if gt (searchConversationSummaries.threshold_of params)
                     (double (5 # 10))
               then "Try lowering the similarity threshold for broader results"
               else "This may be a new topic with no historical context")) /\
  field "recommendation" reply_ = None.
Proof.
  intros Hacc Hrun reply_.
  split; [| repeat split].
  rewrite (handler_accepted params Hacc), run_try_catch.
  unfold searchConversationSummaries.search.
  rewrite run_bind, Hrun. reflexivity.
Qed.

(* ------------------------------------------------------------------ *)
(** *** Replies always report their outcome                            *)

Lemma reports_failure (error : string) : reports (failure error) = true.
Proof. reflexivity. Qed.

Lemma search_reports (patientMessage : string) (queryEmbedding : list number)
    (limit threshold : number) (includeConversations : bool) (w w' : World)
    (r : ToolResult) :
  run (searchConversationSummaries.search patientMessage queryEmbedding
         limit threshold includeConversations) w = (Resolved r, w') ->
  reports r = true.
Proof.
  unfold searchConversationSummaries.search. rewrite run_bind.
  destruct (run (ConversationSummaryService.semanticSearch _ _ _) w)
    as [[results | e] w1]; [| discriminate].
  destruct (List.length results =? 0)%nat.
  - simpl. intros H. injection H as <- _. reflexivity.
  - rewrite run_bind.
    destruct (run (if includeConversations then _ else _) w1)
      as [[enriched | e] w2]; [| discriminate].
    simpl. intros H. injection H as <- _. reflexivity.
Qed.

Lemma text_search_reports (searchQuery : string) (limit : number) (w w' : World)
    (r : ToolResult) :
  run (textSearchConversationSummaries.search searchQuery limit) w = (Resolved r, w') ->
  reports r = true.
Proof.
  unfold textSearchConversationSummaries.search. rewrite run_bind.
  destruct (run (ConversationSummaryService.textSearch _ _) w)
    as [[results | e] w1]; [| discriminate].
  simpl. intros H. injection H as <- _. reflexivity.
Qed.

Lemma text_handler_accepted (params : textSearchConversationSummaries.Params) :
  truthy_string (trim (textSearchConversationSummaries.searchQuery params)) = true ->
  textSearchConversationSummaries.handler params =
  try_catch
    (textSearchConversationSummaries.search
       (textSearchConversationSummaries.searchQuery params)
       (textSearchConversationSummaries.limit_of params))
    (fun error => Ret (failure ("Search failed: " ++ message error))).
Proof.
  unfold textSearchConversationSummaries.handler. intros ->. reflexivity.
Qed.

(** C9: the search tools never reject.  For every input and every world,
    faulty stores included, each handler resolves with a tool result that
    reports its outcome ([success: true], or [success: false] with an
    error message); and when the guarded search of a summary tool throws
    [e], the result is the failure reply "Search failed: " followed by
    the message of [e]. *)
Theorem search_tools_never_throw (w : World) :
  (forall params, exists r w',
      run (searchConversationSummaries.handler params) w = (Resolved r, w') /\
      reports r = true) /\
  (forall params, exists r w',
      run (textSearchConversationSummaries.handler params) w = (Resolved r, w') /\
      reports r = true) /\
  (forall params, exists r w',
      run (getConversationsList.handler params) w = (Resolved r, w') /\
      reports r = true) /\
  (forall params e w',
      searchConversationSummaries.accepted params = true ->
      run (searchConversationSummaries.search
             (searchConversationSummaries.patientMessage params)
             (searchConversationSummaries.queryEmbedding params)
             (searchConversationSummaries.limit_of params)
             (searchConversationSummaries.threshold_of params)
             (searchConversationSummaries.include_of params)) w = (Rejected e, w') ->
      run (searchConversationSummaries.handler params) w
        = (Resolved (failure ("Search failed: " ++ message e)), w')) /\
  (forall params e w',
      truthy_string (trim (textSearchConversationSummaries.searchQuery params)) = true ->
      run (textSearchConversationSummaries.search
             (textSearchConversationSummaries.searchQuery params)
             (textSearchConversationSummaries.limit_of params)) w = (Rejected e, w') ->
      run (textSearchConversationSummaries.handler params) w
        = (Resolved (failure ("Search failed: " ++ message e)), w')).
Proof.
  repeat split.
  - intros params.
    destruct (searchConversationSummaries.accepted params) eqn:Hacc.
    + rewrite (handler_accepted params Hacc), run_try_catch.
      destruct (run (searchConversationSummaries.search _ _ _ _ _) w)
        as [[r | e] w'] eqn:Hrun.
      * exists r, w'. split; [reflexivity |]. eapply search_reports; exact Hrun.
      * simpl. eauto using reports_failure.
    + destruct (handler_not_accepted params Hacc) as [error ->].
      simpl. eauto using reports_failure.
  - intros params.
    destruct (truthy_string (trim (textSearchConversationSummaries.searchQuery params)))
      eqn:Hq.
    + rewrite (text_handler_accepted params Hq), run_try_catch.
      destruct (run (textSearchConversationSummaries.search _ _) w)
        as [[r | e] w'] eqn:Hrun.
      * exists r, w'. split; [reflexivity |]. eapply text_search_reports; exact Hrun.
      * simpl. eauto using reports_failure.
    + unfold textSearchConversationSummaries.handler. rewrite Hq.
      simpl. eauto using reports_failure.
  - intros params. unfold getConversationsList.handler.
    rewrite run_try_catch, run_bind.
    destruct (run (ConversationService.searchByTopic _ _ _) w) as [[rows | e] w'].
    + simpl. eexists. eexists. split; reflexivity.
    + simpl. eauto using reports_failure.
  - intros params e w' Hacc Hrun.
    rewrite (handler_accepted params Hacc), run_try_catch, Hrun. reflexivity.
  - intros params e w' Hq Hrun.
    rewrite (text_handler_accepted params Hq), run_try_catch, Hrun. reflexivity.
Qed.

(* ------------------------------------------------------------------ *)
(** *** Clamped limit and threshold                                    *)

Lemma Math_clamp (lo hi : Q) (x : number) :
  lo <= hi ->
  Math_min (Math_max (Finite lo) x) (Finite hi) = clamp (Finite lo) (Finite hi) x.
Proof.
  intros Hlh. unfold Math_min, Math_max, clamp, lt, gt.
  rewrite (compare_opp (Finite lo) x).
  assert (Hc : Qcompare lo hi <> Gt) by (now apply Qle_alt).
  destruct x as [| [|] | q]; simpl; try reflexivity.
  - destruct (Qcompare lo hi); try reflexivity. now contradiction Hc.
  - destruct (Qcompare lo q) eqn:C1; simpl.
    + destruct (Qcompare q hi); reflexivity.
    + destruct (Qcompare q hi); reflexivity.
    + destruct (Qcompare lo hi); try reflexivity. now contradiction Hc.
Qed.

Lemma clamp_within (lo hi : Q) (x : number) :
  lo <= hi -> is_nan x = false ->
  within (Finite lo) (Finite hi) (clamp (Finite lo) (Finite hi) x) = true.
Proof.
  intros Hlh Hx. unfold clamp, within.
  assert (Hlo : le (Finite lo) (Finite hi) = true) by (now apply le_Finite).
  destruct (lt x (Finite lo)) eqn:E1.
  - now rewrite le_refl, Hlo.
  - destruct (gt x (Finite hi)) eqn:E2.
    + now rewrite le_refl, Hlo.
    + rewrite gt_lt in E2.
      destruct (le_or_lt (Finite lo) x eq_refl Hx) as [H | H]; [| congruence].
      destruct (le_or_lt x (Finite hi) Hx eq_refl) as [H' | H']; [| congruence].
      now rewrite H, H'.
Qed.

Lemma clamp_nan (lo hi x : number) : is_nan x = true -> clamp lo hi x = NaN.
Proof. destruct x; try discriminate. intros _. unfold clamp. now destruct lo. Qed.

Lemma effective_clamp (limit threshold : number) :
  searchConversationSummaries.effectiveLimit limit
    = clamp (Finite 1) (Finite 20) limit /\
  searchConversationSummaries.effectiveThreshold threshold
    = clamp (Finite 0) (Finite 1) threshold.
Proof.
  unfold searchConversationSummaries.effectiveLimit,
         searchConversationSummaries.effectiveThreshold.
  split; apply Math_clamp; discriminate.
Qed.

Lemma effective_bounds (limit threshold : number) :
  is_nan limit = false -> is_nan threshold = false ->
  within (Finite 0) (Finite 1)
    (searchConversationSummaries.effectiveThreshold threshold) = true /\
  within (Finite 1) (Finite 20)
    (searchConversationSummaries.effectiveLimit limit) = true.
Proof.
  intros Hl Ht. destruct (effective_clamp limit threshold) as [-> ->].
  split; apply clamp_within; auto; discriminate.
Qed.

Lemma round_half_away_le (q : Q) (z : Z) :
  q <= inject_Z z -> (0 <= z)%Z -> (round_half_away q <= z)%Z.
Proof.
  intros Hq Hz. unfold round_half_away.
  destruct (Qle_bool 0 q) eqn:E.
  - assert (H : (Qfloor (q + (1 # 2)) <= Qfloor (inject_Z z + (1 # 2)))%Z).
    { apply Qfloor_resp_le. apply Qplus_le_compat; [exact Hq | apply Qle_refl]. }
    assert (Hf : Qfloor (inject_Z z + (1 # 2)) = z).
    { unfold Qfloor, Qplus, inject_Z. simpl.
      symmetry. apply Z.div_unique with (r := 1%Z); lia. }
    lia.
  - assert (H : (0 <= Qfloor (- q + (1 # 2)))%Z).
    { change 0%Z with (Qfloor 0). apply Qfloor_resp_le.
      assert (Hneg : q < 0).
      { apply Qnot_le_lt. intros Hle. apply Qle_bool_iff in Hle. congruence. }
      apply Qlt_le_weak.
      apply Qlt_trans with (- q).
      - rewrite <- (Qopp_involutive 0). apply Qopp_lt_compat. exact Hneg.
      - rewrite <- (Qplus_0_r (- q)) at 1. apply Qplus_lt_r. reflexivity. }
    lia.
Qed.

(** A limit that the store takes is a finite number, and the rows it
    allows are its nearest integer. *)
Lemma sql_limit_resolved (limit : number) (n : nat) :
  sql_limit limit = Resolved n ->
  exists q, limit = Finite q /\ n = Z.to_nat (round_half_away q) /\
            (0 <= round_half_away q < 2 ^ 63)%Z.
Proof.
  unfold sql_limit, first_error, undefined_column, out_of_range, negative, rows_of.
  destruct limit as [| s | q]; try discriminate. cbn [bigint].
  destruct ((round_half_away q <? - 2 ^ 63)%Z || (2 ^ 63 <=? round_half_away q)%Z)
    eqn:E1; [discriminate |].
  destruct (round_half_away q <? 0)%Z eqn:E2; [discriminate |].
  intros H. injection H as <-. exists q.
  apply orb_false_elim in E1. destruct E1 as [_ E1].
  apply Z.leb_gt in E1. apply Z.ltb_ge in E2. auto.
Qed.

Lemma sql_limit_le (limit : number) (n : nat) (bound : nat) :
  le limit (of_nat bound) = true -> sql_limit limit = Resolved n -> (n <= bound)%nat.
Proof.
  intros Hle Hn. apply sql_limit_resolved in Hn.
  destruct Hn as (q & -> & -> & _). apply le_Finite in Hle.
  pose proof (round_half_away_le q (Z.of_nat bound) Hle (Nat2Z.is_nonneg bound)).
  lia.
Qed.

(** The limit of the tool allows 20 rows at most, where the store takes
    it. *)
Lemma effectiveLimit_rows (limit : number) (n : nat) :
  sql_limit (searchConversationSummaries.effectiveLimit limit) = Resolved n ->
  (n <= 20)%nat.
Proof.
  intros Hn.
  destruct (is_nan limit) eqn:Hnan.
  - destruct (effective_clamp limit NaN) as [E _].
    rewrite E, (clamp_nan _ _ _ Hnan) in Hn. discriminate.
  - destruct (effective_bounds limit (Finite 0) Hnan eq_refl) as [_ H].
    apply andb_prop in H. destruct H as [_ H].
    eapply sql_limit_le; [| exact Hn]. exact H.
Qed.

Lemma for_each_length {A B : Type} (f : A -> Prog B) (l : list A) (w w' : World)
    (ys : list B) :
  run (for_each f l) w = (Resolved ys, w') -> List.length ys = List.length l.
Proof.
  revert w w' ys. induction l as [| x l IH]; intros w w' ys; simpl.
  - intros H. injection H as <- _. reflexivity.
  - rewrite run_bind. destruct (run (f x) w) as [[y | e] w1]; [| discriminate].
    rewrite run_bind. destruct (run (for_each f l) w1) as [[rest | e] w2] eqn:E;
      [| discriminate].
    simpl. intros H. injection H as <- _. simpl. f_equal. eapply IH. exact E.
Qed.

(* ------------------------------------------------------------------ *)
(** *** What a program sends to the store                              *)

Section Issues.
Variable P : Statement -> Prop.

Lemma issues_only_bind {A B : Type} (p : Prog A) (f : A -> Prog B) :
  issues_only P p -> (forall a, issues_only P (f a)) -> issues_only P (bind p f).
Proof.
  intros Hp Hf. induction Hp; simpl; auto; constructor; auto.
Qed.

Lemma issues_only_try_catch {A : Type} (p : Prog A) (h : JsError -> Prog A) :
  issues_only P p -> (forall e, issues_only P (h e)) -> issues_only P (try_catch p h).
Proof.
  intros Hp Hh. induction Hp; simpl; auto; constructor; auto.
Qed.

Lemma issues_only_await (s : Statement) : P s -> issues_only P (await s).
Proof.
  intros Hs. unfold await. constructor; [exact Hs |].
  intros [r | e]; constructor.
Qed.

Lemma issues_only_for_each {A B : Type} (f : A -> Prog B) (l : list A) :
  (forall a, issues_only P (f a)) -> issues_only P (for_each f l).
Proof.
  intros Hf. induction l as [| x l IH]; simpl; [constructor |].
  apply issues_only_bind; [apply Hf |]. intros y.
  apply issues_only_bind; [exact IH |]. intros ys. constructor.
Qed.


End Issues.


(** A successful search returns no more rows than its limit allows. *)
Lemma semanticSearch_rows (w w' : World) (query : list number)
    (limit threshold : number) (results : list SemanticSearchResult.t) :
  run (ConversationSummaryService.semanticSearch query limit threshold) w
    = (Resolved results, w') ->
  exists n, sql_limit limit = Resolved n /\ (List.length results <= n)%nat.
Proof.
  intros H. apply semanticSearch_resolved in H.
  destruct H as (v & n & _ & _ & Hn & [[_ ->] | (_ & scored & _ & ->)]);
    exists n; (split; [exact Hn |]).
  - simpl. lia.
  - rewrite length_map, length_firstn. lia.
Qed.

Lemma semanticSearch_length (w w' : World) (query : list number)
    (limit threshold : number) (results : list SemanticSearchResult.t) :
  run (ConversationSummaryService.semanticSearch query
         (searchConversationSummaries.effectiveLimit limit) threshold) w
    = (Resolved results, w') ->
  (List.length results <= 20)%nat.
Proof.
  intros H. apply semanticSearch_rows in H. destruct H as (n & Hn & Hlen).
  apply effectiveLimit_rows in Hn. lia.
Qed.


Lemma semanticSearch_journal (w : World) (query : list number)
    (limit threshold : number) :
  journal (snd (run (ConversationSummaryService.semanticSearch query limit threshold) w))
  = SummarySemanticSelect query threshold limit :: journal w.
Proof.
  unfold ConversationSummaryService.semanticSearch.
  run_await_at (SummarySemanticSelect query threshold limit) w.
  exact (exec_journal (SummarySemanticSelect query threshold limit) w).
Qed.





(* ================================================================== *)
(** ** Attaching an embedding                                          *)
(* ================================================================== *)


Lemma elements_in_length (room : N) (xs v : list number) :
  elements_in room xs = Resolved v -> List.length v = List.length xs.
Proof.
  revert room v. induction xs as [| x xs IH]; intros room v; simpl.
  - intros H. injection H as <-. reflexivity.
  - destruct (room =? 0)%N; [discriminate |].
    destruct (float4_in x) as [msg | y]; [discriminate |].
    destruct (elements_in (room - 1) xs) as [ys | err] eqn:E; [| discriminate].
    intros H. injection H as <-. simpl. f_equal. eapply IH. exact E.
Qed.






Lemma elements_in_room (room : N) (xs : list number) :
  forallb readable xs = true -> (N.of_nat (List.length xs) <= room)%N ->
  exists v, elements_in room xs = Resolved v.
Proof.
  revert room. induction xs as [| x xs IH]; intros room; simpl; [eauto |].
  intros H Hroom. apply andb_prop in H. destruct H as [Hx Hxs].
  assert (Hpos : (room =? 0)%N = false) by (apply N.eqb_neq; lia).
  rewrite Hpos.
  unfold readable in Hx. destruct (float4_in x) as [msg | y]; [discriminate |].
  destruct (IH (room - 1)%N Hxs) as [v ->]; [lia | eauto].
Qed.

Lemma vector_in_fitting (embedding : list number) :
  List.length embedding = 1536%nat -> forallb readable embedding = true ->
  exists v, vector_in embedding = Resolved v /\ List.length v = 1536%nat.
Proof.
  intros Hlen Hread. unfold vector_in.
  destruct (elements_in_room 16000 embedding Hread) as [v E].
  { rewrite Hlen. vm_compute. discriminate. }
  rewrite E. pose proof (elements_in_length _ _ _ E) as Hv. rewrite Hlen in Hv.
  rewrite Hv. simpl. eauto.
Qed.

Lemma updateEmbedding_run (id : Z) (embedding : list number) (w : World) :
  run (ConversationSummaryService.updateEmbedding id embedding) w =
  match exec (SummaryUpdateEmbedding id embedding) w with
  | (Resolved affected, w') => (Resolved (0 <? affected)%nat, w')
  | (Rejected e, w') => (Rejected e, w')
  end.
Proof.
  unfold ConversationSummaryService.updateEmbedding.
  rewrite run_bind. run_await_at (SummaryUpdateEmbedding id embedding) w.
  destruct (exec (SummaryUpdateEmbedding id embedding) w) as [[n | e] w']; reflexivity.
Qed.

Lemma put_embedding_run (id : Z) (embedding : list number) (w : World) :
  run (SummaryRoutes.put_embedding (Some id) (Some embedding)) w =
  match run (ConversationSummaryService.updateEmbedding id embedding) w with
  | (Resolved true, w') =>
      (Resolved {| status := 200;
                   body := JsObject
                     [("success", JsBool true);
                      ("message", JsString "Embedding updated successfully")] |}, w')
  | (Resolved false, w') =>
      (Resolved {| status := 404; body := error_body "Summary not found" |}, w')
  | (Rejected e, w') =>
      (Resolved {| status := 500; body := error_body (message e) |}, w')
  end.
Proof.
  unfold SummaryRoutes.put_embedding. rewrite run_try_catch, run_bind.
  destruct (run (ConversationSummaryService.updateEmbedding id embedding) w)
    as [[[|] | e] w']; reflexivity.
Qed.


(* ================================================================== *)
(** ** Listing conversations by topic                                  *)
(* ================================================================== *)


Lemma by_created_at_DESC_total (a b : Conversation.t) :
  by_created_at DESC a b = false -> by_created_at DESC b a = true.
Proof. unfold by_created_at. rewrite Z.leb_gt, Z.leb_le. lia. Qed.

Lemma by_created_at_DESC_trans (a b c : Conversation.t) :
  by_created_at DESC a b = true -> by_created_at DESC b c = true ->
  by_created_at DESC a c = true.
Proof. unfold by_created_at. rewrite !Z.leb_le. lia. Qed.

Lemma sql_limit_checks (limit : number) (n : nat) :
  sql_limit limit = Resolved n ->
  undefined_column limit = None /\ out_of_range limit = None /\
  negative NegativeLimit limit = None /\ rows_of limit = n.
Proof.
  unfold sql_limit, first_error.
  destruct (undefined_column limit); [discriminate |].
  destruct (out_of_range limit); [discriminate |].
  destruct (negative NegativeLimit limit); [discriminate |].
  intros H. injection H as <-. auto.
Qed.

Lemma sql_offset_checks (offset : number) (m : nat) :
  sql_offset offset = Resolved m ->
  undefined_column offset = None /\ out_of_range offset = None /\
  negative NegativeOffset offset = None /\ rows_of offset = m.
Proof.
  unfold sql_offset, first_error.
  destruct (undefined_column offset); [discriminate |].
  destruct (out_of_range offset); [discriminate |].
  destruct (negative NegativeOffset offset); [discriminate |].
  intros H. injection H as <-. auto.
Qed.

Lemma window_resolved {A : Type} (limit offset : number) (n m : nat) (rows : list A) :
  sql_limit limit = Resolved n -> sql_offset offset = Resolved m ->
  window (Some limit) (Some offset) rows = Resolved (firstn n (skipn m rows)).
Proof.
  intros Hn Hm.
  apply sql_limit_checks in Hn. destruct Hn as (L1 & L2 & L3 & <-).
  apply sql_offset_checks in Hm. destruct Hm as (O1 & O2 & O3 & <-).
  unfold window, window_checks. simpl. now rewrite L1, L2, L3, O1, O2, O3.
Qed.

Lemma window_limit {A : Type} (limit : number) (n : nat) (rows : list A) :
  sql_limit limit = Resolved n ->
  window (Some limit) None rows = Resolved (firstn n rows).
Proof.
  intros Hn. apply sql_limit_checks in Hn. destruct Hn as (L1 & L2 & L3 & <-).
  unfold window, window_checks. simpl. now rewrite L1, L2, L3.
Qed.


(* ================================================================== *)
(** ** Two concurrent calls of POST /message for one new session key   *)
(* ================================================================== *)

Lemma run_step {A : Type} (p : Prog A) (w : World) :
  run p w = run (fst (step p w)) (snd (step p w)).
Proof.
  revert w. induction p as [a | e | s k IH | k IH]; intros w; simpl; try reflexivity.
  - destruct (exec s w) as [o w']. reflexivity.
  - apply IH.
Qed.

Lemma find_session_exists (key : string) (d : Database) :
  match find (fun s => String.eqb (Session.session_id s) key) (sessions d) with
  | Some _ => session_exists key d = true
  | None => session_exists key d = false
  end.
Proof.
  unfold session_exists. induction (sessions d) as [| s l IH]; simpl; [reflexivity |].
  destruct (String.eqb (Session.session_id s) key); simpl; [reflexivity | exact IH].
Qed.

Lemma exec_no_fault (s : Statement) (w : World) :
  faults w = [] ->
  exec s w = (fst (execute s (clock w) (db w)),
              ticked s (snd (execute s (clock w) (db w))) w).
Proof.
  intros H. rewrite exec_healthy by (rewrite H; reflexivity).
  unfold ticked. rewrite H. reflexivity.
Qed.

Lemma valid_message_passes (req : ChatRoutes.MessageBody) :
  ChatRoutes.valid_message req = true ->
  ChatRoutes.post_message req =
  try_catch
    (found <- SessionService.findBySessionId (ChatRoutes.session_id req) ;;
     _ <- ChatRoutes.ensure_session req found ;;
     ChatRoutes.append_turn req)
    ChatRoutes.on_error.
Proof.
  unfold ChatRoutes.valid_message, ChatRoutes.post_message. intros H.
  apply andb_prop in H. destruct H as [H1 H2]. rewrite H1, H2. reflexivity.
Qed.

Lemma step_lookup (req : ChatRoutes.MessageBody) (w : World) :
  ChatRoutes.valid_message req = true -> faults w = [] ->
  step (ChatRoutes.post_message req) w =
  (if session_exists (ChatRoutes.session_id req) (db w)
   then ChatRoutes.append_only req else ChatRoutes.create_then_append req,
   ticked (SessionFindOne (ChatRoutes.session_id req)) (db w) w).
Proof.
  intros Hv Hf. rewrite (valid_message_passes req Hv). simpl.
  rewrite (exec_no_fault _ w Hf). simpl.
  pose proof (find_session_exists (ChatRoutes.session_id req) (db w)) as Hfind.
  destruct (find _ (sessions (db w))); rewrite Hfind; reflexivity.
Qed.

Lemma step_create (req : ChatRoutes.MessageBody) (w : World) :
  faults w = [] ->
  step (ChatRoutes.create_then_append req) w =
  (match fst (session_create (clock w) (session_dto req) (db w)) with
   | Resolved _ => ChatRoutes.append_only req
   | Rejected e => ChatRoutes.on_error e
   end,
   ticked (SessionCreate (session_dto req))
     (snd (session_create (clock w) (session_dto req) (db w))) w).
Proof.
  intros Hf. unfold ChatRoutes.create_then_append. simpl.
  fold (session_dto req).
  rewrite (exec_no_fault _ w Hf). simpl.
  destruct (fst (session_create (clock w) (session_dto req) (db w))); reflexivity.
Qed.

Lemma step_append (req : ChatRoutes.MessageBody) (w : World) :
  faults w = [] ->
  let dto := conversation_dto req (fst (fresh_uuid w)) in
  step (ChatRoutes.append_only req) w =
  (match fst (conversation_create (clock w) dto (db w)) with
   | Resolved conversation => Ret (created conversation)
   | Rejected e => ChatRoutes.on_error e
   end,
   ticked (ConversationCreate dto) (snd (conversation_create (clock w) dto (db w)))
     (snd (fresh_uuid w))).
Proof.
  intros Hf dto. subst dto.
  unfold ChatRoutes.append_only, ChatRoutes.append_turn, conversation_dto. simpl.
  rewrite exec_no_fault by exact Hf. simpl.
  destruct (conversation_create (clock w) _ (db w)) as [[c | e] d']; reflexivity.
Qed.

(* ------------------------------------------------------------------ *)
(** *** The identifiers drawn by uuidv4                                *)

Lemma has_nul_app (a b : string) : has_nul (a ++ b) = has_nul a || has_nul b.
Proof.
  induction a as [| c a IH]; cbn [append has_nul]; [reflexivity |].
  now rewrite IH, orb_assoc.
Qed.

Lemma char_length_app (a b : string) :
  char_length (a ++ b) = (char_length a + char_length b)%nat.
Proof.
  induction a as [| c a IH]; cbn [append char_length]; [reflexivity |].
  rewrite IH. destruct ((128 <=? byte c) && (byte c <=? 191))%nat; reflexivity.
Qed.

Lemma hex_digit_plain (n : N) :
  has_nul (String (hex_digit n) EmptyString) = false /\
  char_length (String (hex_digit n) EmptyString) = 1%nat.
Proof.
  unfold hex_digit. generalize (N.to_nat n). intros m.
  do 16 (destruct m as [| m]; [split; reflexivity |]).
  destruct m; split; reflexivity.
Qed.

Lemma hex_plain (width : nat) (n : N) :
  has_nul (hex width n) = false /\ char_length (hex width n) = width.
Proof.
  revert n. induction width as [| k IH]; intros n; simpl; [split; reflexivity |].
  destruct (IH (n / 16)%N) as [H1 H2].
  destruct (hex_digit_plain (n mod 16)) as [H3 H4].
  rewrite has_nul_app, char_length_app, H1, H2, H3, H4. split; [reflexivity | lia].
Qed.

Lemma uuid_of_plain (n : nat) :
  is_text (uuid_of n) = true /\ fits 255 (uuid_of n) = true.
Proof.
  unfold is_text, fits, uuid_of.
  destruct (hex_plain 8 (N.of_nat n / 2 ^ 16)) as [H1 H2].
  destruct (hex_plain 4 (N.of_nat n)) as [H3 H4].
  rewrite !has_nul_app, !char_length_app, H1, H2, H3, H4. split; reflexivity.
Qed.

(* ------------------------------------------------------------------ *)
(** *** The two inserts, seen from the invariant                       *)

Lemma storable_texts (req : ChatRoutes.MessageBody) :
  storable req = true ->
  is_text (ChatRoutes.content req) = true /\
  is_text (ChatRoutes.session_id req) = true /\
  fits 255 (ChatRoutes.session_id req) = true.
Proof.
  unfold storable. intros H.
  apply andb_prop in H. destruct H as [H H3].
  apply andb_prop in H. destruct H as [H1 H2]. auto.
Qed.

Lemma session_create_spec (now : Z) (dto : CreateSessionDTO) (d : Database) :
  cs_title dto = None ->
  is_text (cs_session_id dto) = true -> fits 255 (cs_session_id dto) = true ->
  user_exists (cs_user_id dto) d = true ->
  let d' := snd (session_create now dto d) in
  users d' = users d /\ conversations d' = conversations d /\
  session_exists (cs_session_id dto) d' = true /\
  (if session_exists (cs_session_id dto) d
   then fst (session_create now dto d)
          = Rejected (UniqueConstraintError "sessions" "session_id") /\
        sessions d' = sessions d
   else (exists row, fst (session_create now dto d) = Resolved row) /\
        List.length (sessions_with (cs_session_id dto) d')
          = S (List.length (sessions_with (cs_session_id dto) d))).
Proof.
  intros Ht Htext Hfits Hu. unfold session_create.
  rewrite Ht, Htext, Hfits. cbn [optional andb negb].
  destruct (session_exists (cs_session_id dto) d) eqn:He; simpl.
  - repeat split; eauto.
  - rewrite Hu. simpl. repeat split; eauto.
    + unfold session_exists in *. simpl. rewrite existsb_app. simpl.
      rewrite String.eqb_refl. now rewrite orb_true_r.
    + unfold sessions_with. simpl. rewrite filter_app, length_app. simpl.
      rewrite String.eqb_refl. simpl. lia.
Qed.

Lemma conversation_create_spec (now : Z) (dto : CreateConversationDTO) (d : Database) :
  is_text (cc_content dto) = true ->
  is_text (cc_session_id dto) = true -> fits 255 (cc_session_id dto) = true ->
  is_text (cc_conversation_id dto) = true -> fits 255 (cc_conversation_id dto) = true ->
  is_role (cc_role dto) = true ->
  user_exists (cc_user_id dto) d = true ->
  session_exists (cc_session_id dto) d = true ->
  let d' := snd (conversation_create now dto d) in
  (exists row, fst (conversation_create now dto d) = Resolved row) /\
  users d' = users d /\ sessions d' = sessions d /\
  List.length (conversations d') = S (List.length (conversations d)).
Proof.
  intros H1 H2 H3 H4 H5 Hr Hu Hs. unfold conversation_create.
  rewrite H1, H2, H3, H4, H5, Hr, Hu, Hs. simpl.
  repeat split; eauto. rewrite length_app. simpl. lia.
Qed.

Lemma race_invariant_sym (key : string) (ua ub : Z) (base : nat)
    (before : list Statement) (sa sb : Stage) (w : World) :
  race_invariant key ua ub base before sa sb w ->
  race_invariant key ub ua base before sb sa w.
Proof.
  unfold race_invariant.
  intros (Hf & Hua & Hub & Hpast & Hwill & Hconv & Hins & Hone &
          sent & Hj & Hex & Hsent & Hfound).
  repeat split; try assumption.
  - rewrite orb_comm. exact Hpast.
  - intros H. rewrite orb_comm. now apply Hwill.
  - lia.
  - lia.
  - exists sent. repeat split; try assumption.
    + lia.
    + now rewrite orb_comm.
Qed.

(** One turn of the first call keeps the invariant and brings the call
    nearer to its response. *)
Lemma race_step (key : string) (ua ub : Z) (base : nat) (before : list Statement)
    (req : ChatRoutes.MessageBody) (sa sb : Stage) (p : Prog Response) (w : World) :
  ChatRoutes.valid_message req = true -> storable req = true ->
  ChatRoutes.session_id req = key -> ChatRoutes.user_id req = ua ->
  at_stage req sa p -> race_invariant key ua ub base before sa sb w ->
  exists sa',
    at_stage req sa' (fst (step p w)) /\
    race_invariant key ua ub base before sa' sb (snd (step p w)) /\
    (remaining sa' <= remaining sa - 1)%nat.
Proof.
  intros Hvalid Hstore Hkey Huser Hat
         (Hf & Hua & Hub & Hpast & Hwill & Hconv & Hins & Hone &
          sent & Hj & Hex & Hsent & Hfound).
  destruct (storable_texts req Hstore) as (Hcontent & Hktext & Hkfits).
  destruct sa as [| | c | c |]; simpl in Hat.
  - (* Lookup *)
    subst p. rewrite (step_lookup req w Hvalid Hf). rewrite Hkey. simpl.
    destruct (session_exists key (db w)) eqn:He.
    + exists (Append false). unfold race_invariant. simpl. rewrite He.
      repeat split; auto.
      exists (SessionFindOne key :: sent). simpl.
      rewrite Hj, <- Hex, String.eqb_refl. simpl. repeat split; auto.
    + exists Create. unfold race_invariant. simpl. rewrite He.
      repeat split; auto.
      exists (SessionFindOne key :: sent). simpl.
      rewrite Hj, <- Hex, String.eqb_refl. simpl. repeat split; auto.
  - (* Create *)
    subst p. rewrite (step_create req w Hf). simpl.
    assert (Hu : user_exists (cs_user_id (session_dto req)) (db w) = true)
      by (simpl; now rewrite Huser).
    pose proof (session_create_spec (clock w) (session_dto req) (db w) eq_refl
                  Hktext Hkfits Hu) as Hspec.
    simpl in Hspec. rewrite Hkey in Hspec.
    destruct Hspec as (Husers & Hconvs & Hex' & Hcase).
    assert (Hmark : inserts_key key (SessionCreate (session_dto req)) = true)
      by (simpl; rewrite Hkey; apply String.eqb_refl).
    destruct (session_exists key (db w)) eqn:He.
    + destruct Hcase as [Hrej Hsame]. rewrite Hrej.
      exists Refused. split; [reflexivity |].
      split; [| simpl; lia].
      unfold race_invariant, user_exists, sessions_with in *. simpl.
      rewrite Husers, Hconvs, Hex', Hsame.
      repeat split; auto.
      exists (SessionCreate (session_dto req) :: sent).
      unfold session_inserts in *. cbn [filter existsb lookup_after_insert].
      rewrite Hmark, Hj. simpl. repeat split; auto.
    + destruct Hcase as [[row Hres] Hlen]. rewrite Hres.
      exists (Append true). split; [reflexivity |].
      split; [| simpl; lia].
      assert (Hnone : List.length (sessions_with key (db w)) = 0%nat).
      { unfold sessions_with, session_exists in *.
        clear - He. induction (sessions (db w)) as [| x l IH]; simpl in *;
          [reflexivity |].
        destruct (String.eqb (Session.session_id x) key); simpl in *;
          [discriminate | now apply IH]. }
      unfold race_invariant, user_exists in *. simpl.
      rewrite Husers, Hconvs, Hex', Hlen.
      repeat split; auto; try lia.
      exists (SessionCreate (session_dto req) :: sent).
      unfold session_inserts in *. cbn [filter existsb lookup_after_insert].
      rewrite Hmark, Hj. simpl. repeat split; auto.
  - (* Append *)
    subst p. pose proof (step_append req w Hf) as Hstep. cbv zeta in Hstep.
    set (dto := conversation_dto req (fst (fresh_uuid w))) in Hstep.
    assert (Hrole : is_role (cc_role dto) = true).
    { unfold ChatRoutes.valid_message in Hvalid.
      apply andb_prop in Hvalid. now destruct Hvalid. }
    assert (Hu : user_exists (cc_user_id dto) (db w) = true)
      by (simpl; now rewrite Huser).
    assert (Hexists : session_exists key (db w) = true) by (now apply Hpast).
    assert (Hs : session_exists (cc_session_id dto) (db w) = true)
      by (simpl; now rewrite Hkey).
    destruct (uuid_of_plain (uuid_seq w)) as [Hutext Hufits].
    pose proof (conversation_create_spec (clock w) dto (db w) Hcontent Hktext Hkfits
                  Hutext Hufits Hrole Hu Hs) as Hspec.
    cbv zeta in Hspec. destruct Hspec as ([row Hres] & Husers & Hsess & Hlen).
    rewrite Hres in Hstep. rewrite Hstep.
    exists (Appended c). split; [simpl; now eauto |].
    split; [| simpl; lia].
    unfold race_invariant, user_exists, session_exists, sessions_with in *.
    cbn [fst snd db ticked faults journal fresh_uuid].
    rewrite Husers, Hsess, Hlen, Hconv.
    repeat split; auto; try (simpl; lia).
    exists (ConversationCreate dto :: sent).
    unfold session_inserts in *. cbn [filter existsb lookup_after_insert inserts_key].
    rewrite Hj. simpl. repeat split; auto.
  - (* Appended *)
    destruct Hat as (r & ->). simpl.
    exists (Appended c). split; [simpl; eauto |].
    split; [| simpl; lia]. unfold race_invariant. repeat split; auto. exists sent. auto.
  - (* Refused *)
    subst p. simpl.
    exists Refused. split; [reflexivity |].
    split; [| simpl; lia]. unfold race_invariant. repeat split; auto. exists sent. auto.
Qed.

Section Race.
Variables (key : string) (ua ub : Z) (base : nat) (before : list Statement).
Variables (reqA reqB : ChatRoutes.MessageBody).
Hypothesis validA : ChatRoutes.valid_message reqA = true.
Hypothesis validB : ChatRoutes.valid_message reqB = true.
Hypothesis storeA : storable reqA = true.
Hypothesis storeB : storable reqB = true.
Hypothesis keyA : ChatRoutes.session_id reqA = key.
Hypothesis keyB : ChatRoutes.session_id reqB = key.
Hypothesis userA : ChatRoutes.user_id reqA = ua.
Hypothesis userB : ChatRoutes.user_id reqB = ub.

Lemma race_interleave (schedule : list bool) :
  forall (sa sb : Stage) (p q : Prog Response) (w : World),
    at_stage reqA sa p -> at_stage reqB sb q ->
    race_invariant key ua ub base before sa sb w ->
    exists sa' sb',
      at_stage reqA sa' (fst (fst (interleave schedule p q w))) /\
      at_stage reqB sb' (snd (fst (interleave schedule p q w))) /\
      race_invariant key ua ub base before sa' sb' (snd (interleave schedule p q w)).
Proof.
  induction schedule as [| turn rest IH]; intros sa sb p q w Hp Hq Hinv; simpl.
  - eauto.
  - destruct turn.
    + destruct (race_step key ua ub base before reqA sa sb p w validA storeA keyA
                  userA Hp Hinv) as (sa' & Hp' & Hinv' & _).
      destruct (step p w) as [p' w']. simpl in *. eapply IH; eassumption.
    + apply race_invariant_sym in Hinv.
      destruct (race_step key ub ua base before reqB sb sa q w validB storeB keyB
                  userB Hq Hinv) as (sb' & Hq' & Hinv' & _).
      apply race_invariant_sym in Hinv'.
      destruct (step q w) as [q' w']. simpl in *. eapply IH; eassumption.
Qed.

Lemma race_finish (n : nat) :
  forall (sa sb : Stage) (p : Prog Response) (w : World),
    (remaining sa <= n)%nat ->
    at_stage reqA sa p -> race_invariant key ua ub base before sa sb w ->
    exists r sa',
      fst (run p w) = Resolved r /\
      at_stage reqA sa' (Ret r) /\ remaining sa' = 0%nat /\
      race_invariant key ua ub base before sa' sb (snd (run p w)).
Proof.
  induction n as [| n IH]; intros sa sb p w Hn Hp Hinv.
  - destruct sa as [| | c | c |]; simpl in Hn; try lia.
    + destruct Hp as (row & ->). exists (created row), (Appended c).
      split; [reflexivity | split; [simpl; now eauto | split; [reflexivity | exact Hinv]]].
    + simpl in Hp. subst p. exists (refused "Validation error"), Refused.
      split; [reflexivity | split; [reflexivity | split; [reflexivity | exact Hinv]]].
  - destruct (race_step key ua ub base before reqA sa sb p w validA storeA keyA
                userA Hp Hinv) as (sa' & Hp' & Hinv' & Hless).
    rewrite run_step. eapply IH; [| exact Hp' | exact Hinv']. lia.
Qed.

End Race.

Lemma sessions_with_none (key : string) (d : Database) :
  session_exists key d = false -> sessions_with key d = [].
Proof.
  unfold session_exists, sessions_with.
  induction (sessions d) as [| s l IH]; simpl; [reflexivity |].
  destruct (String.eqb (Session.session_id s) key); simpl; [discriminate | exact IH].
Qed.

(** What a call that is through tells of its stage. *)
Lemma remaining_done (req : ChatRoutes.MessageBody) (st : Stage) (r : Response) :
  at_stage req st (Ret r) -> remaining st = 0%nat ->
  answered r /\
  past_lookup st = true /\
  will_append st = (status r =? 201)%nat /\
  turns st = (if (status r =? 201)%nat then 1 else 0)%nat /\
  (status r = 500%nat <-> st = Refused) /\
  (status r = 201%nat \/ status r = 500%nat).
Proof.
  destruct st as [| | c | c |]; simpl; try discriminate.
  - intros (row & Heq) _. injection Heq as ->. unfold answered. simpl.
    repeat split; eauto; try discriminate.
  - intros Heq _. injection Heq as ->. unfold answered. simpl.
    repeat split; auto.
Qed.

(** C8 (as amended): two calls of POST /message for the same session key,
    unknown before, interleaved in any way on a reachable store that
    takes their texts.  Both calls are answered, each with 201 and the
    conversation it appended or with 500 "Validation error"; exactly one
    session row carries the key afterwards; at least one call is
    answered 201; a conversation is appended for each call answered 201
    and for no other.  Both calls are answered 201 exactly when one of
    them looked the session up after the other had inserted it; a call
    is answered 500 exactly when both have sent their session insert:
    the second insert meets the uniqueness constraint, and the call that
    sent it is not continued. *)
Theorem concurrent_messages_one_session (reqA reqB : ChatRoutes.MessageBody)
    (w : World) (schedule : list bool) :
  ChatRoutes.valid_message reqA = true ->
  ChatRoutes.valid_message reqB = true ->
  storable reqA = true ->
  storable reqB = true ->
  ChatRoutes.session_id reqB = ChatRoutes.session_id reqA ->
  faults w = [] ->
  user_exists (ChatRoutes.user_id reqA) (db w) = true ->
  user_exists (ChatRoutes.user_id reqB) (db w) = true ->
  session_exists (ChatRoutes.session_id reqA) (db w) = false ->
  exists ra rb w' sent,
    run_concurrent schedule (ChatRoutes.post_message reqA)
      (ChatRoutes.post_message reqB) w = (Resolved ra, Resolved rb, w') /\
    journal w' = sent ++ journal w /\
    List.length (sessions_with (ChatRoutes.session_id reqA) (db w')) = 1%nat /\
    answered ra /\ answered rb /\
    (status ra = 201%nat \/ status rb = 201%nat) /\
    List.length (conversations (db w'))
      = (List.length (conversations (db w))
         + (if (status ra =? 201)%nat then 1 else 0)
         + (if (status rb =? 201)%nat then 1 else 0))%nat /\
    (status ra = 201%nat /\ status rb = 201%nat
     <-> lookup_after_insert (ChatRoutes.session_id reqA) sent = true) /\
    (status ra = 500%nat \/ status rb = 500%nat
     <-> session_inserts (ChatRoutes.session_id reqA) sent = 2%nat).
Proof.
  intros HvA HvB HsA HsB Hkey Hf HuA HuB Hnew.
  set (key := ChatRoutes.session_id reqA) in *.
  set (ua := ChatRoutes.user_id reqA) in *.
  set (ub := ChatRoutes.user_id reqB) in *.
  set (base := List.length (conversations (db w))).
  assert (Hinit : race_invariant key ua ub base (journal w) Lookup Lookup w).
  { unfold race_invariant. rewrite Hnew, (sessions_with_none key (db w) Hnew).
    simpl. repeat split; auto; try discriminate; try (unfold base; lia).
    exists []. simpl. auto. }
  destruct (race_interleave key ua ub base (journal w) reqA reqB HvA HvB HsA HsB
              eq_refl Hkey eq_refl eq_refl schedule Lookup Lookup _ _ w
              eq_refl eq_refl Hinit)
    as (sa1 & sb1 & Hp1 & Hq1 & Hinv1).
  unfold run_concurrent.
  destruct (interleave schedule (ChatRoutes.post_message reqA)
              (ChatRoutes.post_message reqB) w) as [[p1 q1] w1].
  simpl in Hp1, Hq1, Hinv1.
  destruct (race_finish key ua ub base (journal w) reqA HvA HsA eq_refl eq_refl
              3 sa1 sb1 p1 w1)
    as (ra & sa2 & Hra & Hpa & Hdone_a & Hinv2); auto.
  { destruct sa1; simpl; lia. }
  destruct (run p1 w1) as [oa w2]. simpl in Hra, Hinv2. subst oa.
  apply race_invariant_sym in Hinv2.
  destruct (race_finish key ub ua base (journal w) reqB HvB HsB Hkey eq_refl
              3 sb1 sa2 q1 w2)
    as (rb & sb2 & Hrb & Hpb & Hdone_b & Hinv3); auto.
  { destruct sb1; simpl; lia. }
  destruct (run q1 w2) as [ob w3]. simpl in Hrb, Hinv3. subst ob.
  apply race_invariant_sym in Hinv3.
  destruct (remaining_done reqA sa2 ra Hpa Hdone_a)
    as (Hans_a & Hpast_a & Hwa & Hta & Hra500 & Hsa).
  destruct (remaining_done reqB sb2 rb Hpb Hdone_b)
    as (Hans_b & Hpast_b & Hwb & Htb & Hrb500 & Hsb).
  destruct Hinv3 as (_ & _ & _ & Hpast & Hwill & Hconv & Hins & Hone &
                     sent & Hj & Hex & Hsent & Hfound).
  assert (Hexists : session_exists key (db w3) = true).
  { apply Hpast. now rewrite Hpast_a. }
  specialize (Hwill Hexists). rewrite Hwa, Hwb in Hwill.
  rewrite Hta, Htb in Hconv.
  assert (Hsome : (1 <= List.length (sessions_with key (db w3)))%nat).
  { unfold sessions_with, session_exists in *. clear - Hexists.
    induction (sessions (db w3)) as [| x l IH]; simpl in *; [discriminate |].
    destruct (String.eqb (Session.session_id x) key); simpl in *; [lia | auto]. }
  exists ra, rb, w3, sent. split; [reflexivity |].
  split; [exact Hj |]. split; [lia |].
  split; [exact Hans_a |]. split; [exact Hans_b |].
  split.
  { apply orb_prop in Hwill.
    destruct Hwill as [H | H]; apply Nat.eqb_eq in H; auto. }
  split; [exact Hconv |].
  rewrite Hfound, Hsent.
  clear - Hpa Hpb Hdone_a Hdone_b Hins Hone Hsome Hra500 Hrb500 Hsa Hsb.
  destruct sa2 as [| | ca | ca |]; simpl in Hdone_a; try discriminate;
    destruct sb2 as [| | cb | cb |]; simpl in Hdone_b; try discriminate;
    try destruct ca; try destruct cb; simpl in *;
    try (destruct Hpa as (rowa & Ea); injection Ea as ->);
    try (destruct Hpb as (rowb & Eb); injection Eb as ->);
    try (injection Hpa as ->); try (injection Hpb as ->);
    simpl in *; try lia;
    (split; split; intros H; try reflexivity; try lia; try discriminate; auto;
     try (destruct H as [H | H]; discriminate);
     try (destruct H as [H1 H2]; discriminate)).
Qed.

(* ================================================================== *)
(** ** What programs keep of the database                              *)
(* ================================================================== *)

Lemma exec_db (s : Statement) (w : World) :
  db (snd (exec s w)) = db w \/
  db (snd (exec s w)) = snd (execute s (clock w) (db w)).
Proof.
  unfold exec. destruct (faults w) as [| [msg |] rest]; simpl; auto;
    destruct (execute s (clock w) (db w)); simpl; auto.
Qed.

Section Keeps.
Variable P : Statement -> Prop.
Variable I : Database -> Prop.
Hypothesis execute_keeps :
  forall s now d, P s -> I d -> I (snd (execute s now d)).

Lemma exec_keeps (s : Statement) (w : World) :
  P s -> I (db w) -> I (db (snd (exec s w))).
Proof.
  intros Hs Hw. destruct (exec_db s w) as [-> | ->]; auto.
Qed.

Lemma run_keeps {A : Type} (p : Prog A) (w : World) :
  issues_only P p -> I (db w) -> I (db (snd (run p w))).
Proof.
  intros Hp. revert w.
  induction Hp as [a | e | s k Hs Hk IH | k Hk IH]; intros w Hw; simpl; auto.
  pose proof (exec_keeps s w Hs Hw) as H.
  destruct (exec s w) as [o w1]. apply IH. exact H.
Qed.

End Keeps.

Lemma execute_read_only (s : Statement) (now : Z) (d : Database) :
  read_only s -> snd (execute s now d) = d.
Proof. destruct s; simpl; intros H; try reflexivity; contradiction. Qed.

Lemma run_read_only {A : Type} (p : Prog A) (w : World) :
  issues_only read_only p -> db (snd (run p w)) = db w.
Proof.
  intros Hp.
  apply (run_keeps read_only (fun d => d = db w)); [| exact Hp | reflexivity].
  intros s now d Hs ->. now apply execute_read_only.
Qed.

Lemma semantic_handler_issues (P : Statement -> Prop)
    (params : searchConversationSummaries.Params) :
  (forall e t l, P (SummarySemanticSelect e t l)) ->
  (forall w_ o l f, P (ConversationFindAll w_ o l f)) ->
  issues_only P (searchConversationSummaries.handler params).
Proof.
  intros Hselect Hfind.
  destruct (searchConversationSummaries.accepted params) eqn:Hacc.
  - rewrite (handler_accepted params Hacc).
    apply issues_only_try_catch; [| intros; constructor].
    unfold searchConversationSummaries.search.
    apply issues_only_bind.
    + unfold ConversationSummaryService.semanticSearch.
      apply (issues_only_await P (SummarySemanticSelect _ _ _)). apply Hselect.
    + intros found. destruct (List.length found =? 0)%nat; [constructor |].
      apply issues_only_bind; [| intros; constructor].
      destruct (searchConversationSummaries.include_of params); [| constructor].
      apply issues_only_for_each. intros r.
      unfold searchConversationSummaries.attach.
      destruct (0 <? List.length (searchConversationSummaries.conversationIds r))%nat;
        [| constructor].
      apply issues_only_bind; [| intros; constructor].
      unfold ConversationService.findByConversationIds.
      destruct (List.length (searchConversationSummaries.conversationIds r) =? 0)%nat;
        [constructor |].
      apply (issues_only_await P (ConversationFindAll _ _ _ _)). apply Hfind.
  - destruct (handler_not_accepted params Hacc) as [error ->]. constructor.
Qed.

Lemma text_handler_issues (P : Statement -> Prop)
    (params : textSearchConversationSummaries.Params) :
  (forall p_ l, P (SummaryFindAllILike p_ l)) ->
  issues_only P (textSearchConversationSummaries.handler params).
Proof.
  intros Hfind. unfold textSearchConversationSummaries.handler.
  destruct (negb _); [constructor |].
  apply issues_only_try_catch; [| intros; constructor].
  unfold textSearchConversationSummaries.search.
  apply issues_only_bind; [| intros; constructor].
  unfold ConversationSummaryService.textSearch.
  apply (issues_only_await P (SummaryFindAllILike _ _)). apply Hfind.
Qed.

Lemma list_handler_issues (P : Statement -> Prop)
    (params : getConversationsList.Params) :
  (forall w_ o l f, P (ConversationFindAll w_ o l f)) ->
  issues_only P (getConversationsList.handler params).
Proof.
  intros Hfind. unfold getConversationsList.handler.
  apply issues_only_try_catch; [| intros; constructor].
  apply issues_only_bind; [| intros; constructor].
  unfold ConversationService.searchByTopic, ConversationService.findAll.
  destruct (_ || _);
    apply (issues_only_await P (ConversationFindAll _ _ _ _)); apply Hfind.
Qed.

(** X1: the three MCP tools only read.  Whatever the input and the state
    of the store, a call leaves every table as it was. *)
Theorem search_tools_read_only (w : World) :
  (forall params,
      db (snd (run (searchConversationSummaries.handler params) w)) = db w) /\
  (forall params,
      db (snd (run (textSearchConversationSummaries.handler params) w)) = db w) /\
  (forall params,
      db (snd (run (getConversationsList.handler params) w)) = db w).
Proof.
  repeat split; intros params; apply run_read_only.
  - apply semantic_handler_issues; intros; exact I.
  - apply text_handler_issues; intros; exact I.
  - apply list_handler_issues; intros; exact I.
Qed.

(* ================================================================== *)
(** ** More on the services                                            *)
(* ================================================================== *)

Lemma distances_sound (query : list number) (rows : list ConversationSummary.t)
    (scored : list (ConversationSummary.t * number))
    (row : ConversationSummary.t) (d : number) :
  distances query rows = Resolved scored -> In (row, d) scored ->
  In row rows /\
  exists e, ConversationSummary.summary_embedding row = Some e /\
            d = cosine_distance e query.
Proof.
  revert scored.
  induction rows as [| r rows IH]; intros scored Hd Hin; simpl in Hd.
  - injection Hd as <-. contradiction.
  - destruct (ConversationSummary.summary_embedding r) as [e |] eqn:He.
    + destruct (List.length e =? List.length query)%nat; [| discriminate].
      destruct (distances query rows) as [rest |]; [| discriminate].
      injection Hd as <-. destruct Hin as [Heq | Hin].
      * injection Heq as <- <-. split; [now left | eauto].
      * destruct (IH rest eq_refl Hin) as [Hrow Hex]. split; [now right | exact Hex].
    + destruct (IH scored Hd Hin) as [Hrow Hex]. split; [now right | exact Hex].
Qed.

Lemma semanticSearch_db (w : World) (query : list number) (limit threshold : number) :
  db (snd (run (ConversationSummaryService.semanticSearch query limit threshold) w))
  = db w.
Proof.
  apply run_read_only. unfold ConversationSummaryService.semanticSearch.
  apply (issues_only_await read_only (SummarySemanticSelect _ _ _)). exact I.
Qed.

(** X2: a successful [semanticSearch] returns at most as many results as
    the limit allows, the limit being rounded to the nearest integer as
    the store reads it; each of them is a stored summary that has an
    embedding, with [1 - distance] as its score, the distance being
    taken to the query as the store reads it into a vector; and the
    search changes no table. *)
Theorem semanticSearch_returns_embedded_summaries (w w' : World)
    (query : list number) (limit threshold : number)
    (results : list SemanticSearchResult.t) :
  run (ConversationSummaryService.semanticSearch query limit threshold) w
    = (Resolved results, w') ->
  exists n v,
    sql_limit limit = Resolved n /\ vector_in query = Resolved v /\
    (List.length results <= n)%nat /\
    Forall (fun r => exists row e,
                In row (conversations_summary (db w)) /\
                ConversationSummary.summary_embedding row = Some e /\
                r = to_result (row, cosine_distance e v)) results /\
    db w' = db w.
Proof.
  intros Hrun.
  pose proof (semanticSearch_db w query limit threshold) as Hdb.
  rewrite Hrun in Hdb. simpl in Hdb.
  apply semanticSearch_resolved in Hrun.
  destruct Hrun as (v & n & Hv & _ & Hn & [[_ ->] | (_ & scored & Hd & ->)]);
    exists n, v; (split; [exact Hn |]); (split; [exact Hv |]).
  - split; [simpl; lia |]. split; [constructor | exact Hdb].
  - split; [rewrite length_map, length_firstn; lia |].
    split; [| exact Hdb].
    rewrite Forall_forall. intros r Hr.
    apply in_map_iff in Hr. destruct Hr as ([row d] & <- & Hin).
    apply firstn_In in Hin.
    apply (Permutation_in _ (Permutation_sym (order_by_perm nearer _))) in Hin.
    apply filter_In in Hin. destruct Hin as [Hin _].
    destruct (distances_sound _ _ _ _ _ Hd Hin) as (Hrow & e & He & ->).
    exists row, e. auto.
Qed.

Lemma by_created_at_ASC_total (a b : Conversation.t) :
  by_created_at ASC a b = false -> by_created_at ASC b a = true.
Proof. unfold by_created_at. rewrite Z.leb_gt, Z.leb_le. lia. Qed.

Lemma by_created_at_ASC_trans (a b c : Conversation.t) :
  by_created_at ASC a b = true -> by_created_at ASC b c = true ->
  by_created_at ASC a c = true.
Proof. unfold by_created_at. rewrite !Z.leb_le. lia. Qed.

(** X4: [findByConversationIds] returns the stored conversations whose
    conversation_id is one of the ids, the oldest first; an id that no
    conversation has is passed over.  For an empty list of ids it
    resolves with the empty list and sends nothing to the store. *)
Theorem findByConversationIds_selects (w : World) (conversationIds : list string) :
  (conversationIds = [] ->
   run (ConversationService.findByConversationIds conversationIds) w
     = (Resolved [], w)) /\
  (hd None (faults w) = None ->
   exists rows w',
     run (ConversationService.findByConversationIds conversationIds) w
       = (Resolved rows, w') /\
     db w' = db w /\
     (forall c, In c rows <->
                In c (conversations (db w)) /\
                In (Conversation.conversation_id c) conversationIds) /\
     StronglySorted
       (fun a b => (Conversation.created_at a <= Conversation.created_at b)%Z) rows).
Proof.
  split.
  - intros ->. reflexivity.
  - intros Hhealthy. unfold ConversationService.findByConversationIds.
    destruct conversationIds as [| i ids].
    + simpl. exists [], w.
      split; [reflexivity | split; [reflexivity | split; [| apply SSorted_nil]]].
      intros c. simpl. tauto.
    + change ((List.length (i :: ids) =? 0)%nat) with false. cbv iota.
      run_await_at (ConversationFindAll (WhereConversationIdIn (i :: ids)) ASC None None) w.
      rewrite exec_healthy by exact Hhealthy.
      cbn [execute fst snd]. unfold conversation_find_all, window. simpl first_error.
      cbv iota.
      eexists. eexists. split; [reflexivity |]. split; [reflexivity |]. split.
      * intros c. split.
        -- intros Hc.
           apply (Permutation_in _ (Permutation_sym (order_by_perm _ _))) in Hc.
           apply filter_In in Hc. destruct Hc as [Hc Hm]. split; [exact Hc |].
           unfold conversation_matches in Hm. apply existsb_exists in Hm.
           destruct Hm as (x & Hx & Heq). apply String.eqb_eq in Heq.
           now rewrite Heq.
        -- intros [Hc Hid].
           apply (Permutation_in _ (order_by_perm _ _)).
           apply filter_In. split; [exact Hc |].
           unfold conversation_matches. apply existsb_exists.
           exists (Conversation.conversation_id c). split; [exact Hid |].
           apply String.eqb_refl.
      * rewrite <- (map_id (order_by _ _)).
        apply StronglySorted_map with (R := fun a b => by_created_at ASC a b = true).
        -- intros a b Hab. unfold by_created_at in Hab. now apply Z.leb_le in Hab.
        -- apply order_by_sorted;
             [exact by_created_at_ASC_total | exact by_created_at_ASC_trans].
Qed.

(* ================================================================== *)
(** ** More on the tools                                               *)
(* ================================================================== *)

Lemma search_counts (patientMessage : string) (queryEmbedding : list number)
    (limit threshold : number) (includeConversations : bool) (w w' : World)
    (r : ToolResult) (items : list JsValue) :
  run (searchConversationSummaries.search patientMessage queryEmbedding
         limit threshold includeConversations) w = (Resolved r, w') ->
  field "results" (payload r) = Some (JsArray items) ->
  field "totalMatches" (payload r)
    = Some (JsNumber (of_nat (List.length items))).
Proof.
  unfold searchConversationSummaries.search. rewrite run_bind.
  destruct (run (ConversationSummaryService.semanticSearch _ _ _) w)
    as [[found | e] w1]; [| discriminate].
  destruct (List.length found =? 0)%nat.
  - simpl. intros H. injection H as <- _. simpl.
    intros Hf. injection Hf as <-. reflexivity.
  - rewrite run_bind.
    destruct (run (if includeConversations then _ else _) w1)
      as [[enriched | e] w2] eqn:He; [| discriminate].
    simpl. intros H. injection H as <- _. simpl.
    intros Hf. injection Hf as <-. rewrite length_map.
    destruct includeConversations.
    + apply for_each_length in He. now rewrite He, length_map.
    + simpl in He. injection He as <- _. now rewrite length_map.
Qed.

(** X5: in every reply of the three tools the announced count is the
    number of items listed: [totalMatches] against [results] for the two
    summary tools, [count] against [data] for the conversation list. *)
Theorem tool_counts_match (w w' : World) (r : ToolResult) (items : list JsValue) :
  (forall params,
      run (searchConversationSummaries.handler params) w = (Resolved r, w') ->
      field "results" (payload r) = Some (JsArray items) ->
      field "totalMatches" (payload r)
        = Some (JsNumber (of_nat (List.length items)))) /\
  (forall params,
      run (textSearchConversationSummaries.handler params) w = (Resolved r, w') ->
      field "results" (payload r) = Some (JsArray items) ->
      field "totalMatches" (payload r)
        = Some (JsNumber (of_nat (List.length items)))) /\
  (forall params,
      run (getConversationsList.handler params) w = (Resolved r, w') ->
      field "data" (payload r) = Some (JsArray items) ->
      field "count" (payload r)
        = Some (JsNumber (of_nat (List.length items)))).
Proof.
  repeat split; intros params Hrun Hitems.
  - destruct (searchConversationSummaries.accepted params) eqn:Hacc.
    + rewrite (handler_accepted params Hacc), run_try_catch in Hrun.
      destruct (run (searchConversationSummaries.search _ _ _ _ _) w)
        as [[r0 | e] w0] eqn:Hs.
      * injection Hrun as <- _. eapply search_counts; eassumption.
      * simpl in Hrun. injection Hrun as <- _. discriminate.
    + destruct (handler_not_accepted params Hacc) as [error Herr].
      rewrite Herr in Hrun. simpl in Hrun. injection Hrun as <- _. discriminate.
  - unfold textSearchConversationSummaries.handler in Hrun.
    destruct (negb _).
    + simpl in Hrun. injection Hrun as <- _. discriminate.
    + rewrite run_try_catch in Hrun.
      unfold textSearchConversationSummaries.search in Hrun. rewrite run_bind in Hrun.
      destruct (run (ConversationSummaryService.textSearch _ _) w) as [[found | e] w1].
      * simpl in Hrun. injection Hrun as <- _. simpl in *.
        injection Hitems as <-. now rewrite length_map.
      * simpl in Hrun. injection Hrun as <- _. discriminate.
  - unfold getConversationsList.handler in Hrun.
    rewrite run_try_catch, run_bind in Hrun.
    destruct (run (ConversationService.searchByTopic _ _ _) w) as [[found | e] w1].
    + simpl in Hrun. injection Hrun as <- _. simpl in *.
      injection Hitems as <-. now rewrite length_map.
    + simpl in Hrun. injection Hrun as <- _. discriminate.
Qed.

Lemma grows_refl (w : World) : grows 0 w w.
Proof. exists []. split; [reflexivity | simpl; lia]. Qed.

Lemma grows_trans (n m : nat) (w1 w2 w3 : World) :
  grows n w1 w2 -> grows m w2 w3 -> grows (n + m) w1 w3.
Proof.
  intros (s1 & H1 & L1) (s2 & H2 & L2). exists (s2 ++ s1).
  split; [rewrite H2, H1; apply app_assoc | rewrite length_app; lia].
Qed.

Lemma grows_le (n m : nat) (w w' : World) : (n <= m)%nat -> grows n w w' -> grows m w w'.
Proof. intros Hle (s0 & H & L). exists s0. split; [exact H | lia]. Qed.

Lemma exec_grows (s : Statement) (w : World) : grows 1 w (snd (exec s w)).
Proof.
  exists [s]. split; [apply exec_journal | simpl; lia].
Qed.

Lemma await_grows (s : Statement) (w : World) : grows 1 w (snd (run (await s) w)).
Proof. rewrite run_await. apply exec_grows. Qed.

Lemma attach_grows (r : searchConversationSummaries.Enriched) (w : World) :
  grows 1 w (snd (run (searchConversationSummaries.attach r) w)).
Proof.
  unfold searchConversationSummaries.attach.
  destruct (0 <? _)%nat; [| apply grows_le with 0%nat; [lia | apply grows_refl]].
  rewrite run_bind. unfold ConversationService.findByConversationIds.
  destruct (_ =? 0)%nat.
  - simpl. apply grows_le with 0%nat; [lia | apply grows_refl].
  - pose proof (await_grows
                  (ConversationFindAll
                     (WhereConversationIdIn
                        (searchConversationSummaries.conversationIds r)) ASC None None) w)
      as H.
    match goal with
    | |- context [@run ?A ?p w] =>
        change (run (await _) w) with (@run A p w) in H; revert H;
        destruct (@run A p w) as [[rows | e] w1]
    end; intros H; exact H.
Qed.

Lemma for_each_attach_grows (l : list searchConversationSummaries.Enriched) (w : World) :
  grows (List.length l) w
    (snd (run (for_each searchConversationSummaries.attach l) w)).
Proof.
  revert w. induction l as [| x l IH]; intros w; simpl; [apply grows_refl |].
  rewrite run_bind.
  pose proof (attach_grows x w) as H1.
  destruct (run (searchConversationSummaries.attach x) w) as [[y | e] w1]; simpl in H1.
  - rewrite run_bind. pose proof (IH w1) as H2.
    destruct (run (for_each searchConversationSummaries.attach l) w1) as [[ys | e] w2];
      simpl in H2 |- *;
      change (S (List.length l)) with (1 + List.length l)%nat;
      eapply grows_trans; eassumption.
  - simpl. apply grows_le with 1%nat; [lia | exact H1].
Qed.

(** X6: one call of the semantic search tool sends at most 21 statements
    to the store.  Refused input sends none; accepted input without
    [includeConversations] sends the semantic select and nothing else. *)
Theorem semantic_search_statement_budget
    (params : searchConversationSummaries.Params) (w : World) :
  grows 21 w (snd (run (searchConversationSummaries.handler params) w)) /\
  (searchConversationSummaries.accepted params = false ->
   journal (snd (run (searchConversationSummaries.handler params) w)) = journal w) /\
  (searchConversationSummaries.accepted params = true ->
   searchConversationSummaries.include_of params = false ->
   journal (snd (run (searchConversationSummaries.handler params) w))
   = SummarySemanticSelect
       (searchConversationSummaries.queryEmbedding params)
       (searchConversationSummaries.effectiveThreshold
          (searchConversationSummaries.threshold_of params))
       (searchConversationSummaries.effectiveLimit
          (searchConversationSummaries.limit_of params))
     :: journal w).
Proof.
  destruct (searchConversationSummaries.accepted params) eqn:Hacc.
  - rewrite (handler_accepted params Hacc), run_try_catch.
    unfold searchConversationSummaries.search. rewrite run_bind.
    pose proof (semanticSearch_journal w
                  (searchConversationSummaries.queryEmbedding params)
                  (searchConversationSummaries.effectiveLimit
                     (searchConversationSummaries.limit_of params))
                  (searchConversationSummaries.effectiveThreshold
                     (searchConversationSummaries.threshold_of params))) as Hw1.
    destruct (run (ConversationSummaryService.semanticSearch _ _ _) w)
      as [[found | e] w1] eqn:Hs; simpl in Hw1.
    + assert (Hlen : (List.length found <= 20)%nat).
      { eapply semanticSearch_length. exact Hs. }
      assert (H1 : grows 1 w w1).
      { eexists [_]. split; [exact Hw1 | simpl; lia]. }
      destruct (List.length found =? 0)%nat.
      * simpl. split; [| split]; try discriminate.
        -- apply grows_le with 1%nat; [lia | exact H1].
        -- intros _ _. exact Hw1.
      * rewrite run_bind.
        destruct (searchConversationSummaries.include_of params).
        -- pose proof (for_each_attach_grows
                         (map searchConversationSummaries.enrich found) w1) as H2.
           rewrite length_map in H2.
           destruct (run (for_each _ _) w1) as [[enriched | e] w2]; simpl in H2 |- *;
             (split; [| split]; try discriminate;
              apply grows_le with (1 + List.length found)%nat; [lia |];
              eapply grows_trans; eassumption).
        -- simpl. split; [| split]; try discriminate.
           ++ apply grows_le with 1%nat; [lia | exact H1].
           ++ intros _ _. exact Hw1.
    + simpl. split; [| split]; try discriminate.
      * eexists [_]. split; [exact Hw1 | simpl; lia].
      * intros _ _. exact Hw1.
  - destruct (handler_not_accepted params Hacc) as [error ->]. simpl.
    split; [| split]; try discriminate; auto.
    apply grows_le with 0%nat; [lia | apply grows_refl].
Qed.

(* ================================================================== *)
(** ** More on the REST routes                                         *)
(* ================================================================== *)

(** X7: [POST /semantic-search] refuses a body without an embedding array
    (400, store untouched).  Otherwise it sends the caller's limit and
    threshold to the store as they are, neither clamped nor checked
    against the dimension, and answers 200 with every result of the
    search and their number, or 500 with the message of the failure. *)
Theorem rest_semantic_search_forwards (req : SummaryRoutes.SemanticSearchBody)
    (w : World) :
  (SummaryRoutes.query_embedding req = None ->
   run (SummaryRoutes.semantic_search req) w
     = (Resolved {| status := 400;
                    body := error_body
                      "query_embedding (array of numbers) is required" |}, w)) /\
  (forall e, SummaryRoutes.query_embedding req = Some e ->
     journal (snd (run (SummaryRoutes.semantic_search req) w))
       = SummarySemanticSelect e (SummaryRoutes.threshold_of req)
           (SummaryRoutes.limit_of req) :: journal w /\
     match run (ConversationSummaryService.semanticSearch e
                  (SummaryRoutes.limit_of req) (SummaryRoutes.threshold_of req)) w with
     | (Resolved found, w') =>
         run (SummaryRoutes.semantic_search req) w
         = (Resolved
              {| status := 200;
                 body := JsObject
                   [("success", JsBool true);
                    ("data", JsObject
                       [("query", JsString (SummaryRoutes.text_of req));
                        ("results", JsArray (map SummaryRoutes.result_json found));
                        ("totalMatches",
                         JsNumber (of_nat (List.length found)))])] |},
            w')
     | (Rejected err, w') =>
         run (SummaryRoutes.semantic_search req) w
         = (Resolved {| status := 500; body := error_body (message err) |}, w')
     end).
Proof.
  unfold SummaryRoutes.semantic_search. split.
  - intros ->. reflexivity.
  - intros e ->. rewrite run_try_catch.
    unfold ConversationSummaryService.searchByText. rewrite !run_bind.
    pose proof (semanticSearch_journal w e (SummaryRoutes.limit_of req)
                  (SummaryRoutes.threshold_of req)) as Hj.
    destruct (run (ConversationSummaryService.semanticSearch _ _ _) w)
      as [[found | err] w']; simpl in Hj |- *; split; auto.
Qed.

Lemma summary_find_all_ilike_spec (rows : list ConversationSummary.t)
    (pattern : string) (limit : number) (n : nat) :
  sql_limit limit = Resolved n ->
  exists found,
    summary_find_all_ilike rows pattern limit = Resolved found /\
    (List.length found <= n)%nat /\
    Forall (fun r => exists stored,
                In stored rows /\ r = without_embedding stored /\
                ilike (ConversationSummary.summary_text stored) pattern = true) found /\
    StronglySorted
      (fun a b => (ConversationSummary.created_at b
                   <= ConversationSummary.created_at a)%Z) found.
Proof.
  intros Hn. unfold summary_find_all_ilike. rewrite (window_limit limit n _ Hn).
  eexists. split; [reflexivity |]. split; [| split].
  - rewrite length_firstn. lia.
  - rewrite Forall_forall. intros r Hr. apply firstn_In in Hr.
    apply in_map_iff in Hr. destruct Hr as (stored & <- & Hin).
    apply (Permutation_in _ (Permutation_sym (order_by_perm _ _))) in Hin.
    apply filter_In in Hin. destruct Hin as [Hin Hm]. eauto.
  - apply StronglySorted_firstn.
    apply StronglySorted_map
      with (R := fun a b => (ConversationSummary.created_at b
                             <=? ConversationSummary.created_at a)%Z = true).
    + intros a b Hab. simpl. now apply Z.leb_le in Hab.
    + apply order_by_sorted.
      * intros a b. rewrite Z.leb_gt, Z.leb_le. lia.
      * intros a b c. rewrite !Z.leb_le. lia.
Qed.

(** X8: [POST /text-search] refuses an empty query (400, store
    untouched).  For any other query, white space included, on a
    reachable store that takes the limit (5 when it is absent) as a row
    count [n], which is the limit rounded to the nearest integer, it
    answers 200 with at most [n] summaries, each a stored summary whose
    text matches [%query%] (shown without its embedding), the most
    recent first, and with their number as [count]. *)
Theorem rest_text_search_lists (w : World) (query : string) (limit : option number)
    (n : nat) :
  (query = "" ->
   run (SummaryRoutes.text_search query limit) w
     = (Resolved {| status := 400; body := error_body "query string is required" |},
        w)) /\
  (query <> "" ->
   hd None (faults w) = None ->
   sql_limit (match limit with Some l => l | None => Finite 5 end) = Resolved n ->
   exists found w',
     run (SummaryRoutes.text_search query limit) w
       = (Resolved
            {| status := 200;
               body := JsObject
                 [("success", JsBool true);
                  ("data", JsArray (map SummaryRoutes.summary_json found));
                  ("count", JsNumber (of_nat (List.length found)))] |},
          w') /\
     db w' = db w /\
     (List.length found <= n)%nat /\
     Forall (fun r => exists stored,
                 In stored (conversations_summary (db w)) /\
                 r = without_embedding stored /\
                 ilike (ConversationSummary.summary_text stored)
                       ("%" ++ query ++ "%") = true) found /\
     StronglySorted
       (fun a b => (ConversationSummary.created_at b
                    <= ConversationSummary.created_at a)%Z) found).
Proof.
  unfold SummaryRoutes.text_search. split.
  - intros ->. reflexivity.
  - intros Hq Hhealthy Hn.
    assert (Ht : truthy_string query = true)
      by (destruct query; [now contradiction Hq | reflexivity]).
    rewrite Ht. simpl negb. cbv iota.
    rewrite run_try_catch, run_bind.
    unfold ConversationSummaryService.textSearch.
    run_await_at (SummaryFindAllILike ("%" ++ query ++ "%")
                    (match limit with Some l => l | None => Finite 5 end)) w.
    rewrite exec_healthy by exact Hhealthy. cbn [execute fst snd].
    destruct (summary_find_all_ilike_spec (conversations_summary (db w))
                ("%" ++ query ++ "%") _ n Hn) as (found & -> & Hlen & Hall & Hsorted).
    exists found. eexists. split; [reflexivity |]. simpl. auto.
Qed.

Lemma set_embedding_In (now id : Z) (embedding : list number)
    (rows : list ConversationSummary.t) (r : ConversationSummary.t) :
  In r (map (set_embedding now id embedding) rows) ->
  (In r rows /\ ConversationSummary.id r <> id) \/
  (ConversationSummary.id r = id /\
   ConversationSummary.summary_embedding r = Some embedding /\
   ConversationSummary.updated_at r = now).
Proof.
  intros H. apply in_map_iff in H. destruct H as (r0 & <- & Hin).
  unfold set_embedding. destruct (ConversationSummary.id r0 =? id)%Z eqn:E.
  - right. simpl. apply Z.eqb_eq in E. auto.
  - left. apply Z.eqb_neq in E. auto.
Qed.

(** X9: on a reachable store, attaching a vector of 1536 numbers, each of
    which the vector type takes, to the id of a stored summary resolves
    with [true] and the route answers 200.  Afterwards every summary
    with that id holds the vector as the store has read it, every other
    summary is as it was, the number of summaries is the same, and no
    other table has changed. *)
Theorem updateEmbedding_stores (w : World) (id : Z) (embedding : list number) :
  hd None (faults w) = None ->
  List.length embedding = 1536%nat ->
  forallb readable embedding = true ->
  (exists r, In r (conversations_summary (db w)) /\ ConversationSummary.id r = id) ->
  exists v w',
    vector_in embedding = Resolved v /\
    run (ConversationSummaryService.updateEmbedding id embedding) w
      = (Resolved true, w') /\
    run (SummaryRoutes.put_embedding (Some id) (Some embedding)) w
      = (Resolved {| status := 200;
                     body := JsObject
                       [("success", JsBool true);
                        ("message", JsString "Embedding updated successfully")] |},
         w') /\
    (forall r, In r (conversations_summary (db w')) ->
               ConversationSummary.id r = id ->
               ConversationSummary.summary_embedding r = Some v) /\
    (forall r, ConversationSummary.id r <> id ->
               (In r (conversations_summary (db w'))
                <-> In r (conversations_summary (db w)))) /\
    List.length (conversations_summary (db w'))
      = List.length (conversations_summary (db w)) /\
    users (db w') = users (db w) /\ sessions (db w') = sessions (db w) /\
    conversations (db w') = conversations (db w).
Proof.
  intros Hhealthy Hlen Hread (r0 & Hin0 & Hid0).
  destruct (vector_in_fitting embedding Hlen Hread) as (v & Hv & Hvlen).
  pose proof (exec_healthy (SummaryUpdateEmbedding id embedding) w Hhealthy) as Hexec.
  simpl in Hexec. unfold update_embedding in Hexec. rewrite Hv, Hvlen in Hexec.
  simpl in Hexec.
  assert (Hpos : (0 <? List.length
                    (filter (fun r => (ConversationSummary.id r =? id)%Z)
                       (conversations_summary (db w))))%nat = true).
  { apply Nat.ltb_lt.
    assert (Hf : In r0 (filter (fun r => (ConversationSummary.id r =? id)%Z)
                          (conversations_summary (db w)))).
    { apply filter_In. split; [exact Hin0 | now apply Z.eqb_eq]. }
    destruct (filter _ _); [contradiction | simpl; lia]. }
  exists v. eexists.
  rewrite put_embedding_run, updateEmbedding_run, Hexec, Hpos.
  split; [exact Hv | split; [reflexivity | split; [reflexivity |]]]. simpl.
  split; [| split; [| split; [| auto]]].
  - intros r Hr Hid. apply set_embedding_In in Hr.
    destruct Hr as [[_ Hne] | (_ & He & _)]; [contradiction | exact He].
  - intros r Hne. split.
    + intros Hr. apply set_embedding_In in Hr.
      destruct Hr as [[Hr _] | (Hid & _)]; [exact Hr | contradiction].
    + intros Hr. apply in_map_iff. exists r. split; [| exact Hr].
      unfold set_embedding. apply Z.eqb_neq in Hne. now rewrite Hne.
  - apply length_map.
Qed.

(* ================================================================== *)
(** ** The semantic search tool on a sound store                       *)
(* ================================================================== *)

Lemma within_finite (lo hi : Q) (x : number) :
  within (Finite lo) (Finite hi) x = true ->
  exists q, x = Finite q /\ lo <= q /\ q <= hi.
Proof.
  unfold within. intros H. apply andb_prop in H. destruct H as [H1 H2].
  destruct x as [| s | q]; try discriminate.
  - destruct s; discriminate.
  - exists q. split; [reflexivity |]. split; now apply le_Finite.
Qed.

(** A limit between 1 and 20 is a row count, and not 0. *)
Lemma sql_limit_within (limit : number) :
  within (Finite 1) (Finite 20) limit = true ->
  exists n, sql_limit limit = Resolved n /\ n <> 0%nat.
Proof.
  intros H. apply within_finite in H. destruct H as (q & -> & Hlo & Hhi).
  assert (H0 : Qle_bool 0 q = true).
  { apply Qle_bool_iff. apply Qle_trans with 1; [discriminate | exact Hlo]. }
  assert (Hr : (1 <= round_half_away q <= 20)%Z).
  { unfold round_half_away. rewrite H0. split.
    - change 1%Z with (Qfloor (1 + (1 # 2))). apply Qfloor_resp_le.
      apply Qplus_le_compat; [exact Hlo | apply Qle_refl].
    - change 20%Z with (Qfloor (20 + (1 # 2))). apply Qfloor_resp_le.
      apply Qplus_le_compat; [exact Hhi | apply Qle_refl]. }
  unfold sql_limit, first_error, undefined_column, out_of_range, negative, rows_of.
  cbn [bigint].
  assert (E1 : ((round_half_away q <? - 2 ^ 63) || (2 ^ 63 <=? round_half_away q))%Z
               = false).
  { apply orb_false_intro; [apply Z.ltb_ge | apply Z.leb_gt]; lia. }
  assert (E2 : (round_half_away q <? 0)%Z = false) by (apply Z.ltb_ge; lia).
  rewrite E1, E2. eexists. split; [reflexivity | lia].
Qed.

Lemma distances_fit (query : list number) (rows : list ConversationSummary.t) :
  (forall r e, In r rows -> ConversationSummary.summary_embedding r = Some e ->
               List.length e = List.length query) ->
  exists scored, distances query rows = Resolved scored.
Proof.
  induction rows as [| r rows IH]; intros Hfit; simpl; [eauto |].
  destruct IH as [scored Hs]; [intros r' e Hr'; apply Hfit; now right |].
  destruct (ConversationSummary.summary_embedding r) as [e |] eqn:He; [| eauto].
  rewrite (Hfit r e (or_introl eq_refl) He), Nat.eqb_refl, Hs. eauto.
Qed.

Lemma attach_resolves (r : searchConversationSummaries.Enriched) (w : World) :
  faults w = [] ->
  exists y w', run (searchConversationSummaries.attach r) w = (Resolved y, w') /\
               faults w' = [].
Proof.
  intros Hf. unfold searchConversationSummaries.attach.
  destruct (0 <? _)%nat; [| simpl; eauto].
  rewrite run_bind. unfold ConversationService.findByConversationIds.
  destruct (_ =? 0)%nat; [simpl; eauto |].
  run_await_at (ConversationFindAll
                  (WhereConversationIdIn (searchConversationSummaries.conversationIds r))
                  ASC None None) w.
  rewrite exec_no_fault by exact Hf. simpl. eauto.
Qed.

Lemma for_each_attach_resolves (l : list searchConversationSummaries.Enriched)
    (w : World) :
  faults w = [] ->
  exists ys w', run (for_each searchConversationSummaries.attach l) w = (Resolved ys, w').
Proof.
  revert w. induction l as [| x l IH]; intros w Hf; simpl; [eauto |].
  rewrite run_bind.
  destruct (attach_resolves x w Hf) as (y & w1 & -> & Hf1).
  rewrite run_bind. destruct (IH w1 Hf1) as (ys & w2 & ->). simpl. eauto.
Qed.

(** X12: on a store that suffers no fault and whose embeddings all have
    1536 dimensions, the semantic search tool answers with
    [success: true] every accepted input whose query vector is made of
    numbers that the vector type takes and whose limit and threshold are
    numbers; "Search failed" does not occur. *)
Theorem semantic_search_succeeds (params : searchConversationSummaries.Params)
    (w : World) :
  faults w = [] ->
  embeddings_fit (db w) ->
  searchConversationSummaries.accepted params = true ->
  forallb readable (searchConversationSummaries.queryEmbedding params) = true ->
  is_nan (searchConversationSummaries.limit_of params) = false ->
  is_nan (searchConversationSummaries.threshold_of params) = false ->
  exists r w',
    run (searchConversationSummaries.handler params) w = (Resolved r, w') /\
    field "success" (payload r) = Some (JsBool true).
Proof.
  intros Hf Hfit Hacc Hread Hlimit Hthreshold.
  rewrite (handler_accepted params Hacc), run_try_catch.
  unfold searchConversationSummaries.accepted in Hacc.
  apply andb_prop in Hacc. destruct Hacc as [_ Hdim]. apply Nat.eqb_eq in Hdim.
  unfold searchConversationSummaries.search. rewrite run_bind.
  unfold ConversationSummaryService.semanticSearch.
  run_await_at (SummarySemanticSelect
                  (searchConversationSummaries.queryEmbedding params)
                  (searchConversationSummaries.effectiveThreshold
                     (searchConversationSummaries.threshold_of params))
                  (searchConversationSummaries.effectiveLimit
                     (searchConversationSummaries.limit_of params))) w.
  rewrite exec_no_fault by exact Hf. cbn [execute fst snd].
  destruct (effective_bounds _ _ Hlimit Hthreshold) as [Ht Hl].
  destruct (vector_in_fitting _ Hdim Hread) as (v & Hv & Hvlen).
  apply within_finite in Ht. destruct Ht as (t & Ht & _).
  destruct (sql_limit_within _ Hl) as (n & Hn & Hpos).
  destruct (distances_fit v (conversations_summary (db w))) as [scored Hd].
  { intros r e Hr He. rewrite Hvlen. exact (Hfit r e Hr He). }
  unfold semantic_select. rewrite Hv, Ht, Hn. cbn [undefined_column].
  apply Nat.eqb_neq in Hpos. rewrite Hpos, Hd.
  destruct (List.length _ =? 0)%nat.
  - simpl. eexists. eexists. split; reflexivity.
  - rewrite run_bind.
    destruct (searchConversationSummaries.include_of params).
    + match goal with
      | |- context [run (for_each _ ?l) ?w1] =>
          destruct (for_each_attach_resolves l w1 eq_refl) as (ys & w2 & ->)
      end.
      simpl. eexists. eexists. split; reflexivity.
    + simpl. eexists. eexists. split; reflexivity.
Qed.

(* ================================================================== *)
(** ** POST /message, one call at a time                               *)
(* ================================================================== *)

(** X13: on a reachable store, a valid [POST /message] by a stored user,
    whose content and session key are texts that the store takes (no NUL
    character, the key of 255 characters at most), is answered 201 with
    the conversation it appended, which carries the content, role, user
    and session key of the request.  When the session key was unknown,
    one session with that key, that user and no title is inserted first;
    when it was known, the sessions are left as they were. *)
Theorem post_message_records (req : ChatRoutes.MessageBody) (w : World) :
  ChatRoutes.valid_message req = true ->
  storable req = true ->
  faults w = [] ->
  user_exists (ChatRoutes.user_id req) (db w) = true ->
  exists row w',
    run (ChatRoutes.post_message req) w = (Resolved (created row), w') /\
    conversations (db w') = conversations (db w) ++ [row] /\
    Conversation.content row = ChatRoutes.content req /\
    Conversation.role row = ChatRoutes.role req /\
    Conversation.user_id row = ChatRoutes.user_id req /\
    Conversation.session_id row = ChatRoutes.session_id req /\
    (if session_exists (ChatRoutes.session_id req) (db w)
     then sessions (db w') = sessions (db w)
     else exists s,
         sessions (db w') = sessions (db w) ++ [s] /\
         Session.session_id s = ChatRoutes.session_id req /\
         Session.user_id s = ChatRoutes.user_id req /\
         Session.title s = None).
Proof.
  intros Hvalid Hstore Hf Hu.
  destruct (storable_texts req Hstore) as (Hcontent & Hktext & Hkfits).
  assert (Hrole : is_role (ChatRoutes.role req) = true).
  { unfold ChatRoutes.valid_message in Hvalid.
    apply andb_prop in Hvalid. now destruct Hvalid. }
  rewrite run_step, (step_lookup req w Hvalid Hf). cbn [fst snd].
  destruct (session_exists (ChatRoutes.session_id req) (db w)) eqn:Hs.
  - rewrite run_step, step_append by reflexivity. cbv zeta.
    unfold conversation_create, conversation_dto.
    cbn [cc_role cc_user_id cc_session_id cc_content cc_conversation_id
         db ticked fst snd fresh_uuid].
    rewrite Hcontent, Hktext, Hkfits, (proj1 (uuid_of_plain _)), (proj2 (uuid_of_plain _)), Hrole, Hu, Hs.
    cbn [negb andb fst snd].
    eexists. eexists. split; [reflexivity |]. cbn. auto 10.
  - rewrite run_step, step_create by reflexivity.
    unfold session_create, session_dto.
    cbn [cs_session_id cs_user_id cs_title optional db ticked].
    rewrite Hktext, Hkfits, Hs, Hu. cbn [negb andb fst snd].
    rewrite run_step, step_append by reflexivity. cbv zeta.
    unfold conversation_create, conversation_dto.
    cbn [cc_role cc_user_id cc_session_id cc_content cc_conversation_id
         db ticked fst snd fresh_uuid users sessions uuid_seq].
    unfold user_exists, session_exists in *. cbn [users sessions].
    rewrite Hcontent, Hktext, Hkfits, (proj1 (uuid_of_plain _)), (proj2 (uuid_of_plain _)), Hrole, Hu, existsb_app.
    cbn [existsb]. rewrite String.eqb_refl.
    rewrite orb_true_r. cbn [negb andb orb fst snd].
    eexists. eexists. split; [reflexivity |]. cbn.
    repeat split. eexists. split; [reflexivity |]. cbn. auto.
Qed.

Lemma exec_session_find_conversations (key : string) (w : World) :
  conversations (db (snd (exec (SessionFindOne key) w))) = conversations (db w).
Proof.
  destruct (exec_db (SessionFindOne key) w) as [-> | ->]; reflexivity.
Qed.

Lemma exec_session_create_conversations (dto : CreateSessionDTO) (w : World) :
  conversations (db (snd (exec (SessionCreate dto) w))) = conversations (db w).
Proof.
  destruct (exec_db (SessionCreate dto) w) as [-> | ->]; [reflexivity |].
  simpl. unfold session_create.
  repeat match goal with
         | |- context [if ?b then _ else _] => destruct b
         end; reflexivity.
Qed.

Lemma exec_conversation_create_conversations (dto : CreateConversationDTO) (w : World) :
  match fst (exec (ConversationCreate dto) w) with
  | Resolved row =>
      conversations (db (snd (exec (ConversationCreate dto) w)))
      = conversations (db w) ++ [row]
  | Rejected _ =>
      conversations (db (snd (exec (ConversationCreate dto) w))) = conversations (db w)
  end.
Proof.
  unfold exec. destruct (faults w) as [| [msg |] rest]; simpl; try reflexivity;
    unfold conversation_create;
    repeat match goal with
           | |- context [if ?b then _ else _] => destruct b
           end; reflexivity.
Qed.

Lemma run_uuidv4 (w : World) :
  run uuidv4 w = (Resolved (fst (fresh_uuid w)), snd (fresh_uuid w)).
Proof. reflexivity. Qed.

Lemma append_only_appends (req : ChatRoutes.MessageBody) (w : World) :
  exists resp w',
    run (ChatRoutes.append_only req) w = (Resolved resp, w') /\
    ((status resp = 201%nat /\
      exists row, conversations (db w') = conversations (db w) ++ [row]) \/
     (status resp = 500%nat /\ conversations (db w') = conversations (db w))).
Proof.
  unfold ChatRoutes.append_only, ChatRoutes.append_turn.
  rewrite run_try_catch, run_bind, run_uuidv4. cbv beta iota.
  rewrite run_bind. unfold ConversationService.create.
  set (dto := {| cc_content := ChatRoutes.content req;
                 cc_user_id := ChatRoutes.user_id req;
                 cc_session_id := ChatRoutes.session_id req;
                 cc_conversation_id := fst (fresh_uuid w);
                 cc_role := ChatRoutes.role req |}).
  set (w0 := snd (fresh_uuid w)).
  pose proof (exec_conversation_create_conversations dto w0) as H.
  run_await_at (ConversationCreate dto) w0.
  destruct (exec (ConversationCreate dto) w0) as [[row | e] w1]; simpl in H |- *.
  - eexists. eexists. split; [reflexivity |]. left. simpl. eauto.
  - eexists. eexists. split; [reflexivity |]. right. simpl. auto.
Qed.

(** X14: every [POST /message] is answered, with 201, 400 or 500, whatever
    the request and the state of the store.  A request that fails the
    validation is answered 400 and the store is not reached.  A
    conversation is appended exactly when the answer is 201: an answer
    of 400 or 500 leaves the conversations as they were. *)
Theorem post_message_appends_iff_created (req : ChatRoutes.MessageBody) (w : World) :
  exists resp w',
    run (ChatRoutes.post_message req) w = (Resolved resp, w') /\
    (ChatRoutes.valid_message req = false -> status resp = 400%nat /\ w' = w) /\
    ((status resp = 201%nat /\
      exists row, conversations (db w') = conversations (db w) ++ [row]) \/
     ((status resp = 400%nat \/ status resp = 500%nat) /\
      conversations (db w') = conversations (db w))).
Proof.
  destruct (ChatRoutes.valid_message req) eqn:Hvalid.
  - rewrite (valid_message_passes req Hvalid), run_try_catch, run_bind.
    unfold SessionService.findBySessionId.
    run_await_at (SessionFindOne (ChatRoutes.session_id req)) w.
    pose proof (exec_session_find_conversations (ChatRoutes.session_id req) w) as H1.
    destruct (exec (SessionFindOne (ChatRoutes.session_id req)) w)
      as [[found | e] w1]; simpl in H1.
    + rewrite run_bind.
      destruct found as [session |].
      * simpl ChatRoutes.ensure_session. simpl run at 2. cbv beta iota.
        destruct (append_only_appends req w1) as (resp & w' & Hrun & Hcase).
        unfold ChatRoutes.append_only in Hrun. rewrite run_try_catch in Hrun.
        exists resp, w'. split; [exact Hrun |]. split; [discriminate |].
        rewrite <- H1. destruct Hcase as [Hc | [Hs Hc]]; [left; exact Hc | right; auto].
      * simpl ChatRoutes.ensure_session. unfold SessionService.create.
        set (dto := {| cs_title := None; cs_user_id := _; cs_session_id := _ |}).
        run_await_at (SessionCreate dto) w1.
        pose proof (exec_session_create_conversations dto w1) as H2.
        destruct (exec (SessionCreate dto) w1) as [[session | e] w2]; simpl in H2.
        -- destruct (append_only_appends req w2) as (resp & w' & Hrun & Hcase).
           unfold ChatRoutes.append_only in Hrun. rewrite run_try_catch in Hrun.
           exists resp, w'. split; [exact Hrun |]. split; [discriminate |].
           rewrite <- H1, <- H2.
           destruct Hcase as [Hc | [Hs Hc]]; [left; exact Hc | right; auto].
        -- simpl. eexists. eexists. split; [reflexivity |]. split; [discriminate |].
           right. simpl. split; [auto | congruence].
    + simpl. eexists. eexists. split; [reflexivity |]. split; [discriminate |].
      right. simpl. auto.
  - unfold ChatRoutes.post_message, ChatRoutes.valid_message in *.
    destruct (negb (ChatRoutes.user_id req =? 0)%Z && truthy_string _
              && truthy_string _ && truthy_string _) eqn:Hreq; simpl in Hvalid |- *.
    + rewrite Hvalid. simpl. eexists. eexists. split; [reflexivity |]. simpl. auto.
    + eexists. eexists. split; [reflexivity |]. simpl. auto.
Qed.

(* ================================================================== *)
(** ** The session routes                                              *)
(* ================================================================== *)

Lemma sessionIdExists_run (key : string) (w : World) :
  faults w = [] ->
  run (SessionService.sessionIdExists key) w
  = (Resolved (session_exists key (db w)), ticked (SessionFindOne key) (db w) w).
Proof.
  intros Hf.
  unfold SessionService.sessionIdExists. rewrite run_bind.
  run_await_at (SessionFindOne key) w.
  rewrite exec_no_fault by exact Hf. simpl.
  pose proof (find_session_exists key (db w)) as Hfind.
  destruct (find _ (sessions (db w))); rewrite Hfind; reflexivity.
Qed.

Lemma find_app_new {A : Type} (f : A -> bool) (l : list A) (x : A) :
  existsb f l = false -> f x = true -> find f (l ++ [x]) = Some x.
Proof.
  intros Hl Hx. induction l as [| y l IH]; simpl in *.
  - now rewrite Hx.
  - apply orb_false_elim in Hl. destruct Hl as [Hy Hl]. rewrite Hy. now apply IH.
Qed.

(** X15: [POST /api/sessions] with a session id that is already stored is
    answered 409 "Session ID already exists" (store reachable, body
    valid), and no table is changed. *)
Theorem post_session_conflict (req : SessionRoutes.SessionBody) (w : World) :
  faults w = [] ->
  SessionRoutes.user_id req <> 0%Z ->
  SessionRoutes.session_id req <> "" ->
  session_exists (SessionRoutes.session_id req) (db w) = true ->
  exists w',
    run (SessionRoutes.post_session req) w
      = (Resolved {| status := 409; body := error_body "Session ID already exists" |},
         w') /\
    db w' = db w.
Proof.
  intros Hf Hu Hk Hexists.
  unfold SessionRoutes.post_session.
  apply Z.eqb_neq in Hu. rewrite Hu.
  assert (Ht : truthy_string (SessionRoutes.session_id req) = true)
    by (destruct (SessionRoutes.session_id req); [now contradiction Hk | reflexivity]).
  rewrite Ht. cbn [negb andb]. cbv iota.
  rewrite run_try_catch, run_bind.
  rewrite (sessionIdExists_run (SessionRoutes.session_id req) w Hf).
  rewrite Hexists. simpl. eauto.
Qed.

(** X16: on a reachable store, [POST /api/sessions] with a new session id
    and a stored user, the session id and the title being texts that the
    store takes (no NUL character, 255 characters at most), is answered
    201 with the inserted session, which carries the title, user and
    session id of the request; a following
    [GET /api/sessions/by-session-id/:sessionId] is answered 200 with the
    same session, where it was answered 404 before. *)
Theorem post_session_then_get (req : SessionRoutes.SessionBody) (w : World) :
  faults w = [] ->
  SessionRoutes.user_id req <> 0%Z ->
  SessionRoutes.session_id req <> "" ->
  is_text (SessionRoutes.session_id req) = true ->
  fits 255 (SessionRoutes.session_id req) = true ->
  optional is_text (SessionRoutes.title req) = true ->
  optional (fits 255) (SessionRoutes.title req) = true ->
  user_exists (SessionRoutes.user_id req) (db w) = true ->
  session_exists (SessionRoutes.session_id req) (db w) = false ->
  exists s w1,
    fst (run (SessionRoutes.get_by_session_id (SessionRoutes.session_id req)) w)
      = Resolved {| status := 404; body := error_body "Session not found" |} /\
    run (SessionRoutes.post_session req) w = (Resolved (SessionRoutes.found s 201), w1) /\
    fst (run (SessionRoutes.get_by_session_id (SessionRoutes.session_id req)) w1)
      = Resolved (SessionRoutes.found s 200) /\
    sessions (db w1) = sessions (db w) ++ [s] /\
    Session.session_id s = SessionRoutes.session_id req /\
    Session.user_id s = SessionRoutes.user_id req /\
    Session.title s = SessionRoutes.title req.
Proof.
  intros Hf Hu Hk Hktext Hkfits Httext Htfits Huser Hnew.
  pose proof (find_session_exists (SessionRoutes.session_id req) (db w)) as Hfind.
  unfold SessionRoutes.post_session, SessionRoutes.get_by_session_id.
  apply Z.eqb_neq in Hu. rewrite Hu.
  assert (Ht : truthy_string (SessionRoutes.session_id req) = true)
    by (destruct (SessionRoutes.session_id req); [now contradiction Hk | reflexivity]).
  rewrite Ht. cbn [negb andb]. cbv iota.
  rewrite !run_try_catch, !run_bind.
  rewrite (sessionIdExists_run (SessionRoutes.session_id req) w Hf).
  rewrite Hnew. cbv iota. rewrite run_bind.
  unfold SessionService.create, SessionService.findBySessionId.
  run_await_at (SessionFindOne (SessionRoutes.session_id req)) w.
  rewrite (exec_no_fault _ w Hf). cbn [execute fst snd].
  destruct (find _ (sessions (db w))) as [s0 |]; [congruence |].
  match goal with
  | |- context [run (await (SessionCreate ?dto)) ?w0] =>
      run_await_at (SessionCreate dto) w0;
      rewrite (exec_no_fault (SessionCreate dto) w0 eq_refl)
  end.
  cbn [execute fst snd db ticked clock]. unfold session_create.
  cbn [cs_session_id cs_user_id cs_title].
  rewrite Hktext, Hkfits, Httext, Htfits, Hnew, Huser. cbn [negb andb fst snd].
  eexists. eexists. split; [reflexivity |]. split; [reflexivity |].
  split; [| cbn; auto].
  rewrite run_try_catch, run_bind.
  match goal with
  | |- context [run (await (SessionFindOne ?k)) ?w0] =>
      run_await_at (SessionFindOne k) w0;
      rewrite (exec_no_fault (SessionFindOne k) w0 eq_refl)
  end.
  cbn [execute fst snd db ticked sessions].
  rewrite find_app_new; [reflexivity | exact Hnew | apply String.eqb_refl].
Qed.

(* ================================================================== *)
(** ** Relevance levels and recommendations                            *)
(* ================================================================== *)

Lemma ge_upward (a b c : number) : le a b = true -> ge a c = true -> ge b c = true.
Proof. rewrite !ge_le. intros H1 H2. eapply le_trans; eassumption. Qed.

Lemma ge_threshold (a : number) (p q : Q) :
  q <= p -> ge a (double p) = true -> ge a (double q) = true.
Proof.
  rewrite !ge_le. intros H H1.
  eapply le_trans; [apply double_le; exact H | exact H1].
Qed.

(** Case analysis on the comparisons of [x] with the four thresholds. *)
Ltac case_levels x :=
  repeat match goal with
         | |- context [if ge x ?c then _ else _] =>
             let E := fresh "E" in destruct (ge x c) eqn:E
         end.

(** X17: the relevance level grows with the score: a higher score never
    gets a weaker level.  A score is labelled "good" or better exactly
    when it is at least 0.7. *)
Theorem getRelevanceLevel_monotone (a b : number) :
  (le a b = true ->
   (level_rank (getRelevanceLevel a) <= level_rank (getRelevanceLevel b))%nat) /\
  ((2 <= level_rank (getRelevanceLevel a))%nat <-> ge a (double (7 # 10)) = true).
Proof.
  assert (H98 : forall x, ge x (double (9 # 10)) = true -> ge x (double (8 # 10)) = true)
    by (intros x; apply ge_threshold; discriminate).
  assert (H87 : forall x, ge x (double (8 # 10)) = true -> ge x (double (7 # 10)) = true)
    by (intros x; apply ge_threshold; discriminate).
  assert (H76 : forall x, ge x (double (7 # 10)) = true -> ge x (double (6 # 10)) = true)
    by (intros x; apply ge_threshold; discriminate).
  unfold getRelevanceLevel.
  remember (double (9 # 10)) as c9. remember (double (8 # 10)) as c8.
  remember (double (7 # 10)) as c7. remember (double (6 # 10)) as c6.
  split.
  - intros Hab.
    pose proof (ge_upward a b c9 Hab) as U9. pose proof (ge_upward a b c8 Hab) as U8.
    pose proof (ge_upward a b c7 Hab) as U7. pose proof (ge_upward a b c6 Hab) as U6.
    case_levels a; case_levels b; cbn; try lia;
      repeat match goal with
             | H : ?P -> _, E : ?P |- _ => specialize (H E)
             end; congruence.
  - case_levels a; cbn; split; intros Hrank; try lia; try reflexivity;
      try discriminate; auto.
Qed.

(* ================================================================== *)
(** ** Searching conversations by topic                                *)
(* ================================================================== *)

Lemma trimStart_starts_clean (n : nat) :
  forall s, (String.length s <= n)%nat -> starts_clean (trimStart s) = true.
Proof.
  induction n as [| n IH]; intros s Hn.
  - destruct s; [reflexivity | simpl in Hn; lia].
  - destruct s as [| c1 s1]; [reflexivity |].
    cbn [trimStart]. simpl in Hn.
    destruct (space1 c1) eqn:E1; [apply IH; lia |].
    destruct s1 as [| c2 s2]; [cbn; now rewrite E1 |].
    simpl in Hn.
    destruct (space2 c1 c2) eqn:E2; [apply IH; lia |].
    destruct s2 as [| c3 s3]; [cbn; now rewrite E1, E2 |].
    simpl in Hn.
    destruct (space3 c1 c2 c3) eqn:E3; [apply IH; lia |].
    cbn. now rewrite E1, E2, E3.
Qed.

Lemma starts_clean_trimStart (s : string) : starts_clean s = true -> trimStart s = s.
Proof.
  destruct s as [| c1 s1]; [reflexivity |]. cbn [starts_clean trimStart].
  destruct (space1 c1); [discriminate |]. cbn [negb andb].
  destruct s1 as [| c2 s2]; [reflexivity |].
  destruct (space2 c1 c2); [discriminate |]. cbn [negb andb].
  destruct s2 as [| c3 s3]; [reflexivity |].
  destruct (space3 c1 c2 c3); [discriminate | reflexivity].
Qed.

Lemma trimEnd_unfold (c : ascii) (s : string) :
  trimEnd (String c s) = if blank (String c s) then EmptyString else String c (trimEnd s).
Proof. reflexivity. Qed.

Lemma starts_clean_trimEnd (s : string) :
  starts_clean s = true -> starts_clean (trimEnd s) = true.
Proof.
  destruct s as [| c1 s1]; [reflexivity |]. rewrite trimEnd_unfold.
  destruct (blank (String c1 s1)); [reflexivity |].
  cbn [starts_clean].
  destruct (space1 c1); [discriminate |]. cbn [negb andb].
  destruct s1 as [| c2 s2]; [reflexivity |]. rewrite trimEnd_unfold.
  destruct (blank (String c2 s2)); [reflexivity |].
  destruct (space2 c1 c2); [discriminate |]. cbn [negb andb].
  destruct s2 as [| c3 s3]; [reflexivity |]. rewrite trimEnd_unfold.
  destruct (blank (String c3 s3)); [reflexivity |].
  intros H. exact H.
Qed.

(** White space before white space is white space. *)
Lemma trimStart_app (n : nat) :
  forall y b, (String.length y <= n)%nat -> blank y = true ->
              trimStart (y ++ b)%string = trimStart b.
Proof.
  unfold blank.
  induction n as [| n IH]; intros y b Hn Hy.
  - destruct y; [reflexivity | simpl in Hn; lia].
  - destruct y as [| c1 s1]; [reflexivity |].
    cbn [trimStart] in Hy. cbn [append trimStart]. simpl in Hn.
    destruct (space1 c1); [apply IH; [lia | exact Hy] |].
    destruct s1 as [| c2 s2]; [discriminate |].
    cbn [append]. simpl in Hn.
    destruct (space2 c1 c2); [apply IH; [lia | exact Hy] |].
    destruct s2 as [| c3 s3]; [discriminate |].
    cbn [append]. simpl in Hn.
    destruct (space3 c1 c2 c3); [apply IH; [lia | exact Hy] | discriminate].
Qed.

Lemma blank_app (y b : string) :
  blank y = true -> blank b = true -> blank (y ++ b)%string = true.
Proof.
  intros Hy Hb. unfold blank in *.
  now rewrite (trimStart_app (String.length y) y b (Nat.le_refl _) Hy).
Qed.

Lemma trimEnd_split (s : string) :
  exists b, blank b = true /\ s = (trimEnd s ++ b)%string.
Proof.
  induction s as [| c s IH]; [exists EmptyString; split; reflexivity |].
  rewrite trimEnd_unfold. destruct (blank (String c s)) eqn:E.
  - exists (String c s). split; [exact E | reflexivity].
  - destruct IH as (b & Hb & Hs). exists b. split; [exact Hb |].
    cbn [append]. now rewrite <- Hs.
Qed.

Lemma trimEnd_idempotent (s : string) : trimEnd (trimEnd s) = trimEnd s.
Proof.
  induction s as [| c s IH]; [reflexivity |].
  rewrite trimEnd_unfold. destruct (blank (String c s)) eqn:E; [reflexivity |].
  rewrite trimEnd_unfold, IH.
  destruct (blank (String c (trimEnd s))) eqn:E'; [| reflexivity].
  destruct (trimEnd_split s) as (b & Hb & Hs).
  pose proof (blank_app _ _ E' Hb) as H. cbn [append] in H.
  rewrite <- Hs in H. congruence.
Qed.

Lemma trim_idempotent (s : string) : trim (trim s) = trim s.
Proof.
  unfold trim.
  rewrite (starts_clean_trimStart (trimEnd (trimStart s))).
  - apply trimEnd_idempotent.
  - apply starts_clean_trimEnd.
    apply (trimStart_starts_clean (String.length s)). apply Nat.le_refl.
Qed.

(** X19: white space around the search term does not matter to
    [searchByTopic]: the call with the trimmed term is the same program.
    For a term that is not blank, on a reachable store that takes the
    limit and the offset as row counts [n] and [m] (each rounded to the
    nearest integer), it returns the conversations whose content matches
    [%term%] with the term trimmed, the most recent first, after
    skipping [m] and up to [n]. *)
Theorem searchByTopic_trims (searchTerm : string) (limit offset : number) (w : World) :
  ConversationService.searchByTopic (trim searchTerm) limit offset
    = ConversationService.searchByTopic searchTerm limit offset /\
  (forall n m,
      trim searchTerm <> "" ->
      hd None (faults w) = None ->
      sql_limit limit = Resolved n -> sql_offset offset = Resolved m ->
      exists found,
        fst (run (ConversationService.searchByTopic searchTerm limit offset) w)
          = Resolved (firstn n (skipn m found)) /\
        (forall c, In c found <->
                   In c (conversations (db w)) /\
                   ilike (Conversation.content c) ("%" ++ trim searchTerm ++ "%") = true) /\
        StronglySorted
          (fun a b => (Conversation.created_at b <= Conversation.created_at a)%Z)
          found).
Proof.
  split.
  - unfold ConversationService.searchByTopic. rewrite trim_idempotent.
    destruct (trim searchTerm) as [| c t] eqn:Ht; simpl.
    + now rewrite orb_true_r.
    + destruct searchTerm; [discriminate Ht | reflexivity].
  - intros n m Hne Hhealthy Hn Hm.
    unfold ConversationService.searchByTopic.
    assert (H1 : truthy_string searchTerm = true)
      by (destruct searchTerm; [now contradiction Hne | reflexivity]).
    assert (H2 : truthy_string (trim searchTerm) = true)
      by (destruct (trim searchTerm); [now contradiction Hne | reflexivity]).
    rewrite H1, H2. cbn [negb orb]. cbv iota.
    run_await_at (ConversationFindAll
                    (WhereContentILike ("%" ++ trim searchTerm ++ "%"))
                    DESC (Some limit) (Some offset)) w.
    rewrite exec_healthy by exact Hhealthy. cbn [execute fst snd].
    unfold conversation_find_all. rewrite (window_resolved limit offset n m _ Hn Hm).
    eexists. split; [reflexivity |]. split.
    + intros c. split.
      * intros Hc.
        apply (Permutation_in _ (Permutation_sym (order_by_perm _ _))) in Hc.
        now apply filter_In in Hc.
      * intros Hc. apply (Permutation_in _ (order_by_perm _ _)).
        now apply filter_In.
    + rewrite <- (map_id (order_by _ _)).
      apply StronglySorted_map with (R := fun a b => by_created_at DESC a b = true).
      * intros a b Hab. unfold by_created_at in Hab. now apply Z.leb_le in Hab.
      * apply order_by_sorted;
          [exact by_created_at_DESC_total | exact by_created_at_DESC_trans].
Qed.

End Store.

(* ================================================================== *)
(** ** The theorems at sample inputs                                   *)
(* ================================================================== *)

Local Abbreviation run_ := (run axis_cosine_distance ilike_contains single_precision).
Local Abbreviation search_ :=
  (ConversationSummaryService.semanticSearch (axis 0 1) (Finite 5)).
Local Abbreviation score_ := SemanticSearchResult.similarity_score.

(** C1, witness: in [mixed_world] the score 1 comes before the score 0. *)
Lemma semanticSearch_sorted_by_score_witness :
  StronglySorted (fun a b => ranked (score_ a) (score_ b))
    [along_result; across_result].
Proof.
  apply (semanticSearch_sorted_by_score axis_cosine_distance ilike_contains
           single_precision mixed_world (snd (run_ (search_ (Finite 0)) mixed_world))
           (axis 0 1) (Finite 5) (Finite 0)).
  vm_compute. reflexivity.
Defined.

(** C1, counterexample: two candidates with the same score 1; the one
    created at 100 is returned before the one created at 200. *)
Lemma equal_scores_keep_scan_order :
  fst (run_ (search_ (double (7 # 10))) tie_world)
  = Resolved
      [ {| SemanticSearchResult.id := 1;
           SemanticSearchResult.summary_text := "older";
           SemanticSearchResult.conversation_ids := ["c1"];
           SemanticSearchResult.similarity_score := Finite 1;
           SemanticSearchResult.created_at := 100 |};
        {| SemanticSearchResult.id := 2;
           SemanticSearchResult.summary_text := "newer";
           SemanticSearchResult.conversation_ids := ["c2"];
           SemanticSearchResult.similarity_score := Finite 1;
           SemanticSearchResult.created_at := 200 |} ].
Proof. vm_compute. reflexivity. Qed.



(** C3, witness: nothing stored, default threshold. *)
Lemma empty_search_reply_witness :
  run_ (searchConversationSummaries.handler
            (search_params "hi" (axis 0 1) None None)) empty_world
  = (Resolved (TextResponseBuilder
                 (searchConversationSummaries.no_results "hi" (double (7 # 10)))),
     snd (run_ (search_ (double (7 # 10))) empty_world)).
Proof.
  apply (empty_search_reply axis_cosine_distance ilike_contains single_precision
           (search_params "hi" (axis 0 1) None None) empty_world).
  - vm_compute. reflexivity.
  - vm_compute. reflexivity.
Defined.

(** C3, counterexample: the reply to a search that finds nothing has no
    [recommendation] (it has a [message] and a [suggestion]); the reply
    to a search that finds something has other keys. *)
Lemma empty_reply_has_another_shape :
  keys (reply_of (run_ (searchConversationSummaries.handler
                            (search_params "hi" (axis 0 1) None None)) empty_world))
    = ["success"; "query"; "message"; "results"; "totalMatches"; "suggestion"] /\
  field "recommendation"
    (reply_of (run_ (searchConversationSummaries.handler
                         (search_params "hi" (axis 0 1) None None)) empty_world))
    = None /\
  field "suggestion"
    (reply_of (run_ (searchConversationSummaries.handler
                         (search_params "hi" (axis 0 1) None None)) empty_world))
    = Some (JsString "Try lowering the similarity threshold for broader results") /\
  keys (reply_of (run_ (searchConversationSummaries.handler
                            (search_params "hi" (axis 0 1) None None)) mixed_world))
    = ["success"; "query"; "results"; "totalMatches"; "searchParams"; "recommendation"].
Proof. repeat split; vm_compute; reflexivity. Qed.

(** C4, witness: thresholds 0 and 1 in [mixed_world]; the summary whose
    score is exactly 1 is kept at threshold 1, the other one is not. *)
Lemma semanticSearch_threshold_monotone_witness :
  (List.length [along_result] <= List.length [along_result; across_result])%nat /\
  Forall (fun r => lt (score_ r) (Finite 1) = false) [along_result] /\
  In (to_result (summary 1 "along" ["c1"] (Some (axis 0 1)) 100,
                 axis_cosine_distance (axis 0 1) (axis 0 1)))
     [along_result].
Proof.
  pose proof (semanticSearch_threshold_monotone axis_cosine_distance ilike_contains
                single_precision mixed_world
                (snd (run_ (search_ (Finite 0)) mixed_world))
                (snd (run_ (search_ (Finite 1)) mixed_world))
                (axis 0 1) (Finite 5) (Finite 0) (Finite 1)
                [along_result; across_result] [along_result] eq_refl
                ltac:(vm_compute; reflexivity) ltac:(vm_compute; reflexivity))
    as (Hlen & _ & Hall & Hkept).
  split; [exact Hlen | split; [exact Hall |]].
  apply (Hkept _ (axis 0 1) (axis 0 1) 5%nat).
  - left. reflexivity.
  - reflexivity.
  - vm_compute. reflexivity.
  - vm_compute. reflexivity.
  - reflexivity.
  - simpl. lia.
Defined.



(** C6, witness: a query vector of three numbers. *)
Lemma semantic_search_validates_before_store_witness :
  exists error,
    run_ (searchConversationSummaries.handler
              (search_params "hi" [Finite 1; Finite 2; Finite 3] None None)) mixed_world
      = (Resolved (failure error), mixed_world) /\
    journal (snd (run_ (searchConversationSummaries.handler
                            (search_params "hi" [Finite 1; Finite 2; Finite 3]
                               None None)) mixed_world))
      = journal mixed_world.
Proof.
  apply (semantic_search_validates_before_store axis_cosine_distance ilike_contains
           single_precision
           (search_params "hi" [Finite 1; Finite 2; Finite 3] None None) mixed_world).
  right. simpl. lia.
Defined.


(** C8, witness: the two calls one after the other. *)
Lemma concurrent_messages_one_session_witness :
  exists ra rb w' sent,
    run_concurrent axis_cosine_distance ilike_contains single_precision
      [true; true; true; false; false; false]
      (ChatRoutes.post_message hi) (ChatRoutes.post_message hi) chat_world
      = (Resolved ra, Resolved rb, w') /\
    journal w' = sent ++ journal chat_world /\
    List.length (sessions_with (ChatRoutes.session_id hi) (db w')) = 1%nat /\
    answered ra /\ answered rb /\
    (status ra = 201%nat \/ status rb = 201%nat) /\
    List.length (conversations (db w'))
      = (List.length (conversations (db chat_world))
         + (if (status ra =? 201)%nat then 1 else 0)
         + (if (status rb =? 201)%nat then 1 else 0))%nat /\
    (status ra = 201%nat /\ status rb = 201%nat
     <-> lookup_after_insert (ChatRoutes.session_id hi) sent = true) /\
    (status ra = 500%nat \/ status rb = 500%nat
     <-> session_inserts (ChatRoutes.session_id hi) sent = 2%nat).
Proof.
  apply (concurrent_messages_one_session axis_cosine_distance ilike_contains
           single_precision hi hi chat_world [true; true; true; false; false; false]);
    reflexivity.
Defined.

(** C8, counterexample: both calls look the session up before either
    inserts it.  The first call is answered 201; the second meets the
    uniqueness constraint and is answered 500 "Validation error"; one
    session row and one turn exist afterwards, not two turns. *)
Lemma losing_call_appends_nothing :
  exists a b w',
    run_concurrent axis_cosine_distance ilike_contains single_precision
      [true; false; true; false; true; false]
      (ChatRoutes.post_message hi) (ChatRoutes.post_message hi) chat_world
      = (a, b, w') /\
    option_map status (response_of a) = Some 201%nat /\
    response_of b
      = Some {| status := 500; body := error_body "Validation error" |} /\
    List.length (sessions_with "abc" (db w')) = 1%nat /\
    map Conversation.conversation_id (conversations (db w'))
      = ["00000000-0000-4000-8000-000000000000"].
Proof. eexists. eexists. eexists. vm_compute. repeat split. Qed.

(** C9, witness: a store that refuses the connection. *)
Lemma search_tools_never_throw_witness :
  run_ (searchConversationSummaries.handler
            (search_params "hi" (axis 0 1) None None)) down_world
  = (Resolved (failure "Search failed: connect ECONNREFUSED"),
     snd (run_ (search_ (double (7 # 10))) down_world)).
Proof.
  apply (proj1 (proj2 (proj2 (proj2 (search_tools_never_throw axis_cosine_distance
                                       ilike_contains single_precision down_world))))
           (search_params "hi" (axis 0 1) None None)
           (ConnectionError "connect ECONNREFUSED")).
  - vm_compute. reflexivity.
  - vm_compute. reflexivity.
Defined.


(* ================================================================== *)
(** ** Further theorems at sample inputs                               *)
(* ================================================================== *)

Lemma mixed_world_fits : embeddings_fit (db mixed_world).
Proof.
  intros r e Hr He. simpl in Hr.
  destruct Hr as [<- | [<- | [<- | []]]]; simpl in He;
    try discriminate; injection He as <-; vm_compute; reflexivity.
Qed.

(** X2, witness: the search at threshold 0 in [mixed_world], limit 5. *)
Lemma semanticSearch_returns_embedded_summaries_witness :
  exists n v,
    sql_limit (Finite 5) = Resolved n /\
    vector_in single_precision (axis 0 1) = Resolved v /\
    (List.length [along_result; across_result] <= n)%nat /\
    Forall (fun r => exists row e,
                In row (conversations_summary (db mixed_world)) /\
                ConversationSummary.summary_embedding row = Some e /\
                r = to_result (row, axis_cosine_distance e v))
           [along_result; across_result] /\
    db (snd (run_ (search_ (Finite 0)) mixed_world)) = db mixed_world.
Proof.
  apply (semanticSearch_returns_embedded_summaries axis_cosine_distance
           ilike_contains single_precision mixed_world
           (snd (run_ (search_ (Finite 0)) mixed_world))
           (axis 0 1) (Finite 5) (Finite 0) [along_result; across_result]).
  vm_compute. reflexivity.
Defined.

(** X4, witness: two stored ids around one that no conversation has. *)
Lemma findByConversationIds_selects_witness :
  exists rows w',
    run_ (ConversationService.findByConversationIds ["second"; "gone"; "first"])
      history_world = (Resolved rows, w') /\
    db w' = db history_world /\
    (forall c, In c rows <->
               In c (conversations (db history_world)) /\
               In (Conversation.conversation_id c) ["second"; "gone"; "first"]) /\
    StronglySorted
      (fun a b => (Conversation.created_at a <= Conversation.created_at b)%Z) rows.
Proof.
  apply (proj2 (findByConversationIds_selects axis_cosine_distance ilike_contains
                  single_precision history_world ["second"; "gone"; "first"])).
  reflexivity.
Defined.

(** X8, witness: the query "ALO" finds the summary "along". *)
Lemma rest_text_search_lists_witness :
  exists found w',
    run_ (SummaryRoutes.text_search "ALO" None) mixed_world
      = (Resolved
           {| status := 200;
              body := JsObject
                [("success", JsBool true);
                 ("data", JsArray (map SummaryRoutes.summary_json found));
                 ("count", JsNumber (of_nat (List.length found)))] |},
         w') /\
    db w' = db mixed_world /\
    (List.length found <= 5)%nat /\
    Forall (fun r => exists stored,
                In stored (conversations_summary (db mixed_world)) /\
                r = without_embedding stored /\
                ilike_contains (ConversationSummary.summary_text stored)
                               ("%" ++ "ALO" ++ "%") = true) found /\
    StronglySorted
      (fun a b => (ConversationSummary.created_at b
                   <= ConversationSummary.created_at a)%Z) found.
Proof.
  apply (proj2 (rest_text_search_lists axis_cosine_distance ilike_contains
                  single_precision mixed_world "ALO" None 5)).
  - discriminate.
  - reflexivity.
  - reflexivity.
Defined.

(** X9, witness: the summary 3 of [mixed_world], which has no embedding
    yet. *)
Lemma updateEmbedding_stores_witness :
  exists v w',
    vector_in single_precision (axis 3 1) = Resolved v /\
    run_ (ConversationSummaryService.updateEmbedding 3 (axis 3 1)) mixed_world
      = (Resolved true, w') /\
    (forall r, In r (conversations_summary (db w')) ->
               ConversationSummary.id r = 3%Z ->
               ConversationSummary.summary_embedding r = Some v).
Proof.
  destruct (updateEmbedding_stores axis_cosine_distance ilike_contains
              single_precision mixed_world 3 (axis 3 1) eq_refl
              ltac:(vm_compute; reflexivity) ltac:(vm_compute; reflexivity))
    as (v & w' & Hv & Hrun & _ & Hheld & _).
  - exists (summary 3 "bare" [] None 300). split; [simpl; auto | reflexivity].
  - exists v, w'. auto.
Defined.

(** X12, witness: the default search in [mixed_world]. *)
Lemma semantic_search_succeeds_witness :
  exists r w',
    run_ (searchConversationSummaries.handler
            (search_params "hi" (axis 0 1) None None)) mixed_world
      = (Resolved r, w') /\
    field "success" (payload r) = Some (JsBool true).
Proof.
  apply (semantic_search_succeeds axis_cosine_distance ilike_contains
           single_precision (search_params "hi" (axis 0 1) None None) mixed_world).
  - reflexivity.
  - exact mixed_world_fits.
  - vm_compute. reflexivity.
  - vm_compute. reflexivity.
  - reflexivity.
  - vm_compute. reflexivity.
Defined.

(** X13, witness: the first message of the session "abc". *)
Lemma post_message_records_witness :
  exists row w',
    run_ (ChatRoutes.post_message hi) chat_world = (Resolved (created row), w') /\
    conversations (db w') = conversations (db chat_world) ++ [row] /\
    Conversation.content row = "hi" /\
    Conversation.session_id row = "abc" /\
    List.length (sessions (db w')) = 1%nat.
Proof.
  destruct (post_message_records axis_cosine_distance ilike_contains single_precision
              hi chat_world eq_refl eq_refl eq_refl eq_refl)
    as (row & w' & Hrun & Hconv & Hcontent & _ & _ & Hsession & Hnew).
  exists row, w'. repeat split; try assumption.
  simpl in Hnew. destruct Hnew as (s & -> & _). reflexivity.
Defined.

(** X15, witness: the session "abc" of [history_world] posted again. *)
Lemma post_session_conflict_witness :
  exists w',
    run_ (SessionRoutes.post_session new_session) history_world
      = (Resolved {| status := 409; body := error_body "Session ID already exists" |},
         w') /\
    db w' = db history_world.
Proof.
  apply (post_session_conflict axis_cosine_distance ilike_contains single_precision
           new_session history_world); try reflexivity; discriminate.
Defined.

(** X16, witness: the session "abc" posted to [chat_world], then read. *)
Lemma post_session_then_get_witness :
  exists s w1,
    run_ (SessionRoutes.post_session new_session) chat_world
      = (Resolved (SessionRoutes.found s 201), w1) /\
    fst (run_ (SessionRoutes.get_by_session_id "abc") w1)
      = Resolved (SessionRoutes.found s 200) /\
    Session.title s = Some "Monday".
Proof.
  destruct (post_session_then_get axis_cosine_distance ilike_contains single_precision
              new_session chat_world eq_refl)
    as (s & w1 & _ & Hpost & Hget & _ & _ & _ & Htitle);
    try reflexivity; try discriminate.
  exists s, w1. auto.
Defined.
